(** * scdlpicker: the online relocator, the repicker mailbox and the
      inventory epoch test, as a shallow embedding

    The Python sources modelled here are

    - [lib/inventory.py]                   ([Module Inventory])
    - [bin/scdlpicker.online-relocator.py] ([Module Relocator])
    - [bin/scdlpicker.repicker.py]         ([Module Repicker])

    Conventions.  A Python float (times in seconds, depths in km,
    weights, standard errors, confidences) is the rational [Q] it denotes:
    comparisons and [max] are exact on it; where the relocator computes
    with floats, in the score of [improvement], every operation is
    rounded to the nearest double ([fl]).  An
    accessor of the SeisComP data model that raises [ValueError] when the
    attribute is unset is an [option]; a Python [dict] is a [gmap]; the
    external collaborators (data base, locator, depth estimator, messaging,
    the picker network) are fields of an environment record, so that every
    function of the sources is an ordinary, executable Rocq function. *)

From Stdlib Require Import QArith Qabs Qround Qminmax ZArith.
From Stdlib Require Import String Ascii List Bool Lia Sorted.
From stdpp Require Import gmap strings list fin_maps.

Open Scope string_scope.

(** ** Rational comparisons as the sources write them *)

Definition Qltb (x y : Q) : bool := negb (Qle_bool y x).
Definition Qgeb (x y : Q) : bool := Qle_bool y x.
Definition Qgtb (x y : Q) : bool := Qltb y x.

(** Python's [max(a, b)]: the first argument unless the second is greater. *)
Definition py_max (a b : Q) : Q := if Qltb a b then b else a.

(** ** Double precision

    [round_half_even y]: the integer nearest to [y], the even one of two. *)
Definition round_half_even (y : Q) : Z :=
  let f := Qfloor y in
  let r := (y - inject_Z f)%Q in
  if Qltb r (1 # 2) then f
  else if Qltb (1 # 2) r then (f + 1)%Z
  else if Z.even f then f else (f + 1)%Z.

(** [floor (log2 x)] for [x > 0] *)
Definition Qlog2 (x : Q) : Z :=
  let e := (Z.log2 (Qnum x) - Z.log2 (Zpos (Qden x)))%Z in
  if Qle_bool (2 ^ e) x then e else (e - 1)%Z.

(** The result of an operation of IEEE 754 binary64 arithmetic whose
    exact result is [x]: the double nearest to [x], ties to even, with
    53 bits from [2^-1022] on and the multiples of [2^-1074] below.  The
    exponent is not bounded above, where binary64 has an infinity. *)
Definition fl (x : Q) : Q :=
  let x := Qred x in
  if Qeq_bool x 0 then 0
  else
    let e := Z.max (Qlog2 (Qabs x) - 52) (-1074) in
    Qred (inject_Z (round_half_even (x / 2 ^ e)) * 2 ^ e).

(** Python's [sorted]: a stable insertion sort; [le] is the order, or its
    converse for [reverse=True]. *)
Fixpoint insert_sorted {A} (le : A -> A -> bool) (x : A) (l : list A)
  : list A :=
  match l with
  | [] => [x]
  | y :: l' => if le x y then x :: y :: l' else y :: insert_sorted le x l'
  end.

Definition py_sorted {A} (le : A -> A -> bool) (l : list A) : list A :=
  foldr (insert_sorted le) [] l.

(** ** lib/inventory.py *)

Module Inventory.

(** An inventory item (network, station, location, stream) as far as
    [operational] looks at it: [start()] and [end()] raise when the
    attribute is unset. *)
Record Item := { start : option Q; end_ : option Q }.

Definition operational (obj : Item) (time : Q) : bool :=
  match start obj with
  | None => false
  | Some s =>
      if Qgeb time s then
        match end_ obj with
        | Some e => if Qgtb time e then false else true
        | None => true
        end
      else false
  end.

(** The inventory tree: networks, stations, sensor locations, streams;
    each level is an item with its epoch. *)
Record Stream := { stream_code : string; stream_epoch : Item }.

Record SensorLocation := {
  location_code : string;
  location_epoch : Item;
  streams : list Stream }.

Record Station := {
  station_code : string;
  station_epoch : Item;
  sensorLocations : list SensorLocation }.

Record Network := {
  network_code : string;
  network_epoch : Item;
  stations : list Station }.

(** [time is not None and not operational(obj, time)], negated: the item
    is not skipped. *)
Definition kept (time : option Q) (obj : Item) : bool :=
  match time with
  | None => true
  | Some t => operational obj t
  end.

(** [InventoryIterator(inventory, time)]: what the generator yields, in
    order. *)
Definition InventoryIterator (inventory : list Network) (time : option Q)
  : list (Network * Station * SensorLocation * Stream) :=
  flat_map
    (fun network =>
       if kept time (network_epoch network) then
         flat_map
           (fun station =>
              if kept time (station_epoch station) then
                flat_map
                  (fun location =>
                     if kept time (location_epoch location) then
                       flat_map
                         (fun stream =>
                            if kept time (stream_epoch stream)
                            then [(network, station, location, stream)]
                            else [])
                         (streams location)
                     else [])
                  (sensorLocations station)
              else [])
           (stations network)
       else [])
    inventory.

End Inventory.

(** ** bin/scdlpicker.online-relocator.py *)

Module Relocator.

(** *** The data model, as far as the relocator reads it *)

(** [arr.pickID()] is a string (empty when unset); [arr.weight()] raises
    when no weight is set. *)
Record Arrival := { arr_pickID : string; arr_weight : option Q }.

Record Pick := { pick_publicID : string }.

Record CreationInfo :=
  { ci_author : string; ci_agencyID : string; ci_creationTime : Q }.

Inductive EvaluationMode := MANUAL | AUTOMATIC.

Record Origin := {
  publicID : string;
  time : Q;
  latitude : Q;
  longitude : Q;
  depth : Q;
  arrivals : list Arrival;
  standardError : option Q;        (* [quality().standardError()] *)
  creationInfo : option CreationInfo;
  evaluationMode : option EvaluationMode }.

Definition arrivalCount (o : Origin) : nat := length (arrivals o).

Definition setCreationInfo (ci : CreationInfo) (o : Origin) : Origin :=
  {| publicID := publicID o; time := time o; latitude := latitude o;
     longitude := longitude o; depth := depth o; arrivals := arrivals o;
     standardError := standardError o; creationInfo := Some ci;
     evaluationMode := evaluationMode o |}.

Definition setEvaluationMode (m : EvaluationMode) (o : Origin) : Origin :=
  {| publicID := publicID o; time := time o; latitude := latitude o;
     longitude := longitude o; depth := depth o; arrivals := arrivals o;
     standardError := standardError o; creationInfo := creationInfo o;
     evaluationMode := Some m |}.

Record Event := { ev_publicID : string; preferredOriginID : string }.

(** *** Helpers of [scdlpicker.util] and the collaborators

    [scdlpicker/util.py], [dbutil.py], [relocation.py] and [depth.py]
    belong to the library package, not to this program: what the relocator
    calls in them is a field of the environment.  [GMT] is the clock
    reading of the cycle, [pickFind] the registry behind [Pick.Find],
    [libm_pow] the [pow] of the C library, which Python's [**] calls on
    floats and which need not round correctly, [connection_send] what
    [connection().send(msg)] answers for the message with an origin.
    Writing the log and [depth.log] is left out. *)
Record Env := {
  hasFixedDepth : Origin -> bool;
  util_agencyID : Origin -> string;
  statusFlag : Origin -> string;
  qualified : Origin -> bool;
  valid : Event -> bool;
  GMT : Q;
  pickFind : string -> option Pick;
  loadEvent : string -> option Event;
  loadOriginWithoutArrivals : string -> option Origin;
  loadPicksForOrigin : Origin -> Origin;
  relocate : Origin -> string -> option Q -> Q -> Q -> option Origin;
  computeDepth : string -> option Q;
  libm_pow : Q -> Q -> Q;
  connection_send : Origin -> bool }.

(** Modelled from the spec: [_util.creationInfo(author, agencyID, now)] of
    [scdlpicker/util.py], which is missing here; successful outputs are
    "stamped with this system's creation metadata". *)
Definition util_creationInfo (author agencyID : string) (now : Q)
  : CreationInfo :=
  {| ci_author := author; ci_agencyID := agencyID; ci_creationTime := now |}.

(** *** The application object *)

Record App := {
  author : string;
  agencyID : string;
  minDelay : Q;
  minDepth : Q;
  maxResidual : Q;
  test : bool;                          (* [hasOption("test")] *)
  pendingEvents : gmap string Event;
  origins : gmap string Origin;
  relocated : gmap string Origin }.

Definition set_pendingEvents (f : gmap string Event -> gmap string Event)
  (a : App) : App :=
  {| author := author a; agencyID := agencyID a; minDelay := minDelay a;
     minDepth := minDepth a; maxResidual := maxResidual a; test := test a;
     pendingEvents := f (pendingEvents a); origins := origins a;
     relocated := relocated a |}.

Definition set_origins (f : gmap string Origin -> gmap string Origin)
  (a : App) : App :=
  {| author := author a; agencyID := agencyID a; minDelay := minDelay a;
     minDepth := minDepth a; maxResidual := maxResidual a; test := test a;
     pendingEvents := pendingEvents a; origins := f (origins a);
     relocated := relocated a |}.

Definition set_relocated (f : gmap string Origin -> gmap string Origin)
  (a : App) : App :=
  {| author := author a; agencyID := agencyID a; minDelay := minDelay a;
     minDepth := minDepth a; maxResidual := maxResidual a; test := test a;
     pendingEvents := pendingEvents a; origins := origins a;
     relocated := f (relocated a) |}.

(** *** [getFixedDepth] and the fixed-depth directive of [processEvent] *)

Definition getFixedDepth (origin : Origin) : option Q :=
  let lat := latitude origin in
  let lon := longitude origin in
  if Qle_bool 50 lat && Qle_bool lat 52 && Qle_bool 15 lon && Qle_bool lon 20
  then Some 1%Q else None.

(** Lines 414-426 of [processEvent]. *)
Definition directFixedDepth (env : Env) (app : App) (origin : Origin)
  : option Q :=
  let fixedDepth := getFixedDepth origin in
  let defaultDepth :=
    match fixedDepth with Some d => d | None => 10%Q end in
  if hasFixedDepth env origin then
    if String.eqb (util_agencyID env origin) (agencyID app)
       && String.eqb (statusFlag env origin) "M"
    then Some (depth origin)
    else if Qeq_bool (depth origin) defaultDepth then Some defaultDepth
    else fixedDepth
  else fixedDepth.

(** *** [getPicksReferencedByOrigin], [comparePicks], [improvement] *)

Definition getPicksReferencedByOrigin (env : Env) (origin : Origin)
  (minWeight : Q) : gmap string Pick :=
  foldl
    (fun (picks : gmap string Pick) (arr : Arrival) =>
       let pickID := arr_pickID arr in
       if String.eqb pickID "" then picks
       else match arr_weight arr with
            | None => picks
            | Some w =>
                if Qltb w minWeight then picks
                else match pickFind env pickID with
                     | None => picks
                     | Some pick => <[pickID := pick]> picks
                     end
            end)
    ∅ (arrivals origin).

Definition comparePicks (env : Env) (origin1 origin2 : Origin)
  : gmap string Pick * gmap string Pick * gmap string Pick :=
  let picks1 := getPicksReferencedByOrigin env origin1 (1 # 2) in
  let picks2 := getPicksReferencedByOrigin env origin2 (1 # 2) in
  let common :=
    filter (fun kv : string * Pick => is_Some (picks2 !! kv.1)) picks1 in
  let only1 :=
    filter (fun kv : string * Pick => ¬ is_Some (picks2 !! kv.1)) picks1 in
  let only2 :=
    filter (fun kv : string * Pick => ¬ is_Some (picks1 !! kv.1)) picks2 in
  (common, only1, only2).

Definition Qofnat (n : nat) : Q := inject_Z (Z.of_nat n).

(** [x ** y] on floats, for a finite [x >= 0] and [y = 2]: [float_pow]
    of CPython answers 0.0 for the base 0.0 and 1.0 for the base 1.0
    itself, and calls [pow] for any other base. *)
Definition float_pow (env : Env) (x y : Q) : Q :=
  if Qeq_bool x 0 then 0%Q
  else if Qeq_bool x 1 then 1%Q
  else libm_pow env x y.

(** Lines 364-397.  [count2/count1] is the true division of two
    integers, rounded once; the quotient of the two standard errors, the
    square and the product are rounded each. *)
Definition improvement (env : Env) (origin1 origin2 : Origin) : bool :=
  let '(common, only1, only2) := comparePicks env origin1 origin2 in
  let count1 := (size only1 + size common)%nat in
  let count2 := (size only2 + size common)%nat in
  let rms1 :=
    match standardError origin1 with
    | Some e => py_max e 1
    | None => 10%Q
    end in
  let rms2 :=
    match standardError origin2 with
    | Some e => py_max e 1
    | None => 1%Q
    end in
  if Nat.eqb count1 0 then true
  else
    let q :=
      fl (float_pow env (fl (Qofnat count2 / Qofnat count1)) 2
          * fl (rms1 / rms2)) in
    Qgtb q 1.

(** *** [save]: objects received through the messaging *)

Inductive Object :=
| ObjEvent (evt : Event)
| ObjOrigin (org : Origin)
| ObjOther.

Definition save (env : Env) (app : App) (obj : Object) : App :=
  match obj with
  | ObjEvent evt =>
      if valid env evt
      then set_pendingEvents (<[ev_publicID evt := evt]>) app
      else app
  | ObjOrigin org => set_origins (<[publicID org := org]>) app
  | ObjOther => app
  end.

(** *** [readyToProcess]

    The result is the returned boolean together with the application
    object after the call ([self.origins] may have gained the origin,
    [self.pendingEvents] may have lost the event). *)

Definition origin_author (org : Origin) : string :=
  match creationInfo org with
  | Some ci => ci_author ci
  | None => "MISSING"
  end.

Definition readyToProcess (env : Env) (app : App) (eventID : string)
  : bool * App :=
  match pendingEvents app !! eventID with
  | None => (false, app)
  | Some evt =>
      let preferredOriginID := preferredOriginID evt in
      let fetched :=
        match origins app !! preferredOriginID with
        | Some org => Some (org, app)
        | None =>
            match loadOriginWithoutArrivals env preferredOriginID with
            | None => None
            | Some org =>
                Some (org, set_origins (<[preferredOriginID := org]>) app)
            end
        end in
      match fetched with
      | None => (false, app)
      | Some (org, app) =>
          let now := GMT env in
          let dt := (now - time org)%Q in
          if Qltb dt (minDelay app) then (false, app)
          else
            let ownOrigin := String.eqb (origin_author org) (author app) in
            if ownOrigin
            then (false, set_pendingEvents (delete eventID) app)
            else if negb (qualified env org)
            then (false, set_pendingEvents (delete eventID) app)
            else (true, app)
      end
  end.

(** The three verdicts of the readiness gate, read off the call: [True]
    is Ready; [False] with the event gone from [pendingEvents] is
    Rejected; [False] with the event still pending is NotReady. *)
Inductive Verdict := NotReady | Ready | Rejected.

Definition evaluate (env : Env) (app : App) (eventID : string) : Verdict :=
  let '(ready, app') := readyToProcess env app eventID in
  if ready then Ready
  else match pendingEvents app' !! eventID with
       | Some _ => NotReady
       | None => Rejected
       end.

(** *** [processEvent] *)

Inductive Attempt := direct | depth_phase_based.

(** What one run does to the outside, in order.  [ActSend] is the call
    [connection().send(msg)] of line 508, whatever it returns: what it
    returns is [connection_send] of the environment; a send that fails
    differs from one that succeeds in the line written to the log only,
    and line 513 caches the origin after either. *)
Inductive Action :=
| ActRelocate (attempt : Attempt) (input : Origin) (fixedDepth : option Q)
| ActSend (attempt : Attempt) (o : Origin)
| ActComputeDepth (eventID : string).

(** The local variables that live across the iterations of the loop
    [for attempt in ["direct", "depth phase based"]]. *)
Record Locals := {
  originWithArrivals : Origin;
  fixedDepth : option Q;
  l_relocated : option Origin;
  depthFromDepthPhases : option Q }.

Inductive Flow := Next | Break | Return.

Record Step := {
  flow : Flow;
  s_app : App;
  s_locals : Locals;
  s_trace : list Action }.

(** Lines 449-469: the four [break]s, then the adoption of the previous
    result and of the depth from depth phases. *)
Definition depthPhaseGuard (l : Locals) : option Locals :=
  match l_relocated l with
  | None => None
  | Some r =>
      match depthFromDepthPhases l with
      | None => None
      | Some d =>
          if (arrivalCount r <? 50)%nat then None
          else if Qgtb (depth r) 120 then None
          else Some {| originWithArrivals := r;
                       fixedDepth := Some d;
                       l_relocated := l_relocated l;
                       depthFromDepthPhases := depthFromDepthPhases l |}
      end
  end.

Definition stamp (env : Env) (app : App) (r : Origin) : Origin :=
  let now := GMT env in
  let ci := util_creationInfo (author app) (agencyID app) now in
  setEvaluationMode AUTOMATIC (setCreationInfo ci r).

(** The gate of lines 489-495: [true] when the origin is not to be sent. *)
Definition noImprovement (env : Env) (app : App) (eventID : string)
  (attempt : Attempt) (r : Origin) : bool :=
  match attempt with
  | direct =>
      match relocated app !! eventID with
      | Some previous => negb (improvement env previous r)
      | None => false
      end
  | depth_phase_based => false
  end.

(** One iteration of the loop (lines 446-543). *)
Definition attemptBody (env : Env) (eventID : string) (attempt : Attempt)
  (app : App) (l : Locals) : Step :=
  let entered :=
    match attempt with
    | direct => Some l
    | depth_phase_based => depthPhaseGuard l
    end in
  match entered with
  | None => {| flow := Break; s_app := app; s_locals := l; s_trace := [] |}
  | Some l =>
      let call :=
        ActRelocate attempt (originWithArrivals l) (fixedDepth l) in
      let result :=
        relocate env (originWithArrivals l) eventID (fixedDepth l)
          (minDepth app) (maxResidual app) in
      let l := {| originWithArrivals := originWithArrivals l;
                  fixedDepth := fixedDepth l;
                  l_relocated := result;
                  depthFromDepthPhases := depthFromDepthPhases l |} in
      match result with
      | None =>
          {| flow := Return; s_app := app; s_locals := l;
             s_trace := [call] |}
      | Some r0 =>
          if (arrivalCount r0 <? 5)%nat then
            {| flow := Return; s_app := app; s_locals := l;
               s_trace := [call] |}
          else
            let r := stamp env app r0 in
            let l := {| originWithArrivals := originWithArrivals l;
                        fixedDepth := fixedDepth l;
                        l_relocated := Some r;
                        depthFromDepthPhases := depthFromDepthPhases l |} in
            let app := set_origins (<[publicID r := r]>) app in
            if noImprovement env app eventID attempt r then
              {| flow := Return; s_app := app; s_locals := l;
                 s_trace := [call] |}
            else
              let sent := if test app then [] else [ActSend attempt r] in
              let app := set_relocated (<[eventID := r]>) app in
              match attempt with
              | depth_phase_based =>
                  {| flow := Break; s_app := app; s_locals := l;
                     s_trace := call :: sent |}
              | direct =>
                  let d := computeDepth env eventID in
                  {| flow := Next; s_app := app;
                     s_locals :=
                       {| originWithArrivals := originWithArrivals l;
                          fixedDepth := fixedDepth l;
                          l_relocated := l_relocated l;
                          depthFromDepthPhases := d |};
                     s_trace :=
                       (call :: sent ++ [ActComputeDepth eventID])%list |}
              end
      end
  end.

Fixpoint forAttempts (env : Env) (eventID : string)
  (attempts : list Attempt) (app : App) (l : Locals) : App * list Action :=
  match attempts with
  | [] => (app, [])
  | attempt :: rest =>
      let s := attemptBody env eventID attempt app l in
      match flow s with
      | Next =>
          let '(app', tr) :=
            forAttempts env eventID rest (s_app s) (s_locals s) in
          (app', (s_trace s ++ tr)%list)
      | Break | Return => (s_app s, s_trace s)
      end
  end.

(** [Uncaught]: an exception left the function ([origin.publicID()] on
    an origin that could not be loaded). *)
Inductive Outcome :=
| Finished (app : App) (trace : list Action)
| Uncaught (app : App) (trace : list Action).

Definition initialLocals (env : Env) (app : App) (origin : Origin)
  : Locals :=
  {| originWithArrivals := loadPicksForOrigin env origin;
     fixedDepth := directFixedDepth env app origin;
     l_relocated := None;
     depthFromDepthPhases := None |}.

Definition processEvent (env : Env) (app : App) (eventID : string)
  : Outcome :=
  match loadEvent env eventID with
  | None => Finished app []
  | Some event =>
      match loadOriginWithoutArrivals env (preferredOriginID event) with
      | None => Uncaught app []
      | Some origin =>
          let '(app', tr) :=
            forAttempts env eventID [direct; depth_phase_based] app
              (initialLocals env app origin) in
          Finished app' tr
      end
  end.

(** *** [kickOffProcessing] *)

Record Sweep := {
  sw_app : App;
  sw_processed : list string;     (* events handed to [processEvent] *)
  sw_trace : list Action;
  sw_uncaught : bool }.

Fixpoint sweep (env : Env) (eventIDs : list string) (app : App) : Sweep :=
  match eventIDs with
  | [] => {| sw_app := app; sw_processed := []; sw_trace := [];
             sw_uncaught := false |}
  | eventID :: rest =>
      let '(ready, app) := readyToProcess env app eventID in
      if ready then
        let app := set_pendingEvents (delete eventID) app in
        match processEvent env app eventID with
        | Finished app tr =>
            let s := sweep env rest app in
            {| sw_app := sw_app s;
               sw_processed := eventID :: sw_processed s;
               sw_trace := (tr ++ sw_trace s)%list;
               sw_uncaught := sw_uncaught s |}
        | Uncaught app tr =>
            {| sw_app := app; sw_processed := [eventID]; sw_trace := tr;
               sw_uncaught := true |}
        end
      else sweep env rest app
  end.

Definition kickOffProcessing (env : Env) (app : App) : Sweep :=
  sweep env
    (py_sorted String.leb (map fst (map_to_list (pendingEvents app)))) app.

(** The timer: at each tick the objects received since the last one
    have been saved and [handleTimeout] runs [kickOffProcessing]; the
    collaborators answer as the environment of the tick says.  An
    uncaught exception ends the application. *)
Fixpoint ticks (inputs : list (Env * list Object)) (app : App) : Sweep :=
  match inputs with
  | [] => {| sw_app := app; sw_processed := []; sw_trace := [];
             sw_uncaught := false |}
  | (env, received) :: rest =>
      let app := foldl (save env) app received in
      let s := kickOffProcessing env app in
      if sw_uncaught s then s
      else
        let s' := ticks rest (sw_app s) in
        {| sw_app := sw_app s';
           sw_processed := (sw_processed s ++ sw_processed s')%list;
           sw_trace := (sw_trace s ++ sw_trace s')%list;
           sw_uncaught := sw_uncaught s' |}
  end.

End Relocator.

(** ** bin/scdlpicker.repicker.py *)

(** *** Strings and paths as Python and [os.path] treat them *)

Definition startswith (s p : string) : bool := String.prefix p s.

Definition endswith (s suffix : string) : bool :=
  let n := String.length s in
  let m := String.length suffix in
  (m <=? n)%nat && String.eqb (substring (n - m) m s) suffix.

(** [s.split("/")] *)
Fixpoint split_slash (s : string) : list string :=
  match s with
  | EmptyString => [EmptyString]
  | String c s' =>
      let r := split_slash s' in
      if Ascii.eqb c "/"%char then EmptyString :: r
      else match r with
           | h :: t => String c h :: t
           | [] => [String c EmptyString]
           end
  end.

(** [l[-k]], an [IndexError] being [None] *)
Definition from_end {A} (l : list A) (k : nat) : option A :=
  if (k <=? length l)%nat then nth_error l (length l - k) else None.

(** [os.path.join(a, b)] of [posixpath] *)
Definition path_join (a b : string) : string :=
  if startswith b "/" then b
  else if String.eqb a "" || endswith a "/" then a ++ b
  else a ++ "/" ++ b.

(** the second component of [os.path.split(p)] *)
Definition path_tail (p : string) : string :=
  match from_end (split_slash p) 1 with
  | Some f => f
  | None => ""
  end.

(** the order of Python on pairs of strings *)
Definition pair_leb (x y : string * string) : bool :=
  match String.compare x.1 y.1 with
  | Lt => true
  | Eq => String.leb x.2 y.2
  | Gt => false
  end.

Module Repicker.

(** [Pick = obspy.core.AttribDict]: the keys of a YAML pick record;
    [phaseHint], [model] and [confidence] may be absent. *)
Record Pick := {
  publicID : string;
  streamID : string;
  networkCode : string;
  stationCode : string;
  locationCode : string;
  channelCode : string;
  time : string;
  phaseHint : option string;
  model : option string;
  confidence : option Q }.

Definition option_eqb {A} (eqb : A -> A -> bool) (x y : option A) : bool :=
  match x, y with
  | Some a, Some b => eqb a b
  | None, None => true
  | _, _ => false
  end.

(** [==] on two picks (dictionaries): same keys, equal values. *)
Definition pick_eqb (p q : Pick) : bool :=
  String.eqb (publicID p) (publicID q)
  && String.eqb (streamID p) (streamID q)
  && String.eqb (networkCode p) (networkCode q)
  && String.eqb (stationCode p) (stationCode q)
  && String.eqb (locationCode p) (locationCode q)
  && String.eqb (channelCode p) (channelCode q)
  && String.eqb (time p) (time q)
  && option_eqb String.eqb (phaseHint p) (phaseHint q)
  && option_eqb String.eqb (model p) (model q)
  && option_eqb Qeq_bool (confidence p) (confidence q).

Record EventWorkspaceContainer := {
  picks : gmap string Pick;
  mlpicks : gmap string Pick }.

(** [minConfidence] is the float the command line gives (0.3 by
    default); the [None] of the constructor's own default, with which
    the comparison of line 307 raises [TypeError], is not modelled. *)
Record Repicker := {
  model_name : string;
  test : bool;
  workingDir : string;
  eventRootDir : string;
  spoolDir : string;
  minConfidence : Q;
  workspaces : gmap string EventWorkspaceContainer }.

Definition set_workspaces
  (f : gmap string EventWorkspaceContainer ->
       gmap string EventWorkspaceContainer) (rp : Repicker) : Repicker :=
  {| model_name := model_name rp; test := test rp;
     workingDir := workingDir rp; eventRootDir := eventRootDir rp;
     spoolDir := spoolDir rp; minConfidence := minConfidence rp;
     workspaces := f (workspaces rp) |}.

(** What [_ml_predict] hands back: the dictionary [pickID -> [(time,
    confidence)]] in insertion order, or an exception; [RuntimeError] is
    the one [_poll] catches. *)
Inductive Prediction :=
| Predictions (d : list (string * list (Q * Q)))
| RaiseRuntimeError
| RaiseOther.

(** The picker network with the waveform files behind it, and the two
    calls into [obspy.UTCDateTime], which are taken to succeed on the
    time strings of the pick files. *)
Record Env := {
  ml_predict : list Pick -> string -> Prediction;
  UTCDateTime : string -> Q;
  isoformat : Q -> string }.

(** [float("%.3f" % c)]: to the nearest thousandth, ties to even. *)
Definition round3 (c : Q) : Q :=
  let x := (c * 1000)%Q in
  let f := Qfloor x in
  let r := (x - inject_Z f)%Q in
  let n :=
    if Qltb r (1 # 2) then f
    else if Qltb (1 # 2) r then (f + 1)%Z
    else if Z.even f then f else (f + 1)%Z in
  (n # 1000)%Q.

(** *** [_process] *)

Inductive Result :=
| Returned (new_picks : list Pick)
| RuntimeError
| Crashed.

Record Processed := {
  p_repicker : Repicker;
  p_submitted : list (list Pick);   (* the calls of [_ml_predict] *)
  p_result : Result }.

(** Lines 249-263: the picks not seen before for this event. *)
Definition newAdhocPicks (seen : gmap string Pick) (adhoc_picks : list Pick)
  : gmap string Pick * list Pick :=
  foldl
    (fun (st : gmap string Pick * list Pick) (pick : Pick) =>
       let pick_id := publicID pick in
       match st.1 !! pick_id with
       | Some _ => st
       | None => (<[pick_id := pick]> st.1, (st.2 ++ [pick])%list)
       end)
    (seen, []) adhoc_picks.

Definition repick (env : Env) (rp : Repicker) (old_pick : Pick)
  (ml_time ml_conf : Q) : Pick :=
  let ml_timestamp :=
    substring 0 23 (isoformat env ml_time ++ "000000") ++ "Z" in
  {| publicID := publicID old_pick ++ "/repick";
     streamID := streamID old_pick;
     networkCode := networkCode old_pick;
     stationCode := stationCode old_pick;
     locationCode := locationCode old_pick;
     channelCode := channelCode old_pick;
     time := ml_timestamp;
     phaseHint := phaseHint old_pick;
     model := Some (model_name rp);
     confidence := Some (round3 ml_conf) |}.

(** Lines 292-327; [None] is the [AssertionError]. *)
Fixpoint forPreds (env : Env) (rp : Repicker) (pick_id : string)
  (triggering_pick : Pick) (preds : list (Q * Q))
  (ml : gmap string Pick) (new_picks : list Pick)
  : option (gmap string Pick * list Pick) :=
  match preds with
  | [] => Some (ml, new_picks)
  | (ml_time, ml_conf) :: rest =>
      let dt_max := 10%Q in
      let dt := Qabs (ml_time - UTCDateTime env (time triggering_pick)) in
      if Qgtb (Qabs dt) dt_max then
        forPreds env rp pick_id triggering_pick rest ml new_picks
      else if Qltb ml_conf (minConfidence rp) then
        forPreds env rp pick_id triggering_pick rest ml new_picks
      else
        let new_pick := repick env rp triggering_pick ml_time ml_conf in
        let ml := <[pick_id := new_pick]> ml in
        if existsb (pick_eqb new_pick) new_picks then None
        else forPreds env rp pick_id triggering_pick rest ml
               (new_picks ++ [new_pick])%list
  end.

(** Lines 284-327; [None] is a [KeyError] or the [AssertionError]. *)
Fixpoint forPredictions (env : Env) (rp : Repicker)
  (seen : gmap string Pick) (predictions : list (string * list (Q * Q)))
  (ml : gmap string Pick) (new_picks : list Pick)
  : option (gmap string Pick * list Pick) :=
  match predictions with
  | [] => Some (ml, new_picks)
  | (pick_id, preds) :: rest =>
      match seen !! pick_id with
      | None => None
      | Some triggering_pick =>
          match forPreds env rp pick_id triggering_pick preds ml new_picks
          with
          | None => None
          | Some (ml, new_picks) =>
              forPredictions env rp seen rest ml new_picks
          end
      end
  end.

Definition process (env : Env) (rp : Repicker) (adhoc_picks : list Pick)
  (eventID : string) : Processed :=
  let workspace :=
    match workspaces rp !! eventID with
    | Some w => w
    | None => {| picks := ∅; mlpicks := ∅ |}
    end in
  let '(seen, new_adhoc_picks) :=
    newAdhocPicks (picks workspace) adhoc_picks in
  let store (ml : gmap string Pick) : Repicker :=
    set_workspaces
      (<[eventID := {| picks := seen; mlpicks := ml |}]>) rp in
  match new_adhoc_picks with
  | [] => {| p_repicker := store (mlpicks workspace); p_submitted := [];
             p_result := Returned [] |}
  | _ :: _ =>
      match ml_predict env new_adhoc_picks eventID with
      | RaiseRuntimeError =>
          {| p_repicker := store (mlpicks workspace);
             p_submitted := [new_adhoc_picks];
             p_result := RuntimeError |}
      | RaiseOther =>
          {| p_repicker := store (mlpicks workspace);
             p_submitted := [new_adhoc_picks];
             p_result := Crashed |}
      | Predictions [] =>
          {| p_repicker := store (mlpicks workspace);
             p_submitted := [new_adhoc_picks];
             p_result := Returned [] |}
      | Predictions predictions =>
          match forPredictions env rp seen predictions
                  (mlpicks workspace) [] with
          | None =>
              {| p_repicker := store (mlpicks workspace);
                 p_submitted := [new_adhoc_picks];
                 p_result := Crashed |}
          | Some (ml, new_picks) =>
              {| p_repicker := store ml;
                 p_submitted := [new_adhoc_picks];
                 p_result := Returned new_picks |}
          end
      end
  end.

(** *** The file system the mailbox lives in

    [spool] holds the entries of [spoolDir] by name, [files] the YAML
    files that exist, by path, with the pick records they hold, and
    [outgoing] the links made in the outgoing directory, by path.  The
    spool directory and the outgoing directory are taken to be two
    directories, as in the default layout.  This is the mailbox and no
    more: the directories [_poll] and [_ml_predict] make, and the
    annotation files ([.sac]) that [_ml_predict] writes below the event
    directory for every item it works on, in test mode too, have no
    place in it. *)

Inductive DirEntry :=
| Symlink (target : string)
| RegularFile.

Record FS := {
  spool : gmap string DirEntry;
  files : gmap string (list Pick);
  outgoing : gmap string string }.

Definition os_remove (rp : Repicker) (fs : FS) (link : string) : FS :=
  {| spool :=
       filter (fun kv : string * DirEntry =>
                 path_join (spoolDir rp) kv.1 ≠ link) (spool fs);
     files := files fs;
     outgoing := outgoing fs |}.

Definition os_symlink (fs : FS) (src dst : string) : FS :=
  match outgoing fs !! dst with
  | Some _ => fs                                  (* [FileExistsError] *)
  | None => {| spool := spool fs; files := files fs;
               outgoing := <[dst := src]> (outgoing fs) |}
  end.

Definition writePicksToYaml (fs : FS) (picks : list Pick)
  (yamlfilename : string) : FS :=
  {| spool := spool fs;
     files := <[yamlfilename := picks]> (files fs);
     outgoing := outgoing fs |}.

Definition readPicksFromYaml (records : list Pick) : list Pick :=
  (foldl
     (fun (st : list string * list Pick) (p : Pick) =>
        let streamID := streamID p in
        if existsb (String.eqb streamID) st.1 then st
        else
          let pick :=
            match phaseHint p with
            | Some _ => p
            | None =>
                {| publicID := publicID p; streamID := streamID;
                   networkCode := networkCode p;
                   stationCode := stationCode p;
                   locationCode := locationCode p;
                   channelCode := channelCode p; time := time p;
                   phaseHint := Some "P"; model := model p;
                   confidence := confidence p |}
            end in
          ((st.1 ++ [streamID])%list, (st.2 ++ [pick])%list))
     ([], []) records).2.

Definition findSpoolItems (rp : Repicker) (fs : FS)
  : list (string * string) :=
  let d := spoolDir rp in
  let filenames :=
    List.filter (fun i => endswith i ".yaml")
      (map fst (map_to_list (spool fs))) in
  foldl
    (fun (items : list (string * string)) (filename : string) =>
       let path := path_join d filename in
       match spool fs !! filename with
       | Some (Symlink target) =>
           let target := path_join d target in
           match files fs !! target with
           | None => items
           | Some _ => (items ++ [(path, target)])%list
           end
       | _ => items
       end)
    [] (py_sorted String.leb filenames).

(** *** [_poll] *)

Record Polled := {
  ps_repicker : Repicker;
  ps_fs : FS;
  ps_delivered : list (string * string);  (* items given to [_process] *)
  ps_crashed : bool }.

Definition delivered (item : string * string) (s : Polled) : Polled :=
  {| ps_repicker := ps_repicker s; ps_fs := ps_fs s;
     ps_delivered := item :: ps_delivered s;
     ps_crashed := ps_crashed s |}.

(** Lines 429-451: the results go to the event's [out] directory and a
    link to them to the outgoing directory. *)
Definition handOff (rp : Repicker) (fs : FS) (eventID link : string)
  (new_picks : list Pick) : FS :=
  let eventDir := path_join (eventRootDir rp) eventID in
  let out_d := path_join eventDir "out" in
  let outgoing_d := path_join (workingDir rp) "outgoing" in
  let f := path_tail link in
  let yamlfilename := path_join out_d f in
  let fs := writePicksToYaml fs new_picks yamlfilename in
  let dst := path_join outgoing_d f in
  let src :=
    path_join
      (path_join (path_join (path_join ".." (eventRootDir rp)) eventID)
         "out") f in
  os_symlink fs src dst.

Fixpoint pollItems (env : Env) (reverse : bool)
  (items : list (string * string)) (rp : Repicker) (fs : FS) : Polled :=
  match items with
  | [] => {| ps_repicker := rp; ps_fs := fs; ps_delivered := [];
             ps_crashed := false |}
  | (link, target) :: rest =>
      let crash (rp : Repicker) (handed : list (string * string)) :=
        {| ps_repicker := rp; ps_fs := fs; ps_delivered := handed;
           ps_crashed := true |} in
      match files fs !! target with
      | None => crash rp []
      | Some records =>
          let adhoc_picks := readPicksFromYaml records in
          if negb (endswith target ".yaml") then crash rp []
          else
            match from_end (split_slash target) 3 with
            | None => crash rp []
            | Some eventID =>
                let pr := process env rp adhoc_picks eventID in
                let rp := p_repicker pr in
                match p_result pr with
                | Crashed => crash rp [(link, target)]
                | RuntimeError =>
                    delivered (link, target)
                      (pollItems env reverse rest rp fs)
                | Returned [] =>
                    delivered (link, target)
                      (pollItems env reverse rest rp
                         (os_remove rp fs link))
                | Returned new_picks =>
                    if test rp then
                      delivered (link, target)
                        (pollItems env reverse rest rp fs)
                    else
                      let fs := handOff rp fs eventID link new_picks in
                      let fs := os_remove rp fs link in
                      if reverse then
                        {| ps_repicker := rp; ps_fs := fs;
                           ps_delivered := [(link, target)];
                           ps_crashed := false |}
                      else
                        delivered (link, target)
                          (pollItems env reverse rest rp fs)
                end
            end
      end
  end.

Definition poll (env : Env) (reverse : bool) (rp : Repicker) (fs : FS)
  : Polled :=
  let spooled := findSpoolItems rp fs in
  let order :=
    if reverse then (fun x y => pair_leb y x) else pair_leb in
  pollItems env reverse (py_sorted order spooled) rp fs.

(** [run]: one [_poll()] per wake; between two wakes other processes
    change the file system ([externals], one change per wake).  A crash
    ends the run. *)
Fixpoint run (env : Env) (externals : list (FS -> FS)) (rp : Repicker)
  (fs : FS) : Polled :=
  match externals with
  | [] => {| ps_repicker := rp; ps_fs := fs; ps_delivered := [];
             ps_crashed := false |}
  | external :: rest =>
      let s := poll env true rp (external fs) in
      if ps_crashed s then s
      else
        let s' := run env rest (ps_repicker s) (ps_fs s) in
        {| ps_repicker := ps_repicker s'; ps_fs := ps_fs s';
           ps_delivered := (ps_delivered s ++ ps_delivered s')%list;
           ps_crashed := ps_crashed s' |}
  end.

(** *** [_get_stream_from_picks]

    The waveform files of the event directories: which paths exist, and
    what [obspy.core.stream.read] makes of one.  Where it gives a
    stream, [merge] on that stream raises or not, and the merged stream
    has a first trace of some length or no trace, so that [t[0]] raises
    [IndexError].  A stream is the list of the files its traces were
    read from. *)

Inductive MergeResult :=
| MergeRaises
| MergedTo (first_trace_len : option Q).

Inductive ReadResult :=
| Traces (merge : MergeResult)
| ToleratedError   (* TypeError, ValueError, InternalMSEEDError,
                      ObsPyMSEEDFilesizeTooSmallError *)
| UnknownError.    (* any other Exception *)

Record Waveforms := {
  path_exists : string -> bool;
  stream_read : string -> ReadResult }.

Definition Stream := list string.

(** [not f] for a path or [None] *)
Definition py_not (f : option string) : bool :=
  match f with
  | None => true
  | Some s => String.eqb s ""
  end.

Definition none {A} (x : option A) : bool :=
  match x with
  | None => true
  | Some _ => false
  end.

Definition nslc (pick : Pick) : string :=
  networkCode pick ++ "." ++ stationCode pick ++ "."
  ++ locationCode pick ++ "." ++ substring 0 2 (channelCode pick).

Definition waveforms_d (rp : Repicker) (eventID : string) : string :=
  path_join (path_join (eventRootDir rp) eventID) "waveforms".

(** The first of the components whose file exists, [None] without one. *)
Definition first_existing (w : Waveforms) (rp : Repicker)
  (eventID : string) (pick : Pick) (components : list string)
  : option string :=
  List.find (path_exists w)
    (map (fun component =>
            path_join (waveforms_d rp eventID)
              ((nslc pick ++ component) ++ ".mseed"))
       components).

(** Lines 189-203: the three reads in turn; [None] is the [continue] of
    the tolerated exceptions, an unknown exception leaves what was not
    read yet at [None]. *)
Definition readThree (w : Waveforms) (fileZ fileN fileE : string)
  : option (option MergeResult * option MergeResult * option MergeResult) :=
  match stream_read w fileZ with
  | ToleratedError => None
  | UnknownError => Some (None, None, None)
  | Traces streamZ =>
      match stream_read w fileN with
      | ToleratedError => None
      | UnknownError => Some (Some streamZ, None, None)
      | Traces streamN =>
          match stream_read w fileE with
          | ToleratedError => None
          | UnknownError => Some (Some streamZ, Some streamN, None)
          | Traces streamE =>
              Some (Some streamZ, Some streamN, Some streamE)
          end
      end
  end.

(** Lines 211-212: [merge] on [streamZ], [streamE], [streamN] in this
    order; [None] when one of them raises, and for [None.merge], an
    [AttributeError]. *)
Definition mergeThree (streamZ streamE streamN : option MergeResult)
  : option (option Q * option Q * option Q) :=
  match streamZ, streamE, streamN with
  | Some (MergedTo lenZ), Some (MergedTo lenE), Some (MergedTo lenN) =>
      Some (lenZ, lenE, lenN)
  | _, _, _ => None
  end.

(** Lines 217-225, the loop over [(streamZ, streamE, streamN)] with its
    [break]: [None] is the [IndexError] of [t[0]], [Some false] the
    [break] at a trace that is too short, [Some true] the [else] of the
    loop. *)
Fixpoint longEnough (expected_input_length_sec : Q)
  (streams : list (option Q)) : option bool :=
  match streams with
  | [] => Some true
  | None :: _ => None
  | Some trace_len :: rest =>
      if Qltb trace_len expected_input_length_sec then Some false
      else longEnough expected_input_length_sec rest
  end.

(** Lines 138-229, one turn of the loop over the picks; [None] is an
    exception that leaves the function. *)
Definition collect (w : Waveforms) (expected_input_length_sec : Q)
  (rp : Repicker) (eventID : string)
  (st : option Stream * list Pick) (pick : Pick)
  : option (option Stream * list Pick) :=
  let fileZ := first_existing w rp eventID pick ["Z"] in
  let fileN := first_existing w rp eventID pick ["N"; "1"] in
  let fileE := first_existing w rp eventID pick ["E"; "2"] in
  if py_not fileZ && py_not fileN && py_not fileE then Some st
  else if py_not fileZ || py_not fileN || py_not fileE then Some st
  else
    match fileZ, fileN, fileE with
    | Some z, Some n, Some e =>
        match readThree w z n e with
        | None => Some st
        | Some (streamZ, streamN, streamE) =>
            if none streamZ || none streamE || none streamE then Some st
            else
              match mergeThree streamZ streamE streamN with
              | None => None
              | Some (lenZ, lenE, lenN) =>
                  let stream :=
                    match st.1 with
                    | Some (t :: ts) => t :: ts
                    | _ => []
                    end in
                  match longEnough expected_input_length_sec
                          [lenZ; lenE; lenN] with
                  | None => None
                  | Some false => Some (Some stream, st.2)
                  | Some true =>
                      Some (Some (stream ++ [z; n; e])%list,
                            (st.2 ++ [pick])%list)
                  end
              end
        end
    | _, _, _ => Some st
    end.

Fixpoint collectAll (w : Waveforms) (expected_input_length_sec : Q)
  (rp : Repicker) (eventID : string) (picks : list Pick)
  (st : option Stream * list Pick)
  : option (option Stream * list Pick) :=
  match picks with
  | [] => Some st
  | pick :: rest =>
      match collect w expected_input_length_sec rp eventID st pick with
      | None => None
      | Some st =>
          collectAll w expected_input_length_sec rp eventID rest st
      end
  end.

Definition get_stream_from_picks (w : Waveforms)
  (expected_input_length_sec : Q) (rp : Repicker) (picks : list Pick)
  (eventID : string) : option (option Stream * list Pick) :=
  collectAll w expected_input_length_sec rp eventID picks (None, []).

(** *** [_ml_predict]

    The picker network: [annotate] gives the annotations of a stream or
    raises; what is done with one annotation between its association and
    the loop over its peaks (writing it, [find_peaks] above 0.1) gives
    the peaks [(time, confidence)] or raises. *)

Inductive Raised :=
| CaughtError    (* TypeError, ValueError, ZeroDivisionError *)
| RuntimeErr     (* RuntimeError *)
| OtherError.

Inductive Measured :=
| Peaks (peaks : list (Q * Q))
| Raises (e : Raised).

Record Annotation := {
  a_id : string;
  a_network : string;
  a_station : string;
  a_location : string;
  a_measured : Measured }.

Inductive Annotated :=
| Annotations (annotations : list Annotation)
| AnnotateRaises (e : Raised).

Record Model := {
  annotate : Stream -> Annotated;
  expected_input_length_sec : Q }.

(** [s.split(sep)] for a separator of one character *)
Fixpoint split_on (sep : ascii) (s : string) : list string :=
  match s with
  | EmptyString => [EmptyString]
  | String c s' =>
      let r := split_on sep s' in
      if Ascii.eqb c sep then EmptyString :: r
      else match r with
           | h :: t => String c h :: t
           | [] => [String c EmptyString]
           end
  end.

(** [a.id.split('.')[-1].endswith('_P')] *)
Definition is_P (a : Annotation) : bool :=
  match from_end (split_on "."%char (a_id a)) 1 with
  | Some last => endswith last "_P"
  | None => false
  end.

Definition Dict := list (string * list (Q * Q)).

(** [if k not in d: d[k] = []] and [d[k].append(v)] on a dictionary in
    insertion order *)
Fixpoint dict_append (d : Dict) (k : string) (v : Q * Q) : Dict :=
  match d with
  | [] => [(k, [v])]
  | (k', vs) :: rest =>
      if String.eqb k' k then (k', (vs ++ [v])%list) :: rest
      else (k', vs) :: dict_append rest k v
  end.

(** [l.remove(pick)], [None] being the [ValueError] *)
Fixpoint list_remove (pick : Pick) (l : list Pick) : option (list Pick) :=
  match l with
  | [] => None
  | x :: rest =>
      if pick_eqb x pick then Some rest
      else option_map (cons x) (list_remove pick rest)
  end.

(** What an exception inside the [try] of [fill_result] comes to: the
    caught ones end [fill_result], the others leave [_ml_predict]. *)
Definition raised (e : Raised) (predictions : Dict) : Prediction :=
  match e with
  | CaughtError => Predictions predictions
  | RuntimeErr => RaiseRuntimeError
  | OtherError => RaiseOther
  end.

(** Lines 501-541 *)
Fixpoint forAnnotations (annotations : list Annotation)
  (predictions : Dict) (collected_picks : list Pick) : Prediction :=
  match annotations with
  | [] => Predictions predictions
  | annotation :: rest =>
      match List.find
              (fun p =>
                 String.eqb (networkCode p) (a_network annotation)
                 && String.eqb (stationCode p) (a_station annotation)
                 && String.eqb (locationCode p) (a_location annotation))
              collected_picks with
      | None => forAnnotations rest predictions collected_picks
      | Some pick =>
          match a_measured annotation with
          | Raises e => raised e predictions
          | Peaks peaks =>
              let predictions :=
                foldl (fun d new_item =>
                         dict_append d (publicID pick) new_item)
                  predictions peaks in
              match list_remove pick collected_picks with
              | None => raised CaughtError predictions
              | Some collected_picks =>
                  forAnnotations rest predictions collected_picks
              end
          end
      end
  end.

(** Lines 485-565; what follows the [try] only writes to the log.  The
    annotation file written at line 533 is part of what [a_measured]
    answers for; the file itself is not recorded. *)
Definition fill_result (m : Model) (predictions : Dict) (stream : Stream)
  (collected_picks : list Pick) : Prediction :=
  match annotate m stream with
  | AnnotateRaises e => raised e predictions
  | Annotations annotations =>
      forAnnotations (List.filter is_P annotations) predictions
        collected_picks
  end.

(** [l[start:stop]] of Python, negative indices counted from the end
    and both clipped to the list. *)
Definition py_slice {A} (l : list A) (start stop : Z) : list A :=
  let n := Z.of_nat (length l) in
  let adjust (i : Z) :=
    if (i <? 0)%Z then Z.max (i + n) 0 else Z.min i n in
  firstn (Z.to_nat (adjust stop - adjust start))
    (skipn (Z.to_nat (adjust start)) l).

(** Lines 578-595, the body of the batch loop: any exception of
    [_get_stream_from_picks] is taken as no stream. *)
Definition predictBatch (w : Waveforms) (m : Model) (rp : Repicker)
  (eventID : string) (picks_batch : list Pick) (acc_predictions : Dict)
  : Prediction :=
  match get_stream_from_picks w (expected_input_length_sec m) rp
          picks_batch eventID with
  | Some (Some stream, collected_picks) =>
      fill_result m acc_predictions stream collected_picks
  | _ => Predictions acc_predictions
  end.

(** Lines 576-603: the [while] loop has [fuel] turns at most, [None]
    when they do not suffice. *)
Fixpoint batchLoop (body : list Pick -> Dict -> Prediction) (fuel : nat)
  (batchSize : Z) (adhoc_picks : list Pick) (acc_predictions : Dict)
  (picks_remain_size start_index end_index : Z) : option Prediction :=
  if (picks_remain_size >? 0)%Z then
    match fuel with
    | O => None
    | S fuel =>
        let picks_batch := py_slice adhoc_picks start_index end_index in
        match body picks_batch acc_predictions with
        | Predictions acc_predictions =>
            let picks_remain_size := (picks_remain_size - batchSize)%Z in
            let start_index := (start_index + batchSize)%Z in
            let end_index :=
              Z.min (start_index + batchSize)
                (start_index + picks_remain_size) in
            batchLoop body fuel batchSize adhoc_picks acc_predictions
              picks_remain_size start_index end_index
        | exception => Some exception
        end
    end
  else Some (Predictions acc_predictions).

(** [_ml_predict] with [self.batchSize = batchSize] *)
Definition mlPredict (w : Waveforms) (m : Model) (rp : Repicker)
  (fuel : nat) (batchSize : Z) (adhoc_picks : list Pick)
  (eventID : string) : option Prediction :=
  let picks_all_size := Z.of_nat (length adhoc_picks) in
  batchLoop (predictBatch w m rp eventID) fuel batchSize adhoc_picks []
    picks_all_size 0 (Z.min batchSize picks_all_size).

End Repicker.

(** * The vocabulary of the statements *)

Module RelocatorSpec.
Import Relocator.


Definition common (env : Env) (o1 o2 : Origin) : gmap string Pick :=
  (comparePicks env o1 o2).1.1.
Definition onlyPrevious (env : Env) (o1 o2 : Origin) : gmap string Pick :=
  (comparePicks env o1 o2).1.2.
Definition onlyCandidate (env : Env) (o1 o2 : Origin) : gmap string Pick :=
  (comparePicks env o1 o2).2.

Definition count1 (env : Env) (o1 o2 : Origin) : nat :=
  size (onlyPrevious env o1 o2) + size (common env o1 o2).
Definition count2 (env : Env) (o1 o2 : Origin) : nat :=
  size (onlyCandidate env o1 o2) + size (common env o1 o2).

Definition rms1 (previous : Origin) : Q :=
  match standardError previous with
  | Some e => Qmax e 1
  | None => 10
  end.
Definition rms2 (candidate : Origin) : Q :=
  match standardError candidate with
  | Some e => Qmax e 1
  | None => 1
  end.

(** The score as the specification writes it, in exact arithmetic. *)
Definition score (env : Env) (o1 o2 : Origin) : Q :=
  ((Qofnat (count2 env o1 o2) / Qofnat (count1 env o1 o2)) ^ 2
   * (rms1 o1 / rms2 o2))%Q.

(** The score in double precision: the quotient of the counts, its
    square, the quotient of the standard errors and the product are each
    rounded to the nearest double. *)
Definition score64 (env : Env) (o1 o2 : Origin) : Q :=
  fl (float_pow env
        (fl (Qofnat (count2 env o1 o2) / Qofnat (count1 env o1 o2))) 2
      * fl (rms1 o1 / rms2 o2)).


(** The improvement test as the specification words it: true when
    [count1 = 0], and otherwise exactly when the score is above 1. *)
Definition improves_as_claimed (env : Env) (previous candidate : Origin)
  : Prop :=
  improvement env previous candidate = true <->
  count1 env previous candidate = 0
  \/ (1 < score env previous candidate)%Q.

(** The fixed-depth directive as the specification words it: region
    override, else trusted manual depth, else default-depth passthrough,
    else free. *)
Definition claimedFixedDepth (env : Env) (app : App) (origin : Origin)
  : option Q :=
  match getFixedDepth origin with
  | Some d => Some d
  | None =>
      if String.eqb (util_agencyID env origin) (agencyID app)
         && String.eqb (statusFlag env origin) "M"
      then Some (depth origin)
      else if Qeq_bool (depth origin) 10 then Some 10%Q
      else None
  end.

(** The origin the readiness gate looks at: the cached one, else the one
    the data base hands out. *)
Definition preferredOrigin (env : Env) (app : App) (evt : Event)
  : option Origin :=
  match origins app !! preferredOriginID evt with
  | Some org => Some org
  | None => loadOriginWithoutArrivals env (preferredOriginID evt)
  end.

Definition elapsed (env : Env) (org : Origin) : Q := (GMT env - time org)%Q.

Definition fails_checks (env : Env) (app : App) (org : Origin) : Prop :=
  origin_author org = author app \/ qualified env org = false.

(** Rejection as the specification words it, whatever the age of the
    origin. *)
Definition rejected_as_claimed (env : Env) (app : App) (eventID : string)
  : Prop :=
  forall evt org,
    pendingEvents app !! eventID = Some evt ->
    preferredOrigin env app evt = Some org ->
    fails_checks env app org ->
    evaluate env app eventID = Rejected.

(** The origins a trace sends, in order, and the last of them. *)
Definition sentIn (tr : list Action) : list Origin :=
  omap (fun a => match a with ActSend _ o => Some o | _ => None end) tr.

(** Those of them that the messaging took. *)
Definition published (env : Env) (tr : list Action) : list Origin :=
  List.filter (connection_send env) (sentIn tr).

Definition lastSent (tr : list Action) : option Origin := last (sentIn tr).

(** The cached relocation of the event after the sends of [pre]: the last
    origin sent, else what was cached before the run. *)
Definition baselineAt (app : App) (eventID : string) (pre : list Action)
  : option Origin :=
  match lastSent pre with
  | Some o => Some o
  | None => relocated app !! eventID
  end.

(** Publication as the specification words it: nothing is sent unless
    nothing is cached or the candidate improves on what is cached. *)
Definition gated_as_claimed (env : Env) (app : App) (eventID : string)
  : Prop :=
  forall app' tr pre attempt o post,
    processEvent env app eventID = Finished app' tr ->
    tr = (pre ++ ActSend attempt o :: post)%list ->
    baselineAt app eventID pre = None
    \/ exists previous, baselineAt app eventID pre = Some previous
                        /\ improvement env previous o = true.

(** The first iteration of the loop of [processEvent]. *)
Definition directStep (env : Env) (app : App) (eventID : string)
  (origin : Origin) : Step :=
  attemptBody env eventID direct app (initialLocals env app origin).

(** The depth phase is entered when the locator is called for it. *)
Definition entersDepthPhase (tr : list Action) : bool :=
  existsb (fun a => match a with
                    | ActRelocate depth_phase_based _ _ => true
                    | _ => false
                    end) tr.

(** The origin carries a depth that is trusted: fixed, of the own agency,
    manual. *)
Definition trusted (env : Env) (app : App) (origin : Origin) : Prop :=
  hasFixedDepth env origin = true
  /\ util_agencyID env origin = agencyID app
  /\ statusFlag env origin = "M".

(** The application object once the origin is in the cache. *)
Definition cachedApp (app : App) (evt : Event) (org : Origin) : App :=
  match origins app !! preferredOriginID evt with
  | Some _ => app
  | None => set_origins (<[preferredOriginID evt := org]>) app
  end.

(** Nothing received since names the event. *)
Definition not_renotified (eventID : string) (received : list Object)
  : Prop :=
  forall evt, In (ObjEvent evt) received -> ev_publicID evt <> eventID.

(** What one iteration does to the cache and to the trace: either it
    sends nothing, and outside test mode the cache is as before; or it
    sends one origin, for its own attempt, past the gate, and that origin
    is the cached one afterwards. *)
Inductive StepSends (env : Env) (eventID : string) (attempt : Attempt)
  (app : App) (s : Step) : Prop :=
| sends_nothing :
    sentIn (s_trace s) = [] ->
    (test app = false -> relocated (s_app s) = relocated app) ->
    StepSends env eventID attempt app s
| sends_one (o : Origin) :
    test app = false ->
    sentIn (s_trace s) = [o] ->
    (forall a o', In (ActSend a o') (s_trace s) -> a = attempt /\ o' = o) ->
    noImprovement env app eventID attempt o = false ->
    relocated (s_app s) = <[eventID := o]> (relocated app) ->
    StepSends env eventID attempt app s.

(** The configuration of the application object, and the object with
    another test option. *)
Definition settings (app : App) : string * string * Q * Q * Q * bool :=
  (author app, agencyID app, minDelay app, minDepth app, maxResidual app,
   test app).

Definition withTest (b : bool) (app : App) : App :=
  {| author := author app; agencyID := agencyID app;
     minDelay := minDelay app; minDepth := minDepth app;
     maxResidual := maxResidual app; test := b;
     pendingEvents := pendingEvents app; origins := origins app;
     relocated := relocated app |}.

Definition notSend (a : Action) : bool :=
  match a with ActSend _ _ => false | _ => true end.

Definition isRelocate (a : Action) : bool :=
  match a with ActRelocate _ _ _ => true | _ => false end.

End RelocatorSpec.

Module RepickerSpec.
Import Repicker.

(** The picks seen so far for an event: [workspaces[eventID].picks]. *)
Definition seenFor (rp : Repicker) (eventID : string) : gmap string Pick :=
  match workspaces rp !! eventID with
  | Some w => picks w
  | None => ∅
  end.

(** The picks given to [_ml_predict] for [eventID] over a sequence of
    calls of [_process] on one repicker; a crash ends the sequence. *)
Fixpoint submissions (env : Env) (rp : Repicker)
  (calls : list (list Pick * string)) (eventID : string) : list Pick :=
  match calls with
  | [] => []
  | (adhoc_picks, ev) :: rest =>
      let pr := process env rp adhoc_picks ev in
      let here :=
        if String.eqb ev eventID then concat (p_submitted pr) else [] in
      match p_result pr with
      | Crashed => here
      | _ => (here ++ submissions env (p_repicker pr) rest eventID)%list
      end
  end.

(** A link is in the spool directory. *)
Definition linkPresent (rp : Repicker) (fs : FS) (link : string) : Prop :=
  exists name, is_Some (spool fs !! name)
               /\ path_join (spoolDir rp) name = link.

(** An outside change of the file system that does not deposit [link]. *)
Definition no_redeposit (rp : Repicker) (link : string) (f : FS -> FS)
  : Prop :=
  forall fs, ~ linkPresent rp fs link -> ~ linkPresent rp (f fs) link.

(** Redelivery as the specification words it: without a crash, no item
    is given to [_process] at two wakes. *)
Definition no_redelivery_without_crash (env : Env) (rp : Repicker)
  (fs : FS) : Prop :=
  let first := poll env true rp fs in
  let second := poll env true (ps_repicker first) (ps_fs first) in
  ps_crashed first = false ->
  ps_crashed second = false ->
  forall item, In item (ps_delivered first) ->
               ~ In item (ps_delivered second).

(** The [publicID]s of a list of picks, and one turn of the loop of
    lines 250-263. *)
Definition ids (l : list Pick) : list string := map publicID l.

Definition newStep (st : gmap string Pick * list Pick) (pick : Pick)
  : gmap string Pick * list Pick :=
  match st.1 !! publicID pick with
  | Some _ => st
  | None => (<[publicID pick := pick]> st.1, (st.2 ++ [pick])%list)
  end.

(** The invariant of the loop of lines 250-263, relative to the picks
    [seen] before the call. *)
Definition Inv (seen : gmap string Pick)
  (st : gmap string Pick * list Pick) : Prop :=
  (forall id, is_Some (st.1 !! id) <->
              is_Some (seen !! id) \/ In id (ids st.2))
  /\ NoDup (ids st.2)
  /\ (forall id, In id (ids st.2) -> seen !! id = None).

(** A pick with the phase hint ["P"] when it has none. *)
Definition withHint (p : Pick) : Pick :=
  match phaseHint p with
  | Some _ => p
  | None =>
      {| publicID := publicID p; streamID := streamID p;
         networkCode := networkCode p; stationCode := stationCode p;
         locationCode := locationCode p; channelCode := channelCode p;
         time := time p; phaseHint := Some "P"; model := model p;
         confidence := confidence p |}
  end.

(** One turn of the loop of [_readPicksFromYaml]. *)
Definition readStep (st : list string * list Pick) (p : Pick)
  : list string * list Pick :=
  if existsb (String.eqb (streamID p)) st.1 then st
  else ((st.1 ++ [streamID p])%list, (st.2 ++ [withHint p])%list).

(** The records whose stream is neither in [seen] nor earlier in the
    list, each with its phase hint. *)
Fixpoint firstOfStream (seen : list string) (records : list Pick)
  : list Pick :=
  match records with
  | [] => []
  | p :: rest =>
      if existsb (String.eqb (streamID p)) seen
      then firstOfStream seen rest
      else withHint p :: firstOfStream (seen ++ [streamID p])%list rest
  end.

(** What [_findSpoolItems] makes of one name of the spool directory. *)
Definition spoolItem (rp : Repicker) (fs : FS) (name : string)
  : option (string * string) :=
  match spool fs !! name with
  | Some (Symlink target) =>
      match files fs !! path_join (spoolDir rp) target with
      | Some _ =>
          Some (path_join (spoolDir rp) name,
                path_join (spoolDir rp) target)
      | None => None
      end
  | _ => None
  end.

Definition spoolNames (fs : FS) : list string :=
  py_sorted String.leb
    (List.filter (fun i => endswith i ".yaml")
       (map fst (map_to_list (spool fs)))).

(** A peak is accepted: within 10 s of the triggering pick, with the
    minimum confidence at least. *)
Definition accepted (env : Env) (rp : Repicker) (triggering_pick : Pick)
  (peak : Q * Q) : bool :=
  negb (Qgtb (Qabs (Qabs (peak.1 - UTCDateTime env (time triggering_pick))))
          10)
  && negb (Qltb peak.2 (minConfidence rp)).

Definition derived (env : Env) (rp : Repicker) (triggering_pick : Pick)
  (preds : list (Q * Q)) : list Pick :=
  map (fun peak => repick env rp triggering_pick peak.1 peak.2)
    (List.filter (accepted env rp triggering_pick) preds).

(** What the peaks of a dictionary of predictions become. *)
Definition derivedAll (env : Env) (rp : Repicker) (seen : gmap string Pick)
  (predictions : list (string * list (Q * Q))) : list Pick :=
  flat_map
    (fun entry : string * list (Q * Q) =>
       match seen !! entry.1 with
       | Some trig => derived env rp trig entry.2
       | None => []
       end) predictions.

(** No pick of [candidates] equals an earlier one, or one of [out]: the
    assertion of line 326 holds throughout. *)
Fixpoint allNew (out candidates : list Pick) : bool :=
  match candidates with
  | [] => true
  | c :: rest =>
      negb (existsb (pick_eqb c) out) && allNew (out ++ [c])%list rest
  end.

Fixpoint slash_free (s : string) : bool :=
  match s with
  | EmptyString => true
  | String c s' => negb (Ascii.eqb c "/"%char) && slash_free s'
  end.

(** Where [_poll] writes the results of an item, and where it links
    them. *)
Definition outPath (rp : Repicker) (eventID link : string) : string :=
  path_join (path_join (path_join (eventRootDir rp) eventID) "out")
    (path_tail link).

Definition outgoingPath (rp : Repicker) (link : string) : string :=
  path_join (path_join (workingDir rp) "outgoing") (path_tail link).

Definition sameSettings (rp rp' : Repicker) : Prop :=
  spoolDir rp' = spoolDir rp
  /\ eventRootDir rp' = eventRootDir rp
  /\ workingDir rp' = workingDir rp
  /\ test rp' = test rp.

(** What a pass that gave the items [handed] to [_process] may have made
    of the file system [fs]. *)
Definition Effects (rp : Repicker) (fs : FS)
  (handed : list (string * string)) (fs' : FS) : Prop :=
  spool fs' ⊆ spool fs
  /\ (forall name,
        (forall target,
           ~ In (path_join (spoolDir rp) name, target) handed) ->
        spool fs' !! name = spool fs !! name)
  /\ outgoing fs ⊆ outgoing fs'
  /\ (forall path, is_Some (files fs !! path) ->
                   is_Some (files fs' !! path))
  /\ (forall path,
        (forall link target eventID,
           In (link, target) handed ->
           from_end (split_slash target) 3 = Some eventID ->
           path <> outPath rp eventID link) ->
        files fs' !! path = files fs !! path)
  /\ (forall dst,
        (forall link target,
           In (link, target) handed -> dst <> outgoingPath rp link) ->
        outgoing fs' !! dst = outgoing fs !! dst)
  /\ (test rp = true ->
      files fs' = files fs /\ outgoing fs' = outgoing fs).

(** The files of the three components of the stream of a pick: [Z],
    [N] or else [1], [E] or else [2]. *)
Definition threeFiles (w : Waveforms) (rp : Repicker) (eventID : string)
  (pick : Pick) : option (string * string * string) :=
  match first_existing w rp eventID pick ["Z"],
        first_existing w rp eventID pick ["N"; "1"],
        first_existing w rp eventID pick ["E"; "2"] with
  | Some z, Some n, Some e => Some (z, n, e)
  | _, _, _ => None
  end.

(** The three files are there and each one is read. *)
Definition readable (w : Waveforms) (rp : Repicker) (eventID : string)
  (pick : Pick) : bool :=
  match threeFiles w rp eventID pick with
  | Some (z, n, e) =>
      match stream_read w z, stream_read w n, stream_read w e with
      | Traces _, Traces _, Traces _ => true
      | _, _, _ => false
      end
  | None => false
  end.

(** ... each stream is merged and has a first trace, and each of these
    traces is as long as the network needs. *)
Definition usable (w : Waveforms) (expected : Q) (rp : Repicker)
  (eventID : string) (pick : Pick) : bool :=
  match threeFiles w rp eventID pick with
  | Some (z, n, e) =>
      match stream_read w z, stream_read w n, stream_read w e with
      | Traces (MergedTo (Some lenZ)), Traces (MergedTo (Some lenN)),
        Traces (MergedTo (Some lenE)) =>
          Qle_bool expected lenZ && Qle_bool expected lenN
          && Qle_bool expected lenE
      | _, _, _ => false
      end
  | None => false
  end.

(** A stream without a trace is looked at, and [t[0]] raises: the
    streams are looked at in the order Z, E, N, and the look ends at the
    first trace that is too short. *)
Definition emptyMet (expected : Q) (lenZ lenE lenN : option Q) : bool :=
  match lenZ with
  | None => true
  | Some z =>
      Qle_bool expected z
      && match lenE with
         | None => true
         | Some e =>
             Qle_bool expected e
             && match lenN with
                | None => true
                | Some _ => false
                end
         end
  end.

(** The pick makes [_get_stream_from_picks] raise: its three files are
    there and are read, and the merge of one of the streams raises, or a
    stream without a trace is looked at. *)
Definition raising (w : Waveforms) (expected : Q) (rp : Repicker)
  (eventID : string) (pick : Pick) : bool :=
  match threeFiles w rp eventID pick with
  | Some (z, n, e) =>
      match stream_read w z, stream_read w n, stream_read w e with
      | Traces (MergedTo lenZ), Traces (MergedTo lenN),
        Traces (MergedTo lenE) => emptyMet expected lenZ lenE lenN
      | Traces _, Traces _, Traces _ => true
      | _, _, _ => false
      end
  | None => false
  end.

Definition tracesOf (w : Waveforms) (rp : Repicker) (eventID : string)
  (pick : Pick) : list string :=
  match threeFiles w rp eventID pick with
  | Some (z, n, e) => [z; n; e]
  | None => []
  end.

(** The traces of a stream, none for [None]. *)
Definition norm (stream : option Stream) : Stream :=
  match stream with
  | Some s => s
  | None => []
  end.

(** The body of the batch loop over a list of batches, up to the first
    exception. *)
Fixpoint overBatches (body : list Pick -> Dict -> Prediction)
  (bs : list (list Pick)) (acc : Dict) : Prediction :=
  match bs with
  | [] => Predictions acc
  | b :: rest =>
      match body b acc with
      | Predictions acc => overBatches body rest acc
      | exception => exception
      end
  end.

(** A pick of [picks] that [_get_stream_from_picks] collects. *)
Definition collectable (w : Waveforms) (m : Model) (rp : Repicker)
  (eventID : string) (picks : list Pick) (p : Pick) : Prop :=
  In p picks
  /\ usable w (expected_input_length_sec m) rp eventID p = true.

(** A dictionary of predictions for picks of [picks]: no key twice, no
    key without a peak, every key the [publicID] of a usable pick. *)
Definition predictionsFor (w : Waveforms) (m : Model) (rp : Repicker)
  (eventID : string) (picks : list Pick) (d : Dict) : Prop :=
  List.NoDup (map fst d)
  /\ forall id peaks, In (id, peaks) d ->
       peaks <> []
       /\ exists p, In p picks /\ publicID p = id
                    /\ usable w (expected_input_length_sec m) rp eventID p
                       = true.

End RepickerSpec.

(** * Concrete inputs *)

Module RelocatorExamples.
Import Relocator.

Definition arrivalsOf (ids : list string) : list Arrival :=
  map (fun id => {| arr_pickID := id; arr_weight := Some 1%Q |}) ids.

Definition originOf (id : string) (z : Q) (stderr : option Q)
  (ids : list string) : Origin :=
  {| publicID := id; time := 0; latitude := 0; longitude := 0;
     depth := z; arrivals := arrivalsOf ids; standardError := stderr;
     creationInfo := None; evaluationMode := None |}.

(** A [pow] that rounds squares correctly. *)
Definition rounded_pow (x y : Q) : Q := fl (x * x).

Definition ids4 : list string := ["a1"; "a2"; "a3"; "a4"].
Definition ids5 : list string := ["a1"; "a2"; "a3"; "a4"; "a5"].
Definition ids10 : list string :=
  (ids5 ++ ["b1"; "b2"; "b3"; "b4"; "b5"])%list.

(** Every pick is known to [Pick.Find]; nothing can be loaded, located
    or estimated. *)
Definition quietEnv : Env :=
  {| hasFixedDepth := fun _ => false;
     util_agencyID := fun _ => "";
     statusFlag := fun _ => "A";
     qualified := fun _ => true;
     valid := fun _ => true;
     GMT := 0;
     pickFind := fun id => Some {| pick_publicID := id |};
     loadEvent := fun _ => None;
     loadOriginWithoutArrivals := fun _ => None;
     loadPicksForOrigin := fun o => o;
     relocate := fun _ _ _ _ _ => None;
     computeDepth := fun _ => None;
     libm_pow := rounded_pow;
     connection_send := fun _ => true |}.

Definition previous10 : Origin := originOf "prev" 10 (Some 2%Q) ids10.

(** Five picks and a standard error of 1.5625 against four of these
    picks and a standard error of 1: an exact score of 1. *)
Definition previous5 : Origin := originOf "prev" 10 (Some (25 # 16)) ids5.
Definition candidate4 : Origin := originOf "cand" 10 (Some 1%Q) ids4.

(** Two picks and a standard error of 1.6 (as a double) against three
    picks and a standard error of 3.6 (as a double): an exact score
    just above 1. *)
Definition previous2 : Origin :=
  originOf "prev" 10 (Some (fl (16 # 10))) ["a1"; "a2"].
Definition candidate3 : Origin :=
  originOf "cand" 10 (Some (fl (36 # 10))) ["a1"; "a2"; "a3"].

Definition appOf (pending : gmap string Event)
  (cached sent : gmap string Origin) : App :=
  {| author := "dl-reloc"; agencyID := "GFZ"; minDelay := 1200;
     minDepth := 10; maxResidual := 3; test := false;
     pendingEvents := pending; origins := cached; relocated := sent |}.

(** A manual origin of the own agency with an operator-fixed depth of
    5 km, in the mining region of SW Poland. *)
Definition manualEnv : Env :=
  {| hasFixedDepth := fun _ => true;
     util_agencyID := fun _ => "GFZ";
     statusFlag := fun _ => "M";
     qualified := fun _ => true;
     valid := fun _ => true;
     GMT := 0;
     pickFind := fun id => Some {| pick_publicID := id |};
     loadEvent := fun _ => None;
     loadOriginWithoutArrivals := fun _ => None;
     loadPicksForOrigin := fun o => o;
     relocate := fun _ _ _ _ _ => None;
     computeDepth := fun _ => None;
     libm_pow := rounded_pow;
     connection_send := fun _ => true |}.

Definition polandManual : Origin :=
  {| publicID := "org/poland"; time := 0; latitude := 51; longitude := 17;
     depth := 5; arrivals := []; standardError := None;
     creationInfo := None; evaluationMode := Some MANUAL |}.

(** The clock reads 100000 s. *)
Definition clockEnv : Env :=
  {| hasFixedDepth := fun _ => false;
     util_agencyID := fun _ => "";
     statusFlag := fun _ => "A";
     qualified := fun _ => true;
     valid := fun _ => true;
     GMT := 100000;
     pickFind := fun id => Some {| pick_publicID := id |};
     loadEvent := fun _ => None;
     loadOriginWithoutArrivals := fun _ => None;
     loadPicksForOrigin := fun o => o;
     relocate := fun _ _ _ _ _ => None;
     computeDepth := fun _ => None;
     libm_pow := rounded_pow;
     connection_send := fun _ => true |}.

Definition theEvent : Event :=
  {| ev_publicID := "ev1"; preferredOriginID := "org1" |}.

(** An origin [age] seconds old on that clock, by [who]. *)
Definition originAged (age : Q) (who : option string) : Origin :=
  {| publicID := "org1"; time := (100000 - age)%Q; latitude := 0;
     longitude := 0; depth := 33; arrivals := []; standardError := None;
     creationInfo :=
       match who with
       | Some a => Some {| ci_author := a; ci_agencyID := "GFZ";
                           ci_creationTime := 0 |}
       | None => None
       end;
     evaluationMode := None |}.

Definition pendingWith (org : Origin) : App :=
  appOf {[ "ev1" := theEvent ]} {[ "org1" := org ]} ∅.

(** [n] arrivals on [n] different picks. *)
Fixpoint pickIDs (n : nat) : list string :=
  match n with
  | O => []
  | S k => String "p"%char (String.concat "" (repeat "i" k)) :: pickIDs k
  end.

(** The data base knows the event and its origin; the locator answers
    [located] when the depth is free and [refined] when it is fixed;
    the depth from depth phases is [estimate]. *)
Definition locatorEnv (located refined : option Origin)
  (estimate : option Q) : Env :=
  {| hasFixedDepth := fun _ => false;
     util_agencyID := fun _ => "";
     statusFlag := fun _ => "A";
     qualified := fun _ => true;
     valid := fun _ => true;
     GMT := 100000;
     pickFind := fun id => Some {| pick_publicID := id |};
     loadEvent := fun _ => Some theEvent;
     loadOriginWithoutArrivals := fun _ => Some (originAged 1800 None);
     loadPicksForOrigin := fun o => o;
     relocate := fun _ _ fixedDepth _ _ =>
                   match fixedDepth with
                   | None => located
                   | Some _ => refined
                   end;
     computeDepth := fun _ => estimate;
     libm_pow := rounded_pow;
     connection_send := fun _ => true |}.

Definition located (n : nat) (z : Q) : Origin :=
  originOf "org/direct" z (Some 1%Q) (pickIDs n).
Definition refined (n : nat) (z : Q) : Origin :=
  originOf "org/depth" z (Some 1%Q) (pickIDs n).

Definition freshApp : App := appOf ∅ ∅ ∅.

(** A direct result with 50 arrivals, an estimate of 40 km from the
    depth phases, and a depth-phase result with 5 arrivals. *)
Definition shrinkingEnv : Env :=
  locatorEnv (Some (located 50 35)) (Some (refined 5 40)) (Some 40%Q).

(** The same, with a messaging connection that takes nothing. *)
Definition deafEnv : Env :=
  {| hasFixedDepth := hasFixedDepth shrinkingEnv;
     util_agencyID := util_agencyID shrinkingEnv;
     statusFlag := statusFlag shrinkingEnv;
     qualified := qualified shrinkingEnv;
     valid := valid shrinkingEnv;
     GMT := GMT shrinkingEnv;
     pickFind := pickFind shrinkingEnv;
     loadEvent := loadEvent shrinkingEnv;
     loadOriginWithoutArrivals := loadOriginWithoutArrivals shrinkingEnv;
     loadPicksForOrigin := loadPicksForOrigin shrinkingEnv;
     relocate := relocate shrinkingEnv;
     computeDepth := fun _ => None;
     libm_pow := rounded_pow;
     connection_send := fun _ => false |}.

Definition direct50 : Origin := stamp shrinkingEnv freshApp (located 50 35).
Definition depth5 : Origin := stamp shrinkingEnv freshApp (refined 5 40).

(** A direct result with [n] arrivals at [z] km, an estimate of 40 km. *)
Definition boundaryEnv (n : nat) (z : Q) : Env :=
  locatorEnv (Some (located n z)) (Some (refined n 40)) (Some 40%Q).

Definition outcome_app (o : Outcome) : App :=
  match o with Finished app _ | Uncaught app _ => app end.

Definition outcome_trace (o : Outcome) : list Action :=
  match o with Finished _ tr | Uncaught _ tr => tr end.

End RelocatorExamples.

Module InventoryExamples.
Import Inventory.

Definition epoch (a : Q) (b : option Q) : Item :=
  {| start := Some a; end_ := b |}.

Definition bhz : Stream :=
  {| stream_code := "BHZ"; stream_epoch := epoch 150 None |}.
Definition shz : Stream :=
  {| stream_code := "SHZ"; stream_epoch := epoch 100 (Some 140%Q) |}.
Definition loc00 : SensorLocation :=
  {| location_code := "00"; location_epoch := epoch 100 None;
     streams := [shz; bhz] |}.
Definition ugm : Station :=
  {| station_code := "UGM"; station_epoch := epoch 100 None;
     sensorLocations := [loc00] |}.
Definition ge : Network :=
  {| network_code := "GE"; network_epoch := epoch 50 None;
     stations := [ugm] |}.

End InventoryExamples.

Module RepickerExamples.
Import Repicker.

Definition pickOf (id station : string) : Pick :=
  {| publicID := id; streamID := "GE." ++ station ++ "..BHZ";
     networkCode := "GE"; stationCode := station; locationCode := "";
     channelCode := "BHZ"; time := "2024-01-01T00:00:00.000000Z";
     phaseHint := None; model := None; confidence := None |}.

Definition twoPicks : list Pick :=
  [pickOf "pick/1" "UGM"; pickOf "pick/2" "KARP"].

(** The network finds one onset for every pick it is given, at the time
    of the pick, with confidence 0.9. *)
Definition confidentEnv : Env :=
  {| ml_predict :=
       fun picks _ =>
         Predictions (map (fun p => (publicID p, [(0%Q, 9 # 10)])) picks);
     UTCDateTime := fun _ => 0%Q;
     isoformat := fun _ => "2024-01-01T00:00:00.500000" |}.

(** The network raises [RuntimeError] whatever it is given. *)
Definition failingEnv : Env :=
  {| ml_predict := fun _ _ => RaiseRuntimeError;
     UTCDateTime := fun _ => 0%Q;
     isoformat := fun _ => "2024-01-01T00:00:00.500000" |}.

Definition repickerOf (testMode : bool) : Repicker :=
  {| model_name := "phasenet"; test := testMode; workingDir := ".";
     eventRootDir := "./events"; spoolDir := "./spool";
     minConfidence := 3 # 10; workspaces := ∅ |}.

(** One link [a.yaml] in the spool directory, to the picks of event
    [ev1]. *)
Definition theLink : string := "./spool/a.yaml".
Definition theTarget : string := "./spool/../events/ev1/in/a.yaml".

Definition oneLink : FS :=
  {| spool := {[ "a.yaml" := Symlink "../events/ev1/in/a.yaml" ]};
     files := {[ theTarget := twoPicks ]};
     outgoing := ∅ |}.

(** Three records; the second is on the stream of the first. *)
Definition threeRecords : list Pick :=
  [pickOf "pick/1" "UGM"; pickOf "pick/3" "UGM"; pickOf "pick/2" "KARP"].

(** A spool directory with a good link, a link whose payload is missing,
    a link that is not a YAML file and a plain file. *)
Definition mixedSpool : FS :=
  {| spool :=
       {[ "b.yaml" := Symlink "../events/ev1/in/b.yaml";
          "a.yaml" := Symlink "../events/ev1/in/a.yaml";
          "c.yaml" := Symlink "../events/ev2/in/c.yaml";
          "d.txt" := Symlink "../events/ev1/in/a.yaml";
          "e.yaml" := RegularFile ]};
     files :=
       {[ theTarget := twoPicks;
          "./spool/../events/ev1/in/b.yaml" := twoPicks ]};
     outgoing := ∅ |}.

(** Every waveform file is there and holds a minute of data. *)
Definition allThere : Waveforms :=
  {| path_exists := fun _ => true;
     stream_read := fun _ => Traces (MergedTo (Some 60%Q)) |}.

(** The same, but the merge of the streams of station [KARP] raises. *)
Definition badMerge : Waveforms :=
  {| path_exists := fun _ => true;
     stream_read :=
       fun f =>
         if startswith f "./events/ev1/waveforms/GE.KARP"
         then Traces MergeRaises
         else Traces (MergedTo (Some 60%Q)) |}.

(** A network that needs 30 s of data and finds, whatever the stream,
    one P onset at station [UGM], with the given peaks. *)
Definition modelWith (peaks : list (Q * Q)) : Model :=
  {| annotate :=
       fun _ =>
         Annotations
           [{| a_id := "GE.UGM..PhaseNet_P"; a_network := "GE";
               a_station := "UGM"; a_location := "";
               a_measured := Peaks peaks |}];
     expected_input_length_sec := 30 |}.

(** The application with [_ml_predict] run on [allThere] and a network,
    with batches of two and a timestamp of millisecond resolution. *)
Definition envOf (m : Model) : Env :=
  {| ml_predict :=
       fun picks eventID =>
         match mlPredict allThere m (repickerOf false) (length picks) 2
                 picks eventID with
         | Some r => r
         | None => RaiseOther
         end;
     UTCDateTime := fun _ => 0%Q;
     isoformat := fun _ => "2024-01-01T00:00:00.500000" |}.

End RepickerExamples.

(** * Theorems *)

(** ** Comparisons on [Q] *)

Lemma Qltb_lt (x y : Q) : Qltb x y = true <-> (x < y)%Q.
Proof.
  unfold Qltb. rewrite negb_true_iff. split.
  - intros H. apply Qnot_le_lt. intros Hle.
    apply Qle_bool_iff in Hle. congruence.
  - intros H. destruct (Qle_bool y x) eqn:E; [|reflexivity].
    apply Qle_bool_iff in E. exfalso. exact (Qlt_not_le _ _ H E).
Qed.

Lemma Qltb_ge (x y : Q) : Qltb x y = false <-> (y <= x)%Q.
Proof.
  unfold Qltb. rewrite negb_false_iff. apply Qle_bool_iff.
Qed.

Lemma Qgeb_le (x y : Q) : Qgeb x y = true <-> (y <= x)%Q.
Proof. unfold Qgeb. apply Qle_bool_iff. Qed.

Lemma Qgtb_lt (x y : Q) : Qgtb x y = true <-> (y < x)%Q.
Proof. unfold Qgtb. apply Qltb_lt. Qed.

Lemma Qgtb_le (x y : Q) : Qgtb x y = false <-> (x <= y)%Q.
Proof. unfold Qgtb. apply Qltb_ge. Qed.

Lemma py_max_Qmax (a b : Q) : (py_max a b == Qmax a b)%Q.
Proof.
  unfold py_max. destruct (Qltb a b) eqn:E.
  - apply Qltb_lt in E. symmetry. apply Q.max_r.
    apply Qlt_le_weak. exact E.
  - apply Qltb_ge in E. symmetry. apply Q.max_l. exact E.
Qed.

(** Rounding depends on the value only. *)
Lemma fl_proper (x y : Q) : (x == y)%Q -> fl x = fl y.
Proof.
  intros H. unfold fl. rewrite (Qred_complete _ _ H). reflexivity.
Qed.

(** Some doubles: 0.1 and 0.8 ([0x3FB999999999999A] and
    [0x3FE999999999999A]), a double as it is, the ties at [2^53], and the
    ties below and above the smallest subnormal [2^-1074]. *)
Lemma fl_doubles :
  (fl (1 # 10) == 3602879701896397 / 2 ^ 55)%Q
  /\ (fl (4 # 5) == 3602879701896397 / 2 ^ 52)%Q
  /\ (fl (3602879701896397 / 2 ^ 52) == 3602879701896397 / 2 ^ 52)%Q
  /\ (fl (-(1 # 3)) == - (6004799503160661 / 2 ^ 54))%Q
  /\ (fl (2 ^ 53 + 1) == 2 ^ 53)%Q
  /\ (fl (2 ^ 53 + 3) == 2 ^ 53 + 4)%Q
  /\ (fl (1 / 2 ^ 1075) == 0)%Q
  /\ (fl (3 / 2 ^ 1075) == 1 / 2 ^ 1073)%Q
  /\ (fl (5 / 2 ^ 1076) == 1 / 2 ^ 1074)%Q.
Proof.
  repeat split; vm_compute; reflexivity.
Qed.


(** ** lib/inventory.py *)

Module InventoryFacts.
Import Inventory.

(** C10.  [operational obj time] is [True] exactly when the start of the
    item is known and not after [time], and the end, if it is known, is
    not before [time]; so it is [False] when the start is unavailable or
    [time] is before it, [True] for an open end, and both boundaries are
    inclusive. *)
Theorem operational_spec (obj : Item) (time : Q) :
  (operational obj time = true <->
   exists s, start obj = Some s /\ (s <= time)%Q /\
             forall e, end_ obj = Some e -> (time <= e)%Q)
  /\ (start obj = None -> operational obj time = false)
  /\ (forall s, start obj = Some s -> (time < s)%Q ->
                operational obj time = false)
  /\ (forall s, start obj = Some s -> (s <= time)%Q ->
                end_ obj = None -> operational obj time = true)
  /\ (forall s e, start obj = Some s -> (s <= time)%Q ->
                  end_ obj = Some e ->
                  (operational obj time = true <-> (time <= e)%Q))
  /\ (forall s, start obj = Some s -> (time == s)%Q ->
                (forall e, end_ obj = Some e -> (s <= e)%Q) ->
                operational obj time = true)
  /\ (forall s e, start obj = Some s -> end_ obj = Some e ->
                  (s <= e)%Q -> (time == e)%Q ->
                  operational obj time = true).
Proof.
  assert (Hchar :
    operational obj time = true <->
    exists s, start obj = Some s /\ (s <= time)%Q /\
              forall e, end_ obj = Some e -> (time <= e)%Q).
  { unfold operational. destruct (start obj) as [s|].
    - destruct (Qgeb time s) eqn:Hs.
      + apply Qgeb_le in Hs. destruct (end_ obj) as [e|].
        * destruct (Qgtb time e) eqn:He.
          -- apply Qgtb_lt in He. split; [discriminate|].
             intros (s' & _ & _ & H). exfalso.
             exact (Qlt_not_le _ _ He (H e eq_refl)).
          -- apply Qgtb_le in He. split; [|reflexivity].
             intros _. exists s. repeat split; [exact Hs|].
             intros e' [= <-]. exact He.
        * split; [|reflexivity]. intros _. exists s.
          repeat split; [exact Hs|]. discriminate.
      + split; [discriminate|]. intros (s' & [= <-] & Hle & _).
        apply Qgeb_le in Hle. congruence.
    - split; [discriminate|]. intros (s & Hs & _). discriminate. }
  split; [exact Hchar|].
  split.
  { intros Hs. apply not_true_is_false. intros E.
    apply Hchar in E. destruct E as (s & Hs' & _). congruence. }
  split.
  { intros s Hs Hlt. apply not_true_is_false. intros E.
    apply Hchar in E. destruct E as (s' & Hs' & Hle & _).
    rewrite Hs in Hs'. injection Hs' as <-.
    exfalso. exact (Qlt_not_le _ _ Hlt Hle). }
  split.
  { intros s Hs Hle He. apply Hchar. exists s.
    repeat split; [exact Hs|exact Hle|]. intros e. rewrite He. discriminate. }
  split.
  { intros s e Hs Hle He. rewrite Hchar. split.
    - intros (s' & _ & _ & H). exact (H e He).
    - intros H. exists s. repeat split; [exact Hs|exact Hle|].
      intros e'. rewrite He. intros [= <-]. exact H. }
  split.
  { intros s Hs Heq He. apply Hchar. exists s.
    repeat split; [exact Hs| |].
    - rewrite Heq. apply Qle_refl.
    - intros e Hee. rewrite Heq. exact (He e Hee). }
  intros s e Hs He Hse Heq. apply Hchar. exists s.
  repeat split; [exact Hs| |].
  - rewrite Heq. exact Hse.
  - intros e'. rewrite He. intros [= <-]. rewrite Heq. apply Qle_refl.
Qed.

(** An item that ran from 100 to 200 is operational at 200, its last
    instant. *)
Lemma operational_spec_witness :
  operational {| start := Some 100%Q; end_ := Some 200%Q |} 200%Q = true.
Proof.
  refine (proj2 (proj1 (operational_spec
            {| start := Some 100%Q; end_ := Some 200%Q |} 200%Q)) _).
  exists 100%Q. split; [reflexivity|]. split.
  - vm_compute. discriminate.
  - intros e H. injection H as <-. vm_compute. discriminate.
Defined.

End InventoryFacts.

(** ** bin/scdlpicker.online-relocator.py: the improvement test *)

Module ImprovementFacts.
Import Relocator RelocatorSpec.



End ImprovementFacts.

Module ImprovementTheorem.
Import Relocator RelocatorSpec RelocatorExamples ImprovementFacts.

Lemma filter_is_Some {A} (P : string * A -> Prop)
  `{!forall x, Decision (P x)} (m : gmap string A) (i : string) :
  is_Some (filter P m !! i) <-> exists x, m !! i = Some x /\ P (i, x).
Proof.
  split.
  - intros [x Hx]. apply map_lookup_filter_Some in Hx. eauto.
  - intros (x & Hx & HP). exists x. apply map_lookup_filter_Some. auto.
Qed.

Lemma improvement_unfold (env : Env) (o1 o2 : Origin) :
  improvement env o1 o2 =
  if Nat.eqb (count1 env o1 o2) 0 then true
  else Qgtb
         (fl (float_pow env
                (fl (Qofnat (count2 env o1 o2) / Qofnat (count1 env o1 o2)))
                2
              * fl (match standardError o1 with
                    | Some e => py_max e 1 | None => 10 end
                    / match standardError o2 with
                      | Some e => py_max e 1 | None => 1 end)))%Q 1.
Proof. reflexivity. Qed.

Lemma rms_py (o1 o2 : Origin) :
  fl (match standardError o1 with
      | Some e => py_max e 1 | None => 10 end
      / match standardError o2 with
        | Some e => py_max e 1 | None => 1 end)
  = fl (rms1 o1 / rms2 o2).
Proof.
  apply fl_proper. unfold rms1, rms2.
  destruct (standardError o1), (standardError o2);
    rewrite ?py_max_Qmax; reflexivity.
Qed.

Lemma improvement_score64 (env : Env) (o1 o2 : Origin) :
  improvement env o1 o2 =
  if Nat.eqb (count1 env o1 o2) 0 then true
  else Qgtb (score64 env o1 o2) 1.
Proof.
  rewrite improvement_unfold, rms_py. reflexivity.
Qed.






(** Five picks with a standard error of 1.5625 against four with a
    standard error of 1: the score is exactly 1; the code, which rounds
    [4/5] and its square, finds [1 + 2^-52] and answers [True].  Two
    picks with a standard error of 1.6 against three with 3.6 (as
    doubles): the score is above 1; the code finds exactly 1 and answers
    [False]. *)
Lemma rounding_at_the_boundary :
  (count1 quietEnv previous5 candidate4 = 5
   /\ count2 quietEnv previous5 candidate4 = 4
   /\ (score quietEnv previous5 candidate4 == 1)%Q
   /\ (score64 quietEnv previous5 candidate4 == 1 + (1 # 2) ^ 52)%Q
   /\ improvement quietEnv previous5 candidate4 = true)
  /\ (count1 quietEnv previous2 candidate3 = 2
      /\ count2 quietEnv previous2 candidate3 = 3
      /\ (1 < score quietEnv previous2 candidate3)%Q
      /\ (score64 quietEnv previous2 candidate3 == 1)%Q
      /\ improvement quietEnv previous2 candidate3 = false).
Proof.
  repeat split; vm_compute; reflexivity.
Qed.


(** And the other way round, with counts 2 and 3 and standard errors 1.6
    and 3.6: the score is above 1 and the code answers [False]. *)
Lemma rounding_hides_improvement :
  ~ improves_as_claimed quietEnv previous2 candidate3.
Proof.
  intros [_ H].
  assert (Hs : (1 < score quietEnv previous2 candidate3)%Q)
    by (vm_compute; reflexivity).
  specialize (H (or_intror Hs)). revert H. vm_compute. discriminate.
Qed.

End ImprovementTheorem.

(** ** The fixed-depth directive *)

Module FixedDepthFacts.
Import Relocator RelocatorSpec RelocatorExamples.

Lemma trusted_test (env : Env) (app : App) (origin : Origin) :
  hasFixedDepth env origin
  && (String.eqb (util_agencyID env origin) (agencyID app)
      && String.eqb (statusFlag env origin) "M") = true
  <-> trusted env app origin.
Proof.
  unfold trusted. rewrite !andb_true_iff, !String.eqb_eq. tauto.
Qed.

Lemma getFixedDepth_region (origin : Origin) (d : Q) :
  getFixedDepth origin = Some d <->
  d = 1%Q /\ (50 <= latitude origin)%Q /\ (latitude origin <= 52)%Q
  /\ (15 <= longitude origin)%Q /\ (longitude origin <= 20)%Q.
Proof.
  unfold getFixedDepth. cbv zeta.
  destruct (Qle_bool 50 (latitude origin) && Qle_bool (latitude origin) 52
            && Qle_bool 15 (longitude origin)
            && Qle_bool (longitude origin) 20) eqn:E.
  - rewrite !andb_true_iff, !Qle_bool_iff in E. split.
    + intros [= <-]. tauto.
    + intros (-> & _). reflexivity.
  - split; [discriminate|]. intros (_ & H1 & H2 & H3 & H4).
    rewrite <- Qle_bool_iff in H1, H2, H3, H4.
    rewrite H1, H2, H3, H4 in E. discriminate.
Qed.

(** C3, as the code has it.  The trusted manual depth (the origin has a
    fixed depth, its agency is the own agency and its status is manual)
    comes first; then the region override; then the passthrough of a
    fixed depth that equals the default of 10 km; otherwise the depth
    is free. *)
Theorem fixed_depth_precedence (env : Env) (app : App) (origin : Origin) :
  (trusted env app origin ->
   directFixedDepth env app origin = Some (depth origin))
  /\ (~ trusted env app origin ->
      forall d, getFixedDepth origin = Some d ->
                directFixedDepth env app origin = Some d)
  /\ (~ trusted env app origin -> getFixedDepth origin = None ->
      hasFixedDepth env origin = true -> (depth origin == 10)%Q ->
      directFixedDepth env app origin = Some 10%Q)
  /\ (~ trusted env app origin -> getFixedDepth origin = None ->
      hasFixedDepth env origin = false \/ ~ (depth origin == 10)%Q ->
      directFixedDepth env app origin = None).
Proof.
  unfold directFixedDepth.
  pose proof (trusted_test env app origin) as Ht.
  destruct (hasFixedDepth env origin) eqn:Hfix; simpl in Ht.
  - destruct (String.eqb (util_agencyID env origin) (agencyID app)
              && String.eqb (statusFlag env origin) "M") eqn:Hm.
    + assert (T : trusted env app origin) by (apply Ht; reflexivity).
      repeat split; intros; try contradiction; reflexivity.
    + assert (T : ~ trusted env app origin).
      { intros T. apply Ht in T. discriminate. }
      split; [intros; contradiction|].
      split.
      { intros _ d Hd. rewrite Hd.
        destruct (Qeq_bool (depth origin) d); reflexivity. }
      split.
      { intros _ Hr _ Hd. rewrite Hr.
        apply Qeq_bool_iff in Hd. rewrite Hd. reflexivity. }
      intros _ Hr [Hf|Hd]; [discriminate|]. rewrite Hr.
      destruct (Qeq_bool (depth origin) 10) eqn:E; [|reflexivity].
      apply Qeq_bool_iff in E. contradiction.
  - assert (T : ~ trusted env app origin).
    { intros (T & _). congruence. }
    split; [intros; contradiction|].
    split; [intros _ d Hd; exact Hd|].
    split; [intros _ _ Hf; discriminate|].
    intros _ Hr _. exact Hr.
Qed.

(** The manual GFZ origin at 5 km below SW Poland keeps its 5 km. *)
Lemma fixed_depth_precedence_witness :
  directFixedDepth manualEnv (appOf ∅ ∅ ∅) polandManual = Some 5%Q.
Proof.
  apply (proj1 (fixed_depth_precedence manualEnv (appOf ∅ ∅ ∅)
                  polandManual)).
  repeat split.
Defined.

(** C3, as it is worded: for that origin the region override (1 km)
    would come first; the code answers 5 km. *)
Lemma region_override_not_first :
  getFixedDepth polandManual = Some 1%Q
  /\ claimedFixedDepth manualEnv (appOf ∅ ∅ ∅) polandManual = Some 1%Q
  /\ directFixedDepth manualEnv (appOf ∅ ∅ ∅) polandManual = Some 5%Q
  /\ directFixedDepth manualEnv (appOf ∅ ∅ ∅) polandManual
     <> claimedFixedDepth manualEnv (appOf ∅ ∅ ∅) polandManual.
Proof.
  repeat split. discriminate.
Qed.

End FixedDepthFacts.

(** ** The readiness gate *)

Module ReadinessFacts.
Import Relocator RelocatorSpec RelocatorExamples.

Lemma cachedApp_pending (app : App) (evt : Event) (org : Origin) :
  pendingEvents (cachedApp app evt org) = pendingEvents app.
Proof.
  unfold cachedApp. destruct (origins app !! preferredOriginID evt);
    reflexivity.
Qed.

Lemma cachedApp_settings (app : App) (evt : Event) (org : Origin) :
  minDelay (cachedApp app evt org) = minDelay app
  /\ author (cachedApp app evt org) = author app.
Proof.
  unfold cachedApp. destruct (origins app !! preferredOriginID evt);
    split; reflexivity.
Qed.

(** [readyToProcess] once the event is pending and its origin at hand. *)
Lemma readyToProcess_fetched (env : Env) (app : App) (eventID : string)
  (evt : Event) (org : Origin) :
  pendingEvents app !! eventID = Some evt ->
  preferredOrigin env app evt = Some org ->
  readyToProcess env app eventID =
  let app1 := cachedApp app evt org in
  if Qltb (elapsed env org) (minDelay app) then (false, app1)
  else if String.eqb (origin_author org) (author app)
  then (false, set_pendingEvents (delete eventID) app1)
  else if negb (qualified env org)
  then (false, set_pendingEvents (delete eventID) app1)
  else (true, app1).
Proof.
  intros Hp Ho. unfold readyToProcess, preferredOrigin, cachedApp in *.
  rewrite Hp. destruct (origins app !! preferredOriginID evt) as [o|].
  - injection Ho as ->. reflexivity.
  - rewrite Ho. reflexivity.
Qed.

Lemma readyToProcess_absent (env : Env) (app : App) (eventID : string) :
  pendingEvents app !! eventID = None ->
  readyToProcess env app eventID = (false, app).
Proof. intros H. unfold readyToProcess. rewrite H. reflexivity. Qed.

(** C5.  For a pending event whose preferred origin is at hand, is not
    the relocator's own and is qualified, the gate answers Ready exactly
    when the time elapsed since the origin time has reached [minDelay];
    the boundary is inclusive, and before that the event stays
    pending. *)
Theorem ready_iff_delay (env : Env) (app : App) (eventID : string)
  (evt : Event) (org : Origin) :
  pendingEvents app !! eventID = Some evt ->
  preferredOrigin env app evt = Some org ->
  origin_author org <> author app ->
  qualified env org = true ->
  (evaluate env app eventID = Ready <->
   (minDelay app <= elapsed env org)%Q)
  /\ ((readyToProcess env app eventID).1 = true <->
      (minDelay app <= elapsed env org)%Q)
  /\ ((elapsed env org == minDelay app)%Q ->
      evaluate env app eventID = Ready)
  /\ ((elapsed env org < minDelay app)%Q ->
      evaluate env app eventID = NotReady
      /\ (readyToProcess env app eventID).1 = false
      /\ pendingEvents (readyToProcess env app eventID).2 !! eventID
         = Some evt).
Proof.
  intros Hp Ho Hauthor Hq.
  unfold evaluate.
  rewrite (readyToProcess_fetched env app eventID evt org Hp Ho).
  cbv zeta.
  apply String.eqb_neq in Hauthor. rewrite Hauthor, Hq. simpl.
  destruct (Qltb (elapsed env org) (minDelay app)) eqn:E.
  - apply Qltb_lt in E. simpl. rewrite cachedApp_pending, Hp.
    split.
    { split; [discriminate|]. intros H. exfalso.
      exact (Qlt_not_le _ _ E H). }
    split.
    { split; [discriminate|]. intros H. exfalso.
      exact (Qlt_not_le _ _ E H). }
    split.
    { intros H. rewrite H in E. exfalso. exact (Qlt_irrefl _ E). }
    intros _. repeat split.
  - apply Qltb_ge in E. simpl.
    split; [tauto|]. split; [tauto|]. split; [reflexivity|].
    intros H. exfalso. exact (Qlt_not_le _ _ H E).
Qed.

(** With a delay of 20 minutes: an origin 19 minutes old is not ready,
    one of 20 minutes is, one of 21 minutes is. *)
Lemma ready_iff_delay_witness :
  evaluate clockEnv (pendingWith (originAged 1140 None)) "ev1" = NotReady
  /\ evaluate clockEnv (pendingWith (originAged 1200 None)) "ev1" = Ready
  /\ evaluate clockEnv (pendingWith (originAged 1260 None)) "ev1" = Ready.
Proof.
  split; [|split].
  - destruct (ready_iff_delay clockEnv (pendingWith (originAged 1140 None))
                "ev1" theEvent (originAged 1140 None))
      as (_ & _ & _ & H);
      [reflexivity|reflexivity|discriminate|reflexivity|].
    apply H. vm_compute. reflexivity.
  - destruct (ready_iff_delay clockEnv (pendingWith (originAged 1200 None))
                "ev1" theEvent (originAged 1200 None))
      as (_ & _ & H & _);
      [reflexivity|reflexivity|discriminate|reflexivity|].
    apply H. vm_compute. reflexivity.
  - destruct (ready_iff_delay clockEnv (pendingWith (originAged 1260 None))
                "ev1" theEvent (originAged 1260 None))
      as (H & _);
      [reflexivity|reflexivity|discriminate|reflexivity|].
    apply H. vm_compute. discriminate.
Defined.

End ReadinessFacts.

(** ** Rejection by the readiness gate *)

Module RejectionFacts.
Import Relocator RelocatorSpec RelocatorExamples ReadinessFacts.

Lemma attemptBody_pending (env : Env) (eventID : string)
  (attempt : Attempt) (app : App) (l : Locals) :
  pendingEvents (s_app (attemptBody env eventID attempt app l))
  = pendingEvents app.
Proof.
  unfold attemptBody.
  destruct (match attempt with
            | direct => Some l
            | depth_phase_based => depthPhaseGuard l
            end) as [l'|]; [|reflexivity].
  destruct (relocate env _ _ _ _ _) as [r0|]; [|reflexivity].
  destruct (arrivalCount r0 <? 5)%nat; [reflexivity|].
  destruct (noImprovement env _ eventID attempt _); [reflexivity|].
  destruct attempt; reflexivity.
Qed.

Lemma forAttempts_pending (env : Env) (eventID : string)
  (attempts : list Attempt) (app : App) (l : Locals) :
  pendingEvents (forAttempts env eventID attempts app l).1
  = pendingEvents app.
Proof.
  revert app l. induction attempts as [|a rest IH]; intros app l; simpl.
  - reflexivity.
  - pose proof (attemptBody_pending env eventID a app l) as Hb.
    destruct (flow (attemptBody env eventID a app l)); simpl.
    + specialize (IH (s_app (attemptBody env eventID a app l))
                     (s_locals (attemptBody env eventID a app l))).
      destruct (forAttempts env eventID rest _ _) as [app' tr]. simpl in *.
      congruence.
    + exact Hb.
    + exact Hb.
Qed.

Lemma processEvent_pending (env : Env) (app : App) (eventID : string) :
  pendingEvents (outcome_app (processEvent env app eventID))
  = pendingEvents app.
Proof.
  unfold processEvent. destruct (loadEvent env eventID) as [event|];
    [|reflexivity].
  destruct (loadOriginWithoutArrivals env _) as [origin|]; [|reflexivity].
  pose proof (forAttempts_pending env eventID [direct; depth_phase_based]
                app (initialLocals env app origin)) as H.
  destruct (forAttempts env eventID _ app _) as [app' tr]. exact H.
Qed.

(** An event that is not pending is neither processed nor made pending
    by a sweep. *)
Lemma readyToProcess_keeps_absent (env : Env) (app : App)
  (eventID other : string) :
  pendingEvents app !! eventID = None ->
  pendingEvents (readyToProcess env app other).2 !! eventID = None.
Proof.
  intros Habs. unfold readyToProcess.
  destruct (pendingEvents app !! other) as [evt|]; [|exact Habs].
  assert (Hdel : forall a : App,
    pendingEvents a = pendingEvents app ->
    pendingEvents (set_pendingEvents (delete other) a) !! eventID = None).
  { intros a Ha. simpl. rewrite Ha.
    destruct (decide (other = eventID)) as [->|Hne].
    - apply lookup_delete_eq.
    - rewrite lookup_delete_ne by exact Hne. exact Habs. }
  destruct (origins app !! preferredOriginID evt) as [org|].
  - destruct (Qltb _ _); [exact Habs|].
    destruct (String.eqb _ _); [apply Hdel; reflexivity|].
    destruct (negb _); [apply Hdel; reflexivity|exact Habs].
  - destruct (loadOriginWithoutArrivals env _) as [org|]; [|exact Habs].
    destruct (Qltb _ _); [exact Habs|].
    destruct (String.eqb _ _); [apply Hdel; reflexivity|].
    destruct (negb _); [apply Hdel; reflexivity|exact Habs].
Qed.

Lemma sweep_absent (env : Env) (eventID : string) (ids : list string)
  (app : App) :
  pendingEvents app !! eventID = None ->
  ~ In eventID (sw_processed (sweep env ids app))
  /\ pendingEvents (sw_app (sweep env ids app)) !! eventID = None.
Proof.
  revert app. induction ids as [|id rest IH]; intros app Habs; simpl.
  - split; [tauto|exact Habs].
  - destruct (readyToProcess env app id) as [ready app1] eqn:Hr.
    assert (Habs1 : pendingEvents app1 !! eventID = None).
    { pose proof (readyToProcess_keeps_absent env app eventID id Habs) as H.
      rewrite Hr in H. exact H. }
    destruct ready; [|apply IH; exact Habs1].
    assert (Hne : id <> eventID).
    { intros ->. rewrite (readyToProcess_absent env app eventID Habs) in Hr.
      discriminate. }
    pose proof (processEvent_pending env
                  (set_pendingEvents (delete id) app1) id) as Hpe.
    assert (Habs2 :
      pendingEvents (set_pendingEvents (delete id) app1) !! eventID = None).
    { simpl. rewrite lookup_delete_ne by exact Hne. exact Habs1. }
    destruct (processEvent env (set_pendingEvents (delete id) app1) id)
      as [app3 tr|app3 tr]; simpl in Hpe |- *.
    + assert (Habs3 : pendingEvents app3 !! eventID = None)
        by (rewrite Hpe; exact Habs2).
      destruct (IH app3 Habs3) as [H1 H2].
      split; [|exact H2]. intros [H|H]; [contradiction|exact (H1 H)].
    + assert (Habs3 : pendingEvents app3 !! eventID = None)
        by (rewrite Hpe; exact Habs2).
      split; [|exact Habs3].
      intros [H|[]]. contradiction.
Qed.

Lemma save_absent (env : Env) (eventID : string) (received : list Object)
  (app : App) :
  not_renotified eventID received ->
  pendingEvents app !! eventID = None ->
  pendingEvents (foldl (save env) app received) !! eventID = None.
Proof.
  revert app. induction received as [|obj rest IH]; intros app Hn Habs;
    simpl; [exact Habs|].
  apply IH.
  - intros evt Hin. apply Hn. right. exact Hin.
  - destruct obj as [evt|org|]; simpl; try exact Habs.
    destruct (valid env evt); [|exact Habs]. simpl.
    rewrite lookup_insert_ne; [exact Habs|].
    apply Hn. left. reflexivity.
Qed.

Lemma ticks_absent (eventID : string) (inputs : list (Env * list Object))
  (app : App) :
  Forall (fun input => not_renotified eventID input.2) inputs ->
  pendingEvents app !! eventID = None ->
  ~ In eventID (sw_processed (ticks inputs app))
  /\ pendingEvents (sw_app (ticks inputs app)) !! eventID = None.
Proof.
  revert app. induction inputs as [|[env received] rest IH];
    intros app Hall Habs; simpl.
  - split; [tauto|exact Habs].
  - inversion Hall as [|? ? Hn Hrest]; subst. simpl in Hn.
    pose proof (save_absent env eventID received app Hn Habs) as Hs.
    destruct (sweep_absent env eventID
                (py_sorted String.leb
                   (map fst (map_to_list
                      (pendingEvents (foldl (save env) app received)))))
                _ Hs) as [H1 H2].
    fold (kickOffProcessing env (foldl (save env) app received)) in H1, H2.
    destruct (sw_uncaught (kickOffProcessing env _)); [split; assumption|].
    destruct (IH _ Hrest H2) as [H3 H4]. simpl.
    split; [|exact H4]. rewrite in_app_iff. tauto.
Qed.

(** C7, as the code has it.  For a pending event whose origin is the
    relocator's own, or is not qualified: once the time elapsed since the
    origin time has reached [minDelay] the event is rejected, the call
    returns [False] and the event is gone from the pending set; it is
    handed to [processEvent] neither in the rest of the sweep nor at any
    later tick, and stays out of the pending set, as long as no new
    notification names it.  Before that the event is not ready and stays
    pending. *)
Theorem rejected_when_due (env : Env) (app : App) (eventID : string)
  (evt : Event) (org : Origin) :
  pendingEvents app !! eventID = Some evt ->
  preferredOrigin env app evt = Some org ->
  fails_checks env app org ->
  ((minDelay app <= elapsed env org)%Q ->
   evaluate env app eventID = Rejected
   /\ (readyToProcess env app eventID).1 = false
   /\ pendingEvents (readyToProcess env app eventID).2 !! eventID = None
   /\ (forall env' ids,
         ~ In eventID
             (sw_processed
                (sweep env' ids (readyToProcess env app eventID).2)))
   /\ (forall inputs,
         Forall (fun input => not_renotified eventID input.2) inputs ->
         ~ In eventID
             (sw_processed (ticks inputs (readyToProcess env app eventID).2))
         /\ pendingEvents
              (sw_app (ticks inputs (readyToProcess env app eventID).2))
            !! eventID = None))
  /\ ((elapsed env org < minDelay app)%Q ->
      evaluate env app eventID = NotReady
      /\ (readyToProcess env app eventID).1 = false
      /\ pendingEvents (readyToProcess env app eventID).2 !! eventID
         = Some evt).
Proof.
  intros Hp Ho Hfail. split.
  - intros Hdue.
    assert (Hcall :
      (readyToProcess env app eventID).1 = false
      /\ pendingEvents (readyToProcess env app eventID).2 !! eventID = None).
    { rewrite (readyToProcess_fetched env app eventID evt org Hp Ho).
      cbv zeta. apply Qltb_ge in Hdue. rewrite Hdue.
      destruct (String.eqb_spec (origin_author org) (author app)) as [|Hne].
      - simpl. split; [reflexivity|apply lookup_delete_eq].
      - destruct Hfail as [Ha|Hq]; [contradiction|]. rewrite Hq. simpl.
        split; [reflexivity|apply lookup_delete_eq]. }
    destruct Hcall as [Hfalse Hgone].
    split.
    { unfold evaluate.
      destruct (readyToProcess env app eventID) as [ready app']. simpl in *.
      rewrite Hfalse, Hgone. reflexivity. }
    split; [exact Hfalse|]. split; [exact Hgone|]. split.
    + intros env' ids. apply (sweep_absent env' eventID ids _ Hgone).
    + intros inputs Hin. apply (ticks_absent eventID inputs _ Hin Hgone).
  - intros Hyoung. apply Qltb_lt in Hyoung.
    unfold evaluate.
    rewrite (readyToProcess_fetched env app eventID evt org Hp Ho).
    cbv zeta. rewrite Hyoung. simpl.
    rewrite cachedApp_pending, Hp. auto.
Qed.

(** An origin of the relocator's own, 30 minutes old. *)
Lemma rejected_when_due_witness :
  evaluate clockEnv (pendingWith (originAged 1800 (Some "dl-reloc"))) "ev1"
  = Rejected.
Proof.
  refine (proj1 (proj1 (rejected_when_due clockEnv
                   (pendingWith (originAged 1800 (Some "dl-reloc")))
                   "ev1" theEvent (originAged 1800 (Some "dl-reloc"))
                   _ _ _) _)).
  - reflexivity.
  - reflexivity.
  - left. reflexivity.
  - vm_compute. discriminate.
Defined.

(** C7, as it is worded: an origin of the relocator's own that is only
    one minute old is not rejected; the event stays pending. *)
Lemma own_origin_too_young_not_rejected :
  ~ rejected_as_claimed clockEnv
      (pendingWith (originAged 60 (Some "dl-reloc"))) "ev1".
Proof.
  intros H.
  specialize (H theEvent (originAged 60 (Some "dl-reloc"))
                eq_refl eq_refl (or_introl eq_refl)).
  vm_compute in H. discriminate H.
Qed.

End RejectionFacts.

(** ** [processEvent]: the two attempts, the sends and the cache *)

Module ProcessFacts.
Import Relocator RelocatorSpec RelocatorExamples.

Lemma sentIn_app (tr1 tr2 : list Action) :
  sentIn (tr1 ++ tr2) = (sentIn tr1 ++ sentIn tr2)%list.
Proof. unfold sentIn. apply omap_app. Qed.

Lemma In_send_sentIn (tr : list Action) (a : Attempt) (o : Origin) :
  In (ActSend a o) tr -> In o (sentIn tr).
Proof.
  induction tr as [|x tr IH]; simpl; [tauto|].
  intros [->|H].
  - unfold sentIn. simpl. left. reflexivity.
  - specialize (IH H). unfold sentIn in *. simpl.
    destruct x; simpl; auto.
Qed.

Lemma attemptBody_sends (env : Env) (eventID : string) (attempt : Attempt)
  (app : App) (l : Locals) :
  StepSends env eventID attempt app (attemptBody env eventID attempt app l).
Proof.
  unfold attemptBody.
  destruct (match attempt with
            | direct => Some l
            | depth_phase_based => depthPhaseGuard l
            end) as [l'|]; [|apply sends_nothing; reflexivity].
  destruct (relocate env _ _ _ _ _) as [r0|];
    [|apply sends_nothing; reflexivity].
  destruct (arrivalCount r0 <? 5)%nat; [apply sends_nothing; reflexivity|].
  destruct (noImprovement env (set_origins _ app) eventID attempt
              (stamp env app r0)) eqn:Hgate;
    [apply sends_nothing; reflexivity|].
  change (noImprovement env app eventID attempt (stamp env app r0) = false)
    in Hgate.
  destruct (test app) eqn:Htest.
  - apply sends_nothing.
    + simpl. rewrite Htest. destruct attempt; reflexivity.
    + intros H. congruence.
  - apply (sends_one _ _ _ _ _ (stamp env app r0)); try reflexivity.
    + exact Htest.
    + simpl. rewrite Htest. destruct attempt; reflexivity.
    + simpl. rewrite Htest. intros a o' Hin.
      destruct attempt; simpl in Hin;
        repeat (destruct Hin as [Hin|Hin];
                [try discriminate; injection Hin as <- <-; auto|]);
        destruct Hin.
    + exact Hgate.
    + destruct attempt; reflexivity.
Qed.

Lemma attemptBody_test (env : Env) (eventID : string) (attempt : Attempt)
  (app : App) (l : Locals) :
  test (s_app (attemptBody env eventID attempt app l)) = test app.
Proof.
  unfold attemptBody.
  destruct (match attempt with
            | direct => Some l
            | depth_phase_based => depthPhaseGuard l
            end) as [l'|]; [|reflexivity].
  destruct (relocate env _ _ _ _ _) as [r0|]; [|reflexivity].
  destruct (arrivalCount r0 <? 5)%nat; [reflexivity|].
  destruct (noImprovement env _ eventID attempt _); [reflexivity|].
  destruct attempt; reflexivity.
Qed.

(** The run is the direct iteration, followed by the depth-phase
    iteration when the direct one went through. *)
Lemma processEvent_steps (env : Env) (app : App) (eventID : string)
  (event : Event) (origin : Origin) :
  loadEvent env eventID = Some event ->
  loadOriginWithoutArrivals env (preferredOriginID event) = Some origin ->
  processEvent env app eventID =
  let s1 := directStep env app eventID origin in
  match flow s1 with
  | Next =>
      let s2 := attemptBody env eventID depth_phase_based
                  (s_app s1) (s_locals s1) in
      Finished (s_app s2) (s_trace s1 ++ s_trace s2)%list
  | _ => Finished (s_app s1) (s_trace s1)
  end.
Proof.
  intros He Ho. unfold processEvent. rewrite He, Ho. simpl.
  fold (directStep env app eventID origin).
  destruct (flow (directStep env app eventID origin)); try reflexivity.
  destruct (flow (attemptBody env eventID depth_phase_based _ _));
    rewrite ?app_nil_r; reflexivity.
Qed.

(** The direct iteration: what its local variables say at its end. *)
Lemma directStep_locals (env : Env) (app : App) (eventID : string)
  (origin : Origin) (d : Q) :
  let s := directStep env app eventID origin in
  depthFromDepthPhases (s_locals s) = Some d <->
  flow s = Next /\
  exists r0,
    relocate env (loadPicksForOrigin env origin) eventID
      (directFixedDepth env app origin) (minDepth app) (maxResidual app)
    = Some r0
    /\ (5 <= arrivalCount r0)%nat
    /\ noImprovement env app eventID direct (stamp env app r0) = false
    /\ l_relocated (s_locals s) = Some (stamp env app r0)
    /\ computeDepth env eventID = Some d.
Proof.
  unfold directStep, attemptBody, initialLocals.
  cbn [originWithArrivals fixedDepth l_relocated depthFromDepthPhases].
  destruct (relocate env _ _ _ _ _) as [r0|];
    cbn [originWithArrivals fixedDepth l_relocated depthFromDepthPhases
         s_locals flow].
  2:{ split; [discriminate|]. intros (_ & r & H & _). discriminate. }
  destruct (Nat.ltb_spec (arrivalCount r0) 5) as [Hlt|Hge];
    cbn [originWithArrivals fixedDepth l_relocated depthFromDepthPhases
         s_locals flow].
  { split; [discriminate|]. intros (H & _). discriminate. }
  destruct (noImprovement env (set_origins _ app) eventID direct
              (stamp env app r0)) eqn:Hgate;
    cbn [originWithArrivals fixedDepth l_relocated depthFromDepthPhases
         s_locals flow].
  { split; [discriminate|]. intros (H & _). discriminate. }
  change (noImprovement env app eventID direct (stamp env app r0) = false)
    in Hgate.
  split.
  - intros Hd. split; [reflexivity|]. exists r0. auto.
  - intros (_ & r & [= <-] & _ & _ & _ & Hd). exact Hd.
Qed.

Lemma directStep_no_depth_call (env : Env) (app : App) (eventID : string)
  (origin : Origin) :
  entersDepthPhase (s_trace (directStep env app eventID origin)) = false.
Proof.
  unfold directStep, attemptBody, initialLocals.
  destruct (relocate env _ _ _ _ _) as [r0|]; [|reflexivity].
  destruct (arrivalCount r0 <? 5)%nat; [reflexivity|].
  destruct (noImprovement env _ eventID direct _); [reflexivity|].
  simpl. destruct (test app); reflexivity.
Qed.

Lemma entersDepthPhase_app (tr1 tr2 : list Action) :
  entersDepthPhase (tr1 ++ tr2)
  = entersDepthPhase tr1 || entersDepthPhase tr2.
Proof. unfold entersDepthPhase. apply existsb_app. Qed.

Lemma depthPhaseGuard_Some (l : Locals) :
  is_Some (depthPhaseGuard l) <->
  exists r d, l_relocated l = Some r /\ depthFromDepthPhases l = Some d
              /\ (50 <= arrivalCount r)%nat /\ (depth r <= 120)%Q.
Proof.
  unfold depthPhaseGuard.
  destruct (l_relocated l) as [r|].
  2:{ split; [intros [x Hx]; discriminate|].
      intros (r & d & H & _). discriminate. }
  destruct (depthFromDepthPhases l) as [d|].
  2:{ split; [intros [x Hx]; discriminate|].
      intros (r' & d & _ & H & _). discriminate. }
  destruct (Nat.ltb_spec (arrivalCount r) 50) as [Hlt|Hge].
  { split; [intros [x Hx]; discriminate|].
    intros (r' & d' & [= <-] & _ & H & _). lia. }
  destruct (Qgtb (depth r) 120) eqn:Hz.
  { apply Qgtb_lt in Hz. split; [intros [x Hx]; discriminate|].
    intros (r' & d' & [= <-] & _ & _ & H). exfalso.
    exact (Qlt_not_le _ _ Hz H). }
  apply Qgtb_le in Hz. split; [|eauto].
  intros _. exists r, d. auto.
Qed.

(** The depth-phase iteration calls the locator exactly when its guard
    lets it in; otherwise it leaves everything as it was. *)
Lemma depthStep_enters (env : Env) (eventID : string) (app : App)
  (l : Locals) :
  let s := attemptBody env eventID depth_phase_based app l in
  (entersDepthPhase (s_trace s) = true <-> is_Some (depthPhaseGuard l))
  /\ (entersDepthPhase (s_trace s) = false ->
      s_app s = app /\ s_trace s = []).
Proof.
  unfold attemptBody.
  destruct (depthPhaseGuard l) as [l'|].
  - assert (Hcall : forall s : Step,
              (exists tr, s_trace s = ActRelocate depth_phase_based
                            (originWithArrivals l') (fixedDepth l') :: tr) ->
              (entersDepthPhase (s_trace s) = true <-> is_Some (Some l'))
              /\ (entersDepthPhase (s_trace s) = false ->
                  s_app s = app /\ s_trace s = [])).
    { intros s [tr ->]. simpl. split; [split; eauto|discriminate]. }
    apply Hcall.
    destruct (relocate env _ _ _ _ _) as [r0|]; [|simpl; eauto].
    destruct (arrivalCount r0 <? 5)%nat; [simpl; eauto|].
    destruct (noImprovement env _ eventID depth_phase_based _);
      simpl; eauto.
  - simpl. split; [|auto]. split; [discriminate|].
    intros [x Hx]. discriminate.
Qed.

End ProcessFacts.

(** ** Publication and the improvement baseline *)

Module PublicationFacts.
Import Relocator RelocatorSpec RelocatorExamples ProcessFacts.

Lemma noImprovement_direct (env : Env) (app : App) (eventID : string)
  (o : Origin) :
  noImprovement env app eventID direct o = false <->
  relocated app !! eventID = None
  \/ exists previous, relocated app !! eventID = Some previous
                      /\ improvement env previous o = true.
Proof.
  unfold noImprovement. destruct (relocated app !! eventID) as [prev|].
  - rewrite negb_false_iff. split.
    + intros H. right. exists prev. auto.
    + intros [H|(p & [= <-] & H)]; [discriminate|exact H].
  - split; [auto|reflexivity].
Qed.

Lemma processEvent_cases (env : Env) (app : App) (eventID : string)
  (app' : App) (tr : list Action) :
  processEvent env app eventID = Finished app' tr ->
  (app' = app /\ tr = [])
  \/ exists event origin,
       loadEvent env eventID = Some event
       /\ loadOriginWithoutArrivals env (preferredOriginID event)
          = Some origin.
Proof.
  unfold processEvent. destruct (loadEvent env eventID) as [event|].
  - destruct (loadOriginWithoutArrivals env _) as [origin|] eqn:Ho;
      [|discriminate].
    intros _. right. exists event, origin. auto.
  - intros [= <- <-]. left. auto.
Qed.

(** A direct-phase send has passed the gate against what was cached for
    the event when the run began. *)
Lemma direct_send_gated (env : Env) (app : App) (eventID : string)
  (app' : App) (tr : list Action) (o : Origin) :
  processEvent env app eventID = Finished app' tr ->
  In (ActSend direct o) tr ->
  noImprovement env app eventID direct o = false.
Proof.
  intros Hrun Hin.
  destruct (processEvent_cases _ _ _ _ _ Hrun)
    as [[_ ->]|(event & origin & He & Ho)]; [destruct Hin|].
  rewrite (processEvent_steps env app eventID event origin He Ho) in Hrun.
  cbv zeta in Hrun.
  pose proof (attemptBody_sends env eventID direct app
                (initialLocals env app origin)) as H1.
  fold (directStep env app eventID origin) in H1.
  assert (Hfirst : In (ActSend direct o)
                     (s_trace (directStep env app eventID origin)) ->
                   noImprovement env app eventID direct o = false).
  { intros Hin1. destruct H1 as [Hnone _|o1 _ _ Hall Hgate _].
    - apply In_send_sentIn in Hin1. rewrite Hnone in Hin1. destruct Hin1.
    - destruct (Hall _ _ Hin1) as [_ ->]. exact Hgate. }
  destruct (flow (directStep env app eventID origin));
    injection Hrun as <- <-; try (apply Hfirst; exact Hin).
  apply in_app_or in Hin. destruct Hin as [Hin|Hin]; [exact (Hfirst Hin)|].
  pose proof (attemptBody_sends env eventID depth_phase_based
                (s_app (directStep env app eventID origin))
                (s_locals (directStep env app eventID origin))) as H2.
  destruct H2 as [Hnone _|o2 _ _ Hall _ _].
  - apply In_send_sentIn in Hin. rewrite Hnone in Hin. destruct Hin.
  - destruct (Hall _ _ Hin) as [Hd _]. discriminate.
Qed.

(** After a run, the cached relocation of the event is the last origin
    sent, if any was. *)
Lemma last_sent_cached (env : Env) (app : App) (eventID : string)
  (app' : App) (tr : list Action) (o : Origin) :
  processEvent env app eventID = Finished app' tr ->
  lastSent tr = Some o ->
  relocated app' !! eventID = Some o.
Proof.
  intros Hrun Hlast.
  destruct (processEvent_cases _ _ _ _ _ Hrun)
    as [[_ ->]|(event & origin & He & Ho)]; [discriminate|].
  rewrite (processEvent_steps env app eventID event origin He Ho) in Hrun.
  cbv zeta in Hrun.
  pose proof (attemptBody_sends env eventID direct app
                (initialLocals env app origin)) as H1.
  pose proof (attemptBody_test env eventID direct app
                (initialLocals env app origin)) as Ht.
  fold (directStep env app eventID origin) in H1, Ht.
  pose proof (attemptBody_sends env eventID depth_phase_based
                (s_app (directStep env app eventID origin))
                (s_locals (directStep env app eventID origin))) as H2.
  assert (Hfirst : lastSent (s_trace (directStep env app eventID origin))
                   = Some o ->
                   relocated (s_app (directStep env app eventID origin))
                   !! eventID = Some o).
  { unfold lastSent. destruct H1 as [Hnone _|o1 _ Hone _ _ Hc].
    - rewrite Hnone. discriminate.
    - rewrite Hone, Hc. intros [= <-]. apply lookup_insert_eq. }
  destruct (flow (directStep env app eventID origin));
    injection Hrun as <- <-; try (apply Hfirst; exact Hlast).
  unfold lastSent in Hlast. rewrite sentIn_app in Hlast.
  destruct H2 as [Hnone Hsame|o2 _ Hone _ _ Hc].
  - rewrite Hnone, app_nil_r in Hlast.
    destruct H1 as [Hnone1 _|o1 Htest Hone _ _ Hc].
    + rewrite Hnone1 in Hlast. discriminate.
    + rewrite Hsame by congruence. apply Hfirst. exact Hlast.
  - rewrite Hone, last_snoc in Hlast. injection Hlast as <-.
    rewrite Hc. apply lookup_insert_eq.
Qed.

(** C2, as the code has it.  The origin of the direct phase is sent only
    if no relocation is cached for the event, or it improves on the
    cached one; once the depth phase is entered, its origin is sent
    (outside test mode) whenever the locator delivers it with five
    arrivals or more, without that test. *)
Theorem direct_sends_are_gated (env : Env) (eventID : string) :
  (forall app app' tr o,
      processEvent env app eventID = Finished app' tr ->
      In (ActSend direct o) tr ->
      relocated app !! eventID = None
      \/ exists previous, relocated app !! eventID = Some previous
                          /\ improvement env previous o = true)
  /\ (forall app l l' r0,
        test app = false ->
        depthPhaseGuard l = Some l' ->
        relocate env (originWithArrivals l') eventID (fixedDepth l')
          (minDepth app) (maxResidual app) = Some r0 ->
        (5 <= arrivalCount r0)%nat ->
        In (ActSend depth_phase_based (stamp env app r0))
           (s_trace (attemptBody env eventID depth_phase_based app l))).
Proof.
  split.
  - intros app app' tr o Hrun Hin. apply noImprovement_direct.
    exact (direct_send_gated env app eventID app' tr o Hrun Hin).
  - intros app l l' r0 Htest Hguard Hloc Hn.
    unfold attemptBody. rewrite Hguard, Hloc.
    destruct (Nat.ltb_spec (arrivalCount r0) 5) as [Hlt|_]; [lia|].
    simpl. rewrite Htest. simpl. right. left. reflexivity.
Qed.

(** The direct origin of the shrinking run was sent with nothing
    cached. *)
Lemma direct_sends_are_gated_witness :
  relocated freshApp !! "ev1" = None
  \/ exists previous, relocated freshApp !! "ev1" = Some previous
                      /\ improvement shrinkingEnv previous direct50 = true.
Proof.
  refine (proj1 (direct_sends_are_gated shrinkingEnv "ev1") freshApp
            (outcome_app (processEvent shrinkingEnv freshApp "ev1"))
            (outcome_trace (processEvent shrinkingEnv freshApp "ev1"))
            direct50 _ _).
  - vm_compute. reflexivity.
  - vm_compute. right. left. reflexivity.
Defined.

(** C2, as it is worded: in the shrinking run the depth-phase origin,
    with 5 arrivals, is sent although the direct origin, with 50
    arrivals, is the cached relocation of the event by then and the
    depth-phase origin does not improve on it. *)
Lemma depth_phase_send_not_gated :
  ~ gated_as_claimed shrinkingEnv freshApp "ev1".
Proof.
  intros H.
  specialize (H (outcome_app (processEvent shrinkingEnv freshApp "ev1"))
                (outcome_trace (processEvent shrinkingEnv freshApp "ev1"))
                [ActRelocate direct (originAged 1800 None) None;
                 ActSend direct direct50;
                 ActComputeDepth "ev1";
                 ActRelocate depth_phase_based direct50 (Some 40%Q)]
                depth_phase_based depth5 []).
  assert (Hrun : processEvent shrinkingEnv freshApp "ev1"
                 = Finished
                     (outcome_app
                        (processEvent shrinkingEnv freshApp "ev1"))
                     (outcome_trace
                        (processEvent shrinkingEnv freshApp "ev1")))
    by (vm_compute; reflexivity).
  specialize (H Hrun). clear Hrun.
  assert (Htr : outcome_trace (processEvent shrinkingEnv freshApp "ev1")
                = [ActRelocate direct (originAged 1800 None) None;
                   ActSend direct direct50;
                   ActComputeDepth "ev1";
                   ActRelocate depth_phase_based direct50 (Some 40%Q);
                   ActSend depth_phase_based depth5])
    by (vm_compute; reflexivity).
  specialize (H Htr). clear Htr.
  change (baselineAt freshApp "ev1"
            [ActRelocate direct (originAged 1800 None) None;
             ActSend direct direct50;
             ActComputeDepth "ev1";
             ActRelocate depth_phase_based direct50 (Some 40%Q)])
    with (Some direct50) in H.
  destruct H as [H|(previous & Hp & Hi)]; [discriminate|].
  injection Hp as <-. vm_compute in Hi. discriminate.
Qed.

End PublicationFacts.

Module BaselineFacts.
Import Relocator RelocatorSpec RelocatorExamples ProcessFacts
       PublicationFacts.

(** C4.  Whatever an iteration sends, for the direct phase (past the
    gate) or for the depth phase (not gated), is the cached relocation of
    the event when the iteration ends; so after a run the cache holds the
    last origin sent, and in the next run for the event a direct origin
    is sent only if it improves on that origin. *)
Theorem sent_origin_becomes_baseline (env : Env) (app : App)
  (eventID : string) :
  (forall attempt l a o,
      In (ActSend a o) (s_trace (attemptBody env eventID attempt app l)) ->
      a = attempt
      /\ relocated (s_app (attemptBody env eventID attempt app l))
         !! eventID = Some o)
  /\ (forall app' tr o,
        processEvent env app eventID = Finished app' tr ->
        lastSent tr = Some o ->
        relocated app' !! eventID = Some o
        /\ forall env2 app2 tr2 o2,
             processEvent env2 app' eventID = Finished app2 tr2 ->
             In (ActSend direct o2) tr2 ->
             improvement env2 o o2 = true).
Proof.
  split.
  - intros attempt l a o Hin.
    destruct (attemptBody_sends env eventID attempt app l)
      as [Hnone _|o1 _ _ Hall _ Hc].
    + apply In_send_sentIn in Hin. rewrite Hnone in Hin. destruct Hin.
    + destruct (Hall _ _ Hin) as [-> ->]. split; [reflexivity|].
      rewrite Hc. apply lookup_insert_eq.
  - intros app' tr o Hrun Hlast.
    pose proof (last_sent_cached env app eventID app' tr o Hrun Hlast)
      as Hcache.
    split; [exact Hcache|].
    intros env2 app2 tr2 o2 Hrun2 Hin2.
    pose proof (direct_send_gated env2 app' eventID app2 tr2 o2 Hrun2 Hin2)
      as Hgate.
    apply noImprovement_direct in Hgate.
    destruct Hgate as [Hnone|(previous & Hp & Hi)]; [congruence|].
    rewrite Hcache in Hp. injection Hp as <-. exact Hi.
Qed.

(** After the shrinking run the cached relocation is the depth-phase
    origin, the last one sent. *)
Lemma sent_origin_becomes_baseline_witness :
  relocated (outcome_app (processEvent shrinkingEnv freshApp "ev1"))
  !! "ev1" = Some depth5.
Proof.
  refine (proj1 (proj2 (sent_origin_becomes_baseline shrinkingEnv
                          freshApp "ev1")
                   (outcome_app (processEvent shrinkingEnv freshApp "ev1"))
                   (outcome_trace
                      (processEvent shrinkingEnv freshApp "ev1"))
                   depth5 _ _)).
  - vm_compute. reflexivity.
  - vm_compute. reflexivity.
Defined.

End BaselineFacts.

(** ** Entry into the depth phase *)

Module DepthPhaseFacts.
Import Relocator RelocatorSpec RelocatorExamples ProcessFacts.

(** C6.  With the event and its origin loaded, the run ends, and the
    locator is called for the depth phase exactly when, at the end of the
    direct iteration, there is a relocated origin (the direct phase
    succeeded), there is a depth from depth phases, the origin has 50
    arrivals or more and its depth is 120 km or less.  The depth from
    depth phases is there exactly when the direct origin was accepted
    for sending and the estimator delivered.  With 49 arrivals the phase
    is skipped, with 50 it is entered; at 120 km it is entered, at
    121 km skipped.  When it is skipped the run ends as the direct
    iteration left it. *)
Theorem depth_phase_entry (env : Env) (app : App) (eventID : string)
  (event : Event) (origin : Origin) :
  loadEvent env eventID = Some event ->
  loadOriginWithoutArrivals env (preferredOriginID event) = Some origin ->
  let s := directStep env app eventID origin in
  exists app' tr,
    processEvent env app eventID = Finished app' tr
    /\ (entersDepthPhase tr = true <->
        exists r d,
          l_relocated (s_locals s) = Some r
          /\ depthFromDepthPhases (s_locals s) = Some d
          /\ (50 <= arrivalCount r)%nat /\ (depth r <= 120)%Q)
    /\ (forall d,
          depthFromDepthPhases (s_locals s) = Some d <->
          flow s = Next /\
          exists r0,
            relocate env (loadPicksForOrigin env origin) eventID
              (directFixedDepth env app origin) (minDepth app)
              (maxResidual app) = Some r0
            /\ (5 <= arrivalCount r0)%nat
            /\ noImprovement env app eventID direct (stamp env app r0)
               = false
            /\ l_relocated (s_locals s) = Some (stamp env app r0)
            /\ computeDepth env eventID = Some d)
    /\ (forall r d,
          l_relocated (s_locals s) = Some r ->
          depthFromDepthPhases (s_locals s) = Some d ->
          (arrivalCount r = 49%nat -> entersDepthPhase tr = false)
          /\ (arrivalCount r = 50%nat -> (depth r == 120)%Q ->
              entersDepthPhase tr = true)
          /\ ((50 <= arrivalCount r)%nat -> (depth r == 121)%Q ->
              entersDepthPhase tr = false))
    /\ (entersDepthPhase tr = false -> app' = s_app s /\ tr = s_trace s).
Proof.
  intros He Ho s.
  assert (Hlocals := directStep_locals env app eventID origin).
  cbv zeta in Hlocals. fold s in Hlocals.
  assert (Hmain : exists app' tr,
    processEvent env app eventID = Finished app' tr
    /\ (entersDepthPhase tr = true <->
        exists r d,
          l_relocated (s_locals s) = Some r
          /\ depthFromDepthPhases (s_locals s) = Some d
          /\ (50 <= arrivalCount r)%nat /\ (depth r <= 120)%Q)
    /\ (entersDepthPhase tr = false -> app' = s_app s /\ tr = s_trace s)).
  { rewrite (processEvent_steps env app eventID event origin He Ho).
    cbv zeta. fold s.
    pose proof (directStep_no_depth_call env app eventID origin) as Hno.
    fold s in Hno.
    assert (Hstop : flow s <> Next ->
      exists app' tr,
        Finished (s_app s) (s_trace s) = Finished app' tr
        /\ (entersDepthPhase tr = true <->
            exists r d,
              l_relocated (s_locals s) = Some r
              /\ depthFromDepthPhases (s_locals s) = Some d
              /\ (50 <= arrivalCount r)%nat /\ (depth r <= 120)%Q)
        /\ (entersDepthPhase tr = false ->
            app' = s_app s /\ tr = s_trace s)).
    { intros Hflow. exists (s_app s), (s_trace s).
      split; [reflexivity|]. split; [|auto].
      rewrite Hno. split; [discriminate|].
      intros (r & d & _ & Hd & _). apply Hlocals in Hd.
      destruct Hd as [Hd _]. contradiction. }
    destruct (flow s) eqn:Hflow;
      [|apply Hstop; discriminate|apply Hstop; discriminate].
    clear Hstop.
    destruct (depthStep_enters env eventID (s_app s) (s_locals s))
      as [Hiff Hskip].
    eexists _, _. split; [reflexivity|].
    rewrite entersDepthPhase_app, Hno. simpl.
    split.
    - rewrite Hiff. apply depthPhaseGuard_Some.
    - intros Hf. destruct (Hskip Hf) as [-> ->].
      rewrite app_nil_r. auto. }
  destruct Hmain as (app' & tr & Hrun & Hiff & Hskip).
  exists app', tr. split; [exact Hrun|]. split; [exact Hiff|].
  split; [exact Hlocals|]. split; [|exact Hskip].
  intros r d Hr Hd. split; [|split].
  - intros Hn. apply not_true_is_false. intros Ht. apply Hiff in Ht.
    destruct Ht as (r' & d' & Hr' & _ & Hc & _).
    rewrite Hr in Hr'. injection Hr' as <-. lia.
  - intros Hn Hz. apply Hiff. exists r, d.
    repeat split; try assumption; [lia|]. rewrite Hz. apply Qle_refl.
  - intros Hn Hz. apply not_true_is_false. intros Ht. apply Hiff in Ht.
    destruct Ht as (r' & d' & Hr' & _ & _ & Hdepth).
    rewrite Hr in Hr'. injection Hr' as <-. rewrite Hz in Hdepth.
    revert Hdepth. vm_compute. intros H. apply H. reflexivity.
Qed.

(** Direct origins with 49 arrivals at 35 km, 50 arrivals at 120 km and
    50 arrivals at 121 km, each with an estimate of 40 km at hand. *)
Lemma depth_phase_entry_witness :
  entersDepthPhase
    (outcome_trace (processEvent (boundaryEnv 49 35) freshApp "ev1"))
  = false
  /\ entersDepthPhase
       (outcome_trace (processEvent (boundaryEnv 50 120) freshApp "ev1"))
     = true
  /\ entersDepthPhase
       (outcome_trace (processEvent (boundaryEnv 50 121) freshApp "ev1"))
     = false.
Proof.
  split; [|split].
  - destruct (depth_phase_entry (boundaryEnv 49 35) freshApp "ev1"
                theEvent (originAged 1800 None) eq_refl eq_refl)
      as (app' & tr & Hrun & _ & _ & Hb & _).
    rewrite Hrun. simpl.
    destruct (Hb (stamp (boundaryEnv 49 35) freshApp (located 49 35))
                40%Q) as (H & _ & _);
      [vm_compute; reflexivity|vm_compute; reflexivity|].
    apply H. vm_compute. reflexivity.
  - destruct (depth_phase_entry (boundaryEnv 50 120) freshApp "ev1"
                theEvent (originAged 1800 None) eq_refl eq_refl)
      as (app' & tr & Hrun & _ & _ & Hb & _).
    rewrite Hrun. simpl.
    destruct (Hb (stamp (boundaryEnv 50 120) freshApp (located 50 120))
                40%Q) as (_ & H & _);
      [vm_compute; reflexivity|vm_compute; reflexivity|].
    apply H; vm_compute; reflexivity.
  - destruct (depth_phase_entry (boundaryEnv 50 121) freshApp "ev1"
                theEvent (originAged 1800 None) eq_refl eq_refl)
      as (app' & tr & Hrun & _ & _ & Hb & _).
    rewrite Hrun. simpl.
    destruct (Hb (stamp (boundaryEnv 50 121) freshApp (located 50 121))
                40%Q) as (_ & _ & H);
      [vm_compute; reflexivity|vm_compute; reflexivity|].
    apply H; vm_compute; [lia|reflexivity].
Defined.

End DepthPhaseFacts.

(** ** bin/scdlpicker.repicker.py: [_process] *)

Module ProcessPicksFacts.
Import Repicker RepickerSpec.

Lemma newAdhocPicks_fold (seen : gmap string Pick) (adhoc : list Pick) :
  newAdhocPicks seen adhoc = foldl newStep (seen, []) adhoc.
Proof. reflexivity. Qed.

Lemma Inv_step (seen : gmap string Pick)
  (st : gmap string Pick * list Pick) (pick : Pick) :
  Inv seen st -> Inv seen (newStep st pick).
Proof.
  intros (Hdom & Hnd & Hnew). unfold newStep.
  destruct (st.1 !! publicID pick) eqn:E;
    [exact (conj Hdom (conj Hnd Hnew))|].
  assert (Hfresh : ~ (is_Some (seen !! publicID pick)
                      \/ In (publicID pick) (ids st.2))).
  { rewrite <- Hdom, E. intros [x Hx]. discriminate. }
  unfold Inv, ids in *. simpl. rewrite map_app. simpl.
  split; [|split].
  - intros id. rewrite in_app_iff. simpl.
    destruct (decide (publicID pick = id)) as [<-|Hne].
    + rewrite lookup_insert_eq. split; [auto|eauto].
    + rewrite lookup_insert_ne by exact Hne. rewrite Hdom. tauto.
  - apply NoDup_app. split; [exact Hnd|]. split.
    + intros x Hx Hin. apply list_elem_of_In in Hx.
      apply list_elem_of_In in Hin. destruct Hin as [<-|[]]. tauto.
    + apply NoDup_singleton.
  - intros id. rewrite in_app_iff. simpl. intros [H|[<-|[]]].
    + apply Hnew. exact H.
    + destruct (seen !! publicID pick) eqn:Es; [|reflexivity].
      exfalso. apply Hfresh. left. eauto.
Qed.

Lemma Inv_fold (seen : gmap string Pick) (adhoc : list Pick)
  (st : gmap string Pick * list Pick) :
  Inv seen st -> Inv seen (foldl newStep st adhoc).
Proof.
  revert st. induction adhoc as [|p l IH]; intros st H; simpl.
  - exact H.
  - apply IH. apply Inv_step. exact H.
Qed.

Lemma newStep_mono (st : gmap string Pick * list Pick) (pick : Pick)
  (id : string) :
  is_Some (st.1 !! id) -> is_Some ((newStep st pick).1 !! id).
Proof.
  intros H. unfold newStep. destruct (st.1 !! publicID pick) eqn:E;
    [exact H|]. simpl.
  destruct (decide (publicID pick = id)) as [<-|Hne].
  - rewrite lookup_insert_eq. eauto.
  - rewrite lookup_insert_ne by exact Hne. exact H.
Qed.

Lemma fold_mono (adhoc : list Pick) (st : gmap string Pick * list Pick)
  (id : string) :
  is_Some (st.1 !! id) -> is_Some ((foldl newStep st adhoc).1 !! id).
Proof.
  revert st. induction adhoc as [|p l IH]; intros st H; simpl.
  - exact H.
  - apply IH. apply newStep_mono. exact H.
Qed.

(** Every pick of the list is seen afterwards. *)
Lemma fold_covers (adhoc : list Pick) (st : gmap string Pick * list Pick)
  (p : Pick) :
  In p adhoc -> is_Some ((foldl newStep st adhoc).1 !! publicID p).
Proof.
  revert st. induction adhoc as [|q l IH]; intros st; simpl; [tauto|].
  intros [->|H].
  - apply fold_mono. unfold newStep.
    destruct (st.1 !! publicID p) eqn:E.
    + rewrite E. eauto.
    + simpl. rewrite lookup_insert_eq. eauto.
  - apply IH. exact H.
Qed.

(** Nothing is new when every pick of the list has been seen. *)
Lemma fold_all_seen (adhoc : list Pick)
  (st : gmap string Pick * list Pick) :
  (forall p, In p adhoc -> is_Some (st.1 !! publicID p)) ->
  foldl newStep st adhoc = st.
Proof.
  revert st. induction adhoc as [|q l IH]; intros st H; simpl.
  - reflexivity.
  - assert (Hq : newStep st q = st).
    { unfold newStep. destruct (H q (or_introl eq_refl)) as [x ->].
      reflexivity. }
    rewrite Hq. apply IH. intros p Hp. apply H. right. exact Hp.
Qed.

(** What a call of [_process] submits and what it leaves as seen. *)
Lemma process_spec (env : Env) (rp : Repicker) (adhoc : list Pick)
  (ev : string) :
  let pr := process env rp adhoc ev in
  let st := newAdhocPicks (seenFor rp ev) adhoc in
  concat (p_submitted pr) = st.2
  /\ seenFor (p_repicker pr) ev = st.1
  /\ (forall ev', ev' <> ev ->
                  seenFor (p_repicker pr) ev' = seenFor rp ev')
  /\ (st.2 = [] -> p_submitted pr = [] /\ p_result pr = Returned []).
Proof.
  unfold process, seenFor.
  assert (Hother : forall ws ev',
    ev' <> ev ->
    match workspaces (set_workspaces (<[ev := ws]>) rp) !! ev' with
    | Some w => picks w
    | None => ∅
    end = match workspaces rp !! ev' with
          | Some w => picks w
          | None => ∅
          end).
  { intros ws ev' Hne. simpl. rewrite lookup_insert_ne by auto.
    reflexivity. }
  assert (Hsame : forall seen ml,
    match workspaces
            (set_workspaces (<[ev := {| picks := seen; mlpicks := ml |}]>)
               rp) !! ev with
    | Some w => picks w
    | None => ∅
    end = seen).
  { intros seen ml. simpl. rewrite lookup_insert_eq. reflexivity. }
  set (workspace := match workspaces rp !! ev with
                    | Some w => w
                    | None => {| picks := ∅; mlpicks := ∅ |}
                    end).
  assert (Hws : match workspaces rp !! ev with
                | Some w => picks w
                | None => ∅
                end = picks workspace).
  { unfold workspace. destruct (workspaces rp !! ev); reflexivity. }
  rewrite Hws.
  destruct (newAdhocPicks (picks workspace) adhoc) as [seen new].
  cbv zeta. simpl fst. simpl snd.
  destruct new as [|p new].
  { cbn [p_submitted p_repicker p_result]. rewrite Hsame.
    repeat split; auto. }
  assert (Hclose : forall pr : Processed,
    p_submitted pr = [p :: new] ->
    (exists ml, p_repicker pr =
                set_workspaces
                  (<[ev := {| picks := seen; mlpicks := ml |}]>) rp) ->
    concat (p_submitted pr) = p :: new
    /\ match workspaces (p_repicker pr) !! ev with
       | Some w => picks w
       | None => ∅
       end = seen
    /\ (forall ev', ev' <> ev ->
          match workspaces (p_repicker pr) !! ev' with
          | Some w => picks w
          | None => ∅
          end = match workspaces rp !! ev' with
                | Some w => picks w
                | None => ∅
                end)
    /\ (p :: new = [] -> p_submitted pr = [] /\ p_result pr = Returned [])).
  { intros pr Hsub [ml Hrp]. rewrite Hsub, Hrp.
    split; [simpl; f_equal; apply app_nil_r|].
    split; [apply Hsame|].
    split; [intros ev' Hne; apply Hother; exact Hne|discriminate]. }
  apply Hclose.
  - destruct (ml_predict env (p :: new) ev) as [[|pred preds]| |];
      try reflexivity.
    destruct (forPredictions env rp seen (pred :: preds)
                (mlpicks workspace) []) as [[ml new_picks]|]; reflexivity.
  - destruct (ml_predict env (p :: new) ev) as [[|pred preds]| |];
      try (eexists; reflexivity).
    destruct (forPredictions env rp seen (pred :: preds)
                (mlpicks workspace) []) as [[ml new_picks]|];
      eexists; reflexivity.
Qed.

End ProcessPicksFacts.

Module IdempotenceFacts.
Import Repicker RepickerSpec RepickerExamples ProcessPicksFacts.

Lemma newAdhocPicks_Inv (seen : gmap string Pick) (adhoc : list Pick) :
  Inv seen (newAdhocPicks seen adhoc).
Proof.
  rewrite newAdhocPicks_fold. apply Inv_fold.
  split; [|split]; simpl.
  - intros id. tauto.
  - apply NoDup_nil. exact I.
  - intros id [].
Qed.

(** Over any sequence of calls, the picks submitted for an event are
    pairwise different by [publicID] and were not seen before. *)
Lemma submissions_fresh (env : Env) (calls : list (list Pick * string))
  (eventID : string) (rp : Repicker) :
  NoDup (ids (submissions env rp calls eventID))
  /\ forall id, In id (ids (submissions env rp calls eventID)) ->
                seenFor rp eventID !! id = None.
Proof.
  revert rp. induction calls as [|[adhoc ev] rest IH]; intros rp.
  - simpl. split; [apply NoDup_nil; exact I|intros id []].
  - cbn [submissions].
    destruct (process_spec env rp adhoc ev) as (Hsub & Hseen & Hoth & _).
    pose proof (newAdhocPicks_Inv (seenFor rp ev) adhoc)
      as (Hdom & Hnd & Hnew).
    rewrite <- Hsub in Hdom, Hnd, Hnew. rewrite <- Hseen in Hdom.
    set (pr := process env rp adhoc ev) in *.
    specialize (IH (p_repicker pr)). destruct IH as [IHnd IHnew].
    assert (Hhere :
      NoDup (ids (if String.eqb ev eventID
                  then concat (p_submitted pr) else []))
      /\ (forall id,
            In id (ids (if String.eqb ev eventID
                        then concat (p_submitted pr) else [])) ->
            seenFor rp eventID !! id = None
            /\ is_Some (seenFor (p_repicker pr) eventID !! id))
      /\ (forall id, is_Some (seenFor rp eventID !! id) ->
                     is_Some (seenFor (p_repicker pr) eventID !! id))).
    { destruct (String.eqb_spec ev eventID) as [->|Hne].
      - split; [exact Hnd|]. split.
        + intros id Hin. split; [apply Hnew; exact Hin|].
          apply Hdom. right. exact Hin.
        + intros id Hs. apply Hdom. left. exact Hs.
      - split; [apply NoDup_nil; exact I|]. split; [intros id []|].
        intros id Hs. rewrite Hoth by auto. exact Hs. }
    destruct Hhere as (Hnd' & Hnew' & Hmono).
    assert (Hrest :
      NoDup (ids ((if String.eqb ev eventID
                   then concat (p_submitted pr) else [])
                  ++ submissions env (p_repicker pr) rest eventID))
      /\ forall id,
           In id (ids ((if String.eqb ev eventID
                        then concat (p_submitted pr) else [])
                       ++ submissions env (p_repicker pr) rest eventID)) ->
           seenFor rp eventID !! id = None).
    { unfold ids in *. rewrite map_app. split.
      - apply NoDup_app. split; [exact Hnd'|]. split; [|exact IHnd].
        intros id Hin Hin'. apply list_elem_of_In in Hin.
        apply list_elem_of_In in Hin'.
        destruct (Hnew' id Hin) as [_ [x Hx]].
        rewrite (IHnew id Hin') in Hx. discriminate.
      - intros id Hin. apply in_app_or in Hin.
        destruct Hin as [Hin|Hin]; [apply Hnew'; exact Hin|].
        destruct (seenFor rp eventID !! id) eqn:E; [|reflexivity].
        exfalso. destruct (Hmono id) as [x Hx]; [eauto|].
        rewrite (IHnew id Hin) in Hx. discriminate. }
    destruct (p_result pr); try exact Hrest.
    split; [exact Hnd'|]. intros id Hin. apply Hnew'. exact Hin.
Qed.

(** C9.  For every event, over any sequence of calls of [_process] no
    [publicID] is given to the prediction twice; a call with a list whose
    picks have all been seen for the event submits nothing and returns
    the empty list; so does the second of two calls with the same
    list. *)
Theorem process_idempotent (env : Env) (rp : Repicker) (eventID : string) :
  (forall calls, NoDup (ids (submissions env rp calls eventID)))
  /\ (forall adhoc,
        (forall p, In p adhoc ->
                   is_Some (seenFor rp eventID !! publicID p)) ->
        p_result (process env rp adhoc eventID) = Returned []
        /\ p_submitted (process env rp adhoc eventID) = []
        /\ seenFor (p_repicker (process env rp adhoc eventID)) eventID
           = seenFor rp eventID)
  /\ (forall adhoc,
        let again :=
          process env (p_repicker (process env rp adhoc eventID))
            adhoc eventID in
        p_result again = Returned [] /\ p_submitted again = []).
Proof.
  assert (Hseen : forall rp' adhoc,
    (forall p, In p adhoc ->
               is_Some (seenFor rp' eventID !! publicID p)) ->
    p_result (process env rp' adhoc eventID) = Returned []
    /\ p_submitted (process env rp' adhoc eventID) = []
    /\ seenFor (p_repicker (process env rp' adhoc eventID)) eventID
       = seenFor rp' eventID).
  { intros rp' adhoc Hall.
    destruct (process_spec env rp' adhoc eventID)
      as (_ & Hs & _ & Hempty).
    rewrite newAdhocPicks_fold in Hs, Hempty.
    rewrite (fold_all_seen adhoc (seenFor rp' eventID, []) Hall)
      in Hs, Hempty.
    destruct (Hempty eq_refl) as [H1 H2]. auto. }
  split; [intros calls; apply submissions_fresh|].
  split; [apply Hseen|].
  intros adhoc again.
  destruct (Hseen (p_repicker (process env rp adhoc eventID)) adhoc)
    as (H1 & H2 & _); [|auto].
  intros p Hp.
  destruct (process_spec env rp adhoc eventID) as (_ & Hs & _).
  rewrite Hs, newAdhocPicks_fold. apply fold_covers. exact Hp.
Qed.

(** Two picks, delivered a second time for the same event: both have
    been seen, the call returns nothing. *)
Lemma process_idempotent_witness :
  p_result
    (process confidentEnv
       (p_repicker (process confidentEnv (repickerOf false) twoPicks "ev1"))
       twoPicks "ev1") = Returned [].
Proof.
  refine (proj1 (proj1 (proj2 (process_idempotent confidentEnv
            (p_repicker
               (process confidentEnv (repickerOf false) twoPicks "ev1"))
            "ev1")) twoPicks _)).
  intros p [<-|[<-|[]]]; vm_compute; eauto.
Defined.

End IdempotenceFacts.

(** ** bin/scdlpicker.repicker.py: the mailbox *)

Module MailboxFacts.
Import Repicker RepickerSpec RepickerExamples.

Lemma insert_sorted_In {A} (le : A -> A -> bool) (x y : A) (l : list A) :
  In y (insert_sorted le x l) <-> y = x \/ In y l.
Proof.
  induction l as [|z l IH]; simpl.
  - intuition.
  - destruct (le x z); simpl; [intuition|]. rewrite IH. intuition.
Qed.

Lemma py_sorted_In {A} (le : A -> A -> bool) (y : A) (l : list A) :
  In y (py_sorted le l) <-> In y l.
Proof.
  unfold py_sorted. induction l as [|x l IH]; simpl; [tauto|].
  rewrite insert_sorted_In, IH. intuition.
Qed.

(** [_findSpoolItems] lists links of the spool directory only. *)
Lemma findSpoolItems_present (rp : Repicker) (fs : FS)
  (link target : string) :
  In (link, target) (findSpoolItems rp fs) -> linkPresent rp fs link.
Proof.
  unfold findSpoolItems.
  generalize (py_sorted String.leb
                (List.filter (fun i => endswith i ".yaml")
                   (map fst (map_to_list (spool fs))))).
  intros names.
  assert (H : forall items : list (string * string),
    In (link, target)
      (foldl
         (fun (items : list (string * string)) (filename : string) =>
            let path := path_join (spoolDir rp) filename in
            match spool fs !! filename with
            | Some (Symlink target) =>
                let target := path_join (spoolDir rp) target in
                match files fs !! target with
                | None => items
                | Some _ => (items ++ [(path, target)])%list
                end
            | _ => items
            end) items names) ->
    In (link, target) items \/ linkPresent rp fs link).
  { induction names as [|name names IH]; intros items; simpl; [auto|].
    intros Hin. apply IH in Hin. destruct Hin as [Hin|Hin]; [|auto].
    destruct (spool fs !! name) as [[t|]|] eqn:E; auto.
    destruct (files fs !! path_join (spoolDir rp) t); auto.
    apply in_app_or in Hin. destruct Hin as [Hin|[Hin|[]]]; [auto|].
    injection Hin as <- _. right. exists name. rewrite E. eauto. }
  intros Hin. apply H in Hin. destruct Hin as [[]|Hin]. exact Hin.
Qed.

Lemma process_spoolDir (env : Env) (rp : Repicker) (adhoc : list Pick)
  (eventID : string) :
  spoolDir (p_repicker (process env rp adhoc eventID)) = spoolDir rp.
Proof.
  unfold process.
  destruct (newAdhocPicks _ adhoc) as [seen new].
  destruct new as [|p new]; [reflexivity|].
  destruct (ml_predict env (p :: new) eventID) as [[|pred preds]| |];
    try reflexivity.
  destruct (forPredictions env rp seen (pred :: preds) _ [])
    as [[ml new_picks]|]; reflexivity.
Qed.

(** A pass gives to [_process] only items of its list, keeps the spool
    directory of the repicker, and adds no entry to it. *)
Lemma pollItems_spec (env : Env) (reverse : bool)
  (items : list (string * string)) (rp : Repicker) (fs : FS) :
  let s := pollItems env reverse items rp fs in
  (forall item, In item (ps_delivered s) -> In item items)
  /\ spoolDir (ps_repicker s) = spoolDir rp
  /\ (forall name, is_Some (spool (ps_fs s) !! name) ->
                   is_Some (spool fs !! name)).
Proof.
  revert rp fs. induction items as [|[link target] rest IH]; intros rp fs.
  - simpl. auto.
  - cbn [pollItems]. cbv zeta.
    destruct (files fs !! target) as [records|]; [|simpl; intuition].
    destruct (negb (endswith target ".yaml")); [simpl; intuition|].
    destruct (from_end (split_slash target) 3) as [eventID|];
      [|simpl; intuition].
    pose proof (process_spoolDir env rp (readPicksFromYaml records) eventID)
      as Hdir.
    cbv zeta.
    set (pr := process env rp (readPicksFromYaml records) eventID) in *.
    assert (Hremove : forall (fs0 : FS) (name : string),
      (forall n, is_Some (spool fs0 !! n) -> is_Some (spool fs !! n)) ->
      is_Some (spool (os_remove (p_repicker pr) fs0 link) !! name) ->
      is_Some (spool fs !! name)).
    { intros fs0 name Hsub [x Hx]. simpl in Hx.
      apply map_lookup_filter_Some in Hx. apply Hsub. destruct Hx. eauto. }
    assert (Hcont : forall fs',
      (forall n, is_Some (spool fs' !! n) -> is_Some (spool fs !! n)) ->
      let s := delivered (link, target)
                 (pollItems env reverse rest (p_repicker pr) fs') in
      (forall item, In item (ps_delivered s) ->
                    In item ((link, target) :: rest))
      /\ spoolDir (ps_repicker s) = spoolDir rp
      /\ (forall name, is_Some (spool (ps_fs s) !! name) ->
                       is_Some (spool fs !! name))).
    { intros fs' Hsub.
      destruct (IH (p_repicker pr) fs') as (H1 & H2 & H3).
      cbn [delivered ps_delivered ps_repicker ps_fs].
      split; [|split].
      - intros item [<-|Hin]; [left; reflexivity|right; auto].
      - congruence.
      - intros name Hn. apply Hsub. apply H3. exact Hn. }
    assert (HhandOff : forall new_picks name,
      is_Some (spool (handOff (p_repicker pr) fs eventID link new_picks)
               !! name) ->
      is_Some (spool fs !! name)).
    { intros new_picks name. unfold handOff, os_symlink, writePicksToYaml.
      cbn [outgoing spool files].
      destruct (outgoing fs !! _); cbn [spool]; auto. }
    destruct (p_result pr) as [[|np new_picks]| |].
    + apply Hcont. intros n. apply Hremove. auto.
    + destruct (test (p_repicker pr)); [apply Hcont; auto|].
      destruct reverse.
      * cbn [ps_delivered ps_repicker ps_fs].
        split; [|split].
        -- intros item [<-|[]]. left. reflexivity.
        -- exact Hdir.
        -- intros name. apply Hremove. apply HhandOff.
      * apply Hcont. intros n. apply Hremove. apply HhandOff.
    + apply Hcont. auto.
    + cbn [ps_delivered ps_repicker ps_fs].
      split; [|split]; [|exact Hdir|auto].
      intros item [<-|[]]. left. reflexivity.
Qed.

Lemma process_test (env : Env) (rp : Repicker) (adhoc : list Pick)
  (eventID : string) :
  test (p_repicker (process env rp adhoc eventID)) = test rp.
Proof.
  unfold process.
  destruct (newAdhocPicks _ adhoc) as [seen new].
  destruct new as [|p new]; [reflexivity|].
  destruct (ml_predict env (p :: new) eventID) as [[|pred preds]| |];
    try reflexivity.
  destruct (forPredictions env rp seen (pred :: preds) _ [])
    as [[ml new_picks]|]; reflexivity.
Qed.

(** The turn of an item whose processing raised [RuntimeError], or had
    results in test mode: the file system is left as it is and the pass
    goes on. *)
Lemma pollItems_keeps_link (env : Env) (reverse : bool)
  (link target : string) (rest : list (string * string)) (rp : Repicker)
  (fs : FS) (records : list Pick) (eventID : string) :
  files fs !! target = Some records ->
  endswith target ".yaml" = true ->
  from_end (split_slash target) 3 = Some eventID ->
  let pr := process env rp (readPicksFromYaml records) eventID in
  p_result pr = RuntimeError
  \/ (test rp = true /\ exists np nps, p_result pr = Returned (np :: nps)) ->
  pollItems env reverse ((link, target) :: rest) rp fs
  = delivered (link, target)
      (pollItems env reverse rest (p_repicker pr) fs).
Proof.
  intros Hfile Hyaml Hev pr Hres. cbn [pollItems]. cbv zeta.
  rewrite Hfile, Hyaml, Hev. cbn [negb]. fold pr.
  destruct Hres as [Hr|(Ht & np & nps & Hr)]; rewrite Hr; [reflexivity|].
  unfold pr at 1. rewrite process_test, Ht. reflexivity.
Qed.

Lemma linkPresent_dir (rp rp' : Repicker) (fs : FS) (link : string) :
  spoolDir rp' = spoolDir rp ->
  linkPresent rp' fs link <-> linkPresent rp fs link.
Proof. intros H. unfold linkPresent. rewrite H. reflexivity. Qed.

(** One pass: what it delivers is in the spool directory when it
    begins, and what is not there then is not there afterwards. *)
Lemma poll_spec (env : Env) (reverse : bool) (rp : Repicker) (fs : FS)
  (link : string) :
  let s := poll env reverse rp fs in
  (forall target, In (link, target) (ps_delivered s) ->
                  linkPresent rp fs link)
  /\ spoolDir (ps_repicker s) = spoolDir rp
  /\ (~ linkPresent rp fs link -> ~ linkPresent rp (ps_fs s) link).
Proof.
  unfold poll.
  destruct (pollItems_spec env reverse
              (py_sorted (if reverse then fun x y => pair_leb y x
                          else pair_leb) (findSpoolItems rp fs)) rp fs)
    as (H1 & H2 & H3).
  split; [|split].
  - intros target Hin. apply H1 in Hin. apply py_sorted_In in Hin.
    exact (findSpoolItems_present rp fs link target Hin).
  - exact H2.
  - intros Habs (name & Hn & Hp). apply Habs. exists name.
    split; [apply H3; exact Hn|exact Hp].
Qed.

End MailboxFacts.

Module RedeliveryFacts.
Import Repicker RepickerSpec RepickerExamples MailboxFacts.

Lemma os_remove_absent (rp : Repicker) (fs : FS) (link : string) :
  ~ linkPresent rp (os_remove rp fs link) link.
Proof.
  intros (name & [x Hx] & Hp). simpl in Hx.
  apply map_lookup_filter_Some in Hx. destruct Hx as [_ Hne].
  simpl in Hne. contradiction.
Qed.

Lemma no_redeposit_dir (rp rp' : Repicker) (link : string)
  (f : FS -> FS) :
  spoolDir rp' = spoolDir rp ->
  no_redeposit rp link f -> no_redeposit rp' link f.
Proof.
  intros Hdir H fs. rewrite !(linkPresent_dir rp rp' _ link Hdir).
  apply H.
Qed.

(** As long as nobody deposits the link again, no wake delivers it. *)
Lemma run_absent (env : Env) (link : string) (externals : list (FS -> FS))
  (rp : Repicker) (fs : FS) :
  ~ linkPresent rp fs link ->
  Forall (no_redeposit rp link) externals ->
  (forall target,
      ~ In (link, target) (ps_delivered (run env externals rp fs)))
  /\ ~ linkPresent rp (ps_fs (run env externals rp fs)) link.
Proof.
  revert rp fs. induction externals as [|external rest IH];
    intros rp fs Habs Hall.
  - simpl. split; [intros target []|exact Habs].
  - inversion Hall as [|? ? Hext Hrest]; subst.
    cbn [run].
    destruct (poll_spec env true rp (external fs) link)
      as (Hdel & Hdir & Hkeep).
    pose proof (Hext fs Habs) as Habs1.
    pose proof (Hkeep Habs1) as Habs2.
    destruct (ps_crashed (poll env true rp (external fs))).
    + split; [|exact Habs2]. intros target Hin. apply Habs1.
      exact (Hdel target Hin).
    + destruct (IH (ps_repicker (poll env true rp (external fs)))
                   (ps_fs (poll env true rp (external fs))))
        as [IH1 IH2].
      * rewrite (linkPresent_dir rp _ _ link Hdir). exact Habs2.
      * eapply Forall_impl; [exact Hrest|].
        intros f Hf. exact (no_redeposit_dir rp _ link f Hdir Hf).
      * cbn [ps_delivered ps_fs]. split.
        -- intros target Hin. apply in_app_or in Hin.
           destruct Hin as [Hin|Hin].
           ++ apply Habs1. exact (Hdel target Hin).
           ++ exact (IH1 target Hin).
        -- rewrite <- (linkPresent_dir rp _ _ link Hdir). exact IH2.
Qed.

(** What is in the spool directory after the turns of a pass was there
    before them. *)
Lemma pollItems_absent (env : Env) (reverse : bool)
  (items : list (string * string)) (rp : Repicker) (fs : FS)
  (link : string) :
  ~ linkPresent rp fs link ->
  ~ linkPresent rp (ps_fs (pollItems env reverse items rp fs)) link.
Proof.
  intros Habs (name & Hn & Hp). apply Habs. exists name.
  split; [|exact Hp].
  destruct (pollItems_spec env reverse items rp fs) as (_ & _ & H).
  apply H. exact Hn.
Qed.

(** The turn of an item whose processing returned no result, or
    returned results outside test mode: the item was given to
    [_process], and the link is removed and is not in the spool
    directory when the pass ends. *)
Lemma pollItems_removes_link (env : Env) (reverse : bool)
  (link target : string) (rest : list (string * string)) (rp : Repicker)
  (fs : FS) (records : list Pick) (eventID : string) :
  files fs !! target = Some records ->
  endswith target ".yaml" = true ->
  from_end (split_slash target) 3 = Some eventID ->
  let pr := process env rp (readPicksFromYaml records) eventID in
  p_result pr = Returned []
  \/ (test rp = false /\ exists np nps, p_result pr = Returned (np :: nps)) ->
  In (link, target)
    (ps_delivered (pollItems env reverse ((link, target) :: rest) rp fs))
  /\ ~ linkPresent rp
        (ps_fs (pollItems env reverse ((link, target) :: rest) rp fs))
        link.
Proof.
  intros Hfile Hyaml Hev pr Hres. cbn [pollItems]. cbv zeta.
  rewrite Hfile, Hyaml, Hev. cbn [negb]. fold pr.
  pose proof (process_spoolDir env rp (readPicksFromYaml records) eventID)
    as Hdir. fold pr in Hdir.
  pose proof (process_test env rp (readPicksFromYaml records) eventID)
    as Htest. fold pr in Htest.
  assert (Hgone : forall fs0,
            ~ linkPresent (p_repicker pr)
                (ps_fs (pollItems env reverse rest (p_repicker pr)
                          (os_remove (p_repicker pr) fs0 link))) link).
  { intros fs0. apply pollItems_absent. apply os_remove_absent. }
  destruct Hres as [Hr|(Ht & np & nps & Hr)]; rewrite Hr.
  - cbn [delivered ps_delivered ps_fs]. split; [left; reflexivity|].
    rewrite <- (linkPresent_dir rp _ _ link Hdir). apply Hgone.
  - rewrite Htest, Ht. destruct reverse; cbn [delivered ps_delivered ps_fs].
    + split; [left; reflexivity|].
      rewrite <- (linkPresent_dir rp _ _ link Hdir).
      apply os_remove_absent.
    + split; [left; reflexivity|].
      rewrite <- (linkPresent_dir rp _ _ link Hdir). apply Hgone.
Qed.

(** The turn of an item whose processing ended with another exception:
    the pass ends there, with the file system as it was. *)
Lemma pollItems_crash (env : Env) (reverse : bool)
  (link target : string) (rest : list (string * string)) (rp : Repicker)
  (fs : FS) (records : list Pick) (eventID : string) :
  files fs !! target = Some records ->
  endswith target ".yaml" = true ->
  from_end (split_slash target) 3 = Some eventID ->
  let pr := process env rp (readPicksFromYaml records) eventID in
  p_result pr = Crashed ->
  pollItems env reverse ((link, target) :: rest) rp fs
  = {| ps_repicker := p_repicker pr; ps_fs := fs;
       ps_delivered := [(link, target)]; ps_crashed := true |}.
Proof.
  intros Hfile Hyaml Hev pr Hres. cbn [pollItems]. cbv zeta.
  rewrite Hfile, Hyaml, Hev. cbn [negb]. fold pr. rewrite Hres.
  reflexivity.
Qed.

(** C8, as the code has it.  Once the link has been removed it is not
    in the spool directory; over any number of wakes, as long as no
    other process deposits it again, the item is not delivered and the
    link stays away, whatever files exist; a pass delivers an item only
    if its link is in the spool directory when the pass begins.  The
    turn of an item whose processing returned no result, or returned
    results outside test mode, removes the link: it is not in the spool
    directory when the pass ends.  The turn of an item whose processing
    raised [RuntimeError], or had results in test mode, leaves the file
    system, the link with it, as it is, and the pass goes on; and when
    the processing ends with another exception the pass ends there, the
    file system as it was. *)
Theorem removed_link_never_redelivered (env : Env) (rp : Repicker)
  (link : string) :
  (forall fs, ~ linkPresent rp (os_remove rp fs link) link)
  /\ (forall fs externals,
        ~ linkPresent rp fs link ->
        Forall (no_redeposit rp link) externals ->
        (forall target,
            ~ In (link, target) (ps_delivered (run env externals rp fs)))
        /\ ~ linkPresent rp (ps_fs (run env externals rp fs)) link)
  /\ (forall fs reverse target,
        In (link, target) (ps_delivered (poll env reverse rp fs)) ->
        linkPresent rp fs link)
  /\ (forall fs reverse target rest records eventID,
        files fs !! target = Some records ->
        endswith target ".yaml" = true ->
        from_end (split_slash target) 3 = Some eventID ->
        let pr := process env rp (readPicksFromYaml records) eventID in
        p_result pr = RuntimeError
        \/ (test rp = true
            /\ exists np nps, p_result pr = Returned (np :: nps)) ->
        pollItems env reverse ((link, target) :: rest) rp fs
        = delivered (link, target)
            (pollItems env reverse rest (p_repicker pr) fs))
  /\ (forall fs reverse target rest records eventID,
        files fs !! target = Some records ->
        endswith target ".yaml" = true ->
        from_end (split_slash target) 3 = Some eventID ->
        let pr := process env rp (readPicksFromYaml records) eventID in
        p_result pr = Returned []
        \/ (test rp = false
            /\ exists np nps, p_result pr = Returned (np :: nps)) ->
        In (link, target)
          (ps_delivered
             (pollItems env reverse ((link, target) :: rest) rp fs))
        /\ ~ linkPresent rp
              (ps_fs (pollItems env reverse ((link, target) :: rest) rp fs))
              link)
  /\ (forall fs reverse target rest records eventID,
        files fs !! target = Some records ->
        endswith target ".yaml" = true ->
        from_end (split_slash target) 3 = Some eventID ->
        let pr := process env rp (readPicksFromYaml records) eventID in
        p_result pr = Crashed ->
        pollItems env reverse ((link, target) :: rest) rp fs
        = {| ps_repicker := p_repicker pr; ps_fs := fs;
             ps_delivered := [(link, target)]; ps_crashed := true |}).
Proof.
  split; [intros fs; apply os_remove_absent|].
  split; [intros fs externals; apply run_absent|].
  split.
  { intros fs reverse target.
    destruct (poll_spec env reverse rp fs link) as (H & _). apply H. }
  split.
  { intros fs reverse target rest records eventID.
    apply pollItems_keeps_link. }
  split.
  - intros fs reverse target rest records eventID.
    apply pollItems_removes_link.
  - intros fs reverse target rest records eventID.
    apply pollItems_crash.
Qed.

(** The link of [oneLink] has been handed off and removed by a first
    pass; its payload is still there; three more wakes do not deliver
    it. *)
Lemma removed_link_never_redelivered_witness :
  is_Some
    (files (ps_fs (poll confidentEnv true (repickerOf false) oneLink))
     !! theTarget)
  /\ ~ linkPresent (repickerOf false)
        (ps_fs
           (pollItems confidentEnv true [(theLink, theTarget)]
              (repickerOf false) oneLink)) theLink
  /\ ~ In (theLink, theTarget)
         (ps_delivered
            (run confidentEnv [id; id; id]
               (ps_repicker
                  (poll confidentEnv true (repickerOf false) oneLink))
               (ps_fs
                  (poll confidentEnv true (repickerOf false) oneLink)))).
Proof.
  split; [vm_compute; eauto|].
  split.
  { destruct (removed_link_never_redelivered confidentEnv
                (repickerOf false) theLink) as (_ & _ & _ & _ & H & _).
    apply (H oneLink true theTarget [] twoPicks "ev1");
      [vm_compute; reflexivity..|].
    right. split; [reflexivity|]. vm_compute. eauto. }
  refine (proj1 (proj1 (proj2 (removed_link_never_redelivered confidentEnv
            (ps_repicker (poll confidentEnv true (repickerOf false) oneLink))
            theLink))
            (ps_fs (poll confidentEnv true (repickerOf false) oneLink))
            [id; id; id] _ _) theTarget).
  - intros (name & Hn & _).
    assert (Hempty :
      spool (ps_fs (poll confidentEnv true (repickerOf false) oneLink))
      = ∅) by (vm_compute; reflexivity).
    rewrite Hempty, lookup_empty in Hn. destruct Hn as [x Hx].
    discriminate Hx.
  - repeat constructor; intros fs H; exact H.
Defined.

(** C8, as it is worded: in test mode a pass with results leaves the
    link where it is, and the next pass delivers the item again; neither
    pass crashes. *)
Lemma test_mode_redelivers :
  ~ no_redelivery_without_crash confidentEnv (repickerOf true) oneLink.
Proof.
  intros H.
  apply (H ltac:(vm_compute; reflexivity) ltac:(vm_compute; reflexivity)
           (theLink, theTarget)).
  - vm_compute. left. reflexivity.
  - vm_compute. left. reflexivity.
Qed.

(** Outside test mode as well: a pass whose prediction raises
    [RuntimeError] leaves the link, and the next pass delivers the item
    again. *)
Lemma runtime_error_redelivers :
  ~ no_redelivery_without_crash failingEnv (repickerOf false) oneLink.
Proof.
  intros H.
  apply (H ltac:(vm_compute; reflexivity) ltac:(vm_compute; reflexivity)
           (theLink, theTarget)).
  - vm_compute. left. reflexivity.
  - vm_compute. left. reflexivity.
Qed.

End RedeliveryFacts.

(** * Further properties of the code *)

(** ** lib/inventory.py: the iterator *)

Module IteratorFacts.
Import Inventory InventoryExamples.

Lemma in_flat_map_if {A B} (P : A -> bool) (f : A -> list B) (l : list A)
  (y : B) :
  In y (flat_map (fun x => if P x then f x else []) l)
  <-> exists x, In x l /\ P x = true /\ In y (f x).
Proof.
  rewrite in_flat_map. split.
  - intros (x & Hx & Hy). destruct (P x) eqn:E; [|destruct Hy]. eauto.
  - intros (x & Hx & HP & Hy). exists x. rewrite HP. auto.
Qed.

Lemma sublist_flat_map {A B} (f g : A -> list B) (l : list A) :
  (forall x, sublist (f x) (g x)) ->
  sublist (flat_map f l) (flat_map g l).
Proof.
  intros H. induction l as [|x l IH]; simpl; [constructor|].
  apply sublist_app; auto.
Qed.

Lemma sublist_if_nil {B} (b : bool) (l l' : list B) :
  sublist l l' -> sublist (if b then l else []) l'.
Proof. intros H. destruct b; [exact H|apply sublist_nil_l]. Qed.

(** The iterator yields a stream, with the location, station and network
    above it, exactly when all four are kept: operational at [time], or
    no [time] given; and what it yields for a time is, in the same order,
    part of what it yields without one. *)
Theorem InventoryIterator_spec (inventory : list Network)
  (time : option Q) (network : Network) (station : Station)
  (location : SensorLocation) (stream : Stream) :
  (In (network, station, location, stream)
      (InventoryIterator inventory time)
   <-> In network inventory /\ In station (stations network)
       /\ In location (sensorLocations station)
       /\ In stream (streams location)
       /\ kept time (network_epoch network) = true
       /\ kept time (station_epoch station) = true
       /\ kept time (location_epoch location) = true
       /\ kept time (stream_epoch stream) = true)
  /\ sublist (InventoryIterator inventory time)
             (InventoryIterator inventory None).
Proof.
  split.
  - unfold InventoryIterator. rewrite in_flat_map_if. split.
    + intros (n & Hn & Kn & H). rewrite in_flat_map_if in H.
      destruct H as (s & Hs & Ks & H). rewrite in_flat_map_if in H.
      destruct H as (l & Hl & Kl & H). rewrite in_flat_map_if in H.
      destruct H as (c & Hc & Kc & [H|[]]).
      injection H as <- <- <- <-. tauto.
    + intros (Hn & Hs & Hl & Hc & Kn & Ks & Kl & Kc).
      exists network. repeat split; try assumption.
      rewrite in_flat_map_if. exists station. repeat split; try assumption.
      rewrite in_flat_map_if. exists location. repeat split; try assumption.
      rewrite in_flat_map_if. exists stream. repeat split; try assumption.
      left. reflexivity.
  - unfold InventoryIterator.
    apply sublist_flat_map. intros n. apply sublist_if_nil.
    apply sublist_flat_map. intros s. apply sublist_if_nil.
    apply sublist_flat_map. intros l. apply sublist_if_nil.
    apply sublist_flat_map. intros c. apply sublist_if_nil.
    reflexivity.
Qed.

(** At time 200 the stream [SHZ], closed at 140, is not listed; [BHZ]
    is. *)
Lemma InventoryIterator_spec_witness :
  In (ge, ugm, loc00, bhz) (InventoryIterator [ge] (Some 200%Q))
  /\ ~ In (ge, ugm, loc00, shz) (InventoryIterator [ge] (Some 200%Q)).
Proof.
  split.
  - apply (proj1 (InventoryIterator_spec [ge] (Some 200%Q) ge ugm loc00 bhz)).
    repeat split; simpl; auto.
  - intros H.
    apply (proj1 (InventoryIterator_spec [ge] (Some 200%Q) ge ugm loc00 shz))
      in H.
    destruct H as (_ & _ & _ & _ & _ & _ & _ & H). vm_compute in H.
    discriminate H.
Defined.

End IteratorFacts.

(** ** The improvement test: the three sets and the score *)

Module ComparePicksFacts.
Import Relocator RelocatorSpec RelocatorExamples ImprovementFacts
       ImprovementTheorem.

(** A turn of the loop of [getPicksReferencedByOrigin] adds one pick at
    most. *)
Lemma getPicks_size (env : Env) (mw : Q) (l : list Arrival)
  (acc : gmap string Pick) :
  size
    (foldl
       (fun (picks : gmap string Pick) (arr : Arrival) =>
          let pickID := arr_pickID arr in
          if String.eqb pickID "" then picks
          else match arr_weight arr with
               | None => picks
               | Some w =>
                   if Qltb w mw then picks
                   else match pickFind env pickID with
                        | None => picks
                        | Some pick => <[pickID := pick]> picks
                        end
               end) acc l)
  <= size acc + length l.
Proof.
  revert acc. induction l as [|a l IH]; intros acc; simpl; [lia|].
  etransitivity; [apply IH|].
  destruct (String.eqb (arr_pickID a) ""); [lia|].
  destruct (arr_weight a) as [w|]; [|lia].
  destruct (Qltb w mw); [lia|].
  destruct (pickFind env (arr_pickID a)) as [pk|]; [|lia].
  rewrite map_size_insert. destruct (acc !! arr_pickID a); simpl; lia.
Qed.

Lemma filter_both_size (m1 m2 : gmap string Pick) :
  size (filter (fun kv : string * Pick => is_Some (m2 !! kv.1)) m1)
  = size (filter (fun kv : string * Pick => is_Some (m1 !! kv.1)) m2).
Proof.
  rewrite <- !size_dom. f_equal. apply set_eq. intros id.
  rewrite !elem_of_dom. rewrite !filter_is_Some. simpl. split.
  - intros (x & Hx & [y Hy]). exists y. split; [exact Hy|eauto].
  - intros (y & Hy & [x Hx]). exists x. split; [exact Hx|eauto].
Qed.

Lemma filter_split_size (m1 m2 : gmap string Pick) :
  size (filter (fun kv : string * Pick => ¬ is_Some (m2 !! kv.1)) m1)
  + size (filter (fun kv : string * Pick => is_Some (m2 !! kv.1)) m1)
  = size m1.
Proof.
  rewrite Nat.add_comm. rewrite <- map_size_disj_union.
  - rewrite map_filter_union_complement. reflexivity.
  - apply map_disjoint_filter_complement.
Qed.

(** The counts are the sizes of the two dictionaries of picks. *)
Lemma counts_sizes (env : Env) (o1 o2 : Origin) :
  count1 env o1 o2 = size (getPicksReferencedByOrigin env o1 (1 # 2))
  /\ count2 env o1 o2 = size (getPicksReferencedByOrigin env o2 (1 # 2)).
Proof.
  unfold count1, count2, onlyPrevious, onlyCandidate, common, comparePicks.
  cbn [fst snd]. split.
  - apply filter_split_size.
  - rewrite filter_both_size. apply filter_split_size.
Qed.

(** [comparePicks] splits the picks of the two origins in three: the
    common ones and those of the first origin only make up the picks of
    the first, the common ones and those of the second only the picks of
    the second, and no pick is in two of the sets; so [count1] and
    [count2] are the numbers of different picks the two origins refer to,
    and neither exceeds the number of arrivals of its origin. *)
Theorem comparePicks_partition (env : Env) (o1 o2 : Origin) :
  common env o1 o2 ∪ onlyPrevious env o1 o2
  = getPicksReferencedByOrigin env o1 (1 # 2)
  /\ dom (common env o1 o2) ∪ dom (onlyCandidate env o1 o2)
     = dom (getPicksReferencedByOrigin env o2 (1 # 2))
  /\ common env o1 o2 ##ₘ onlyPrevious env o1 o2
  /\ common env o1 o2 ##ₘ onlyCandidate env o1 o2
  /\ onlyPrevious env o1 o2 ##ₘ onlyCandidate env o1 o2
  /\ count1 env o1 o2 = size (getPicksReferencedByOrigin env o1 (1 # 2))
  /\ count2 env o1 o2 = size (getPicksReferencedByOrigin env o2 (1 # 2))
  /\ count1 env o1 o2 <= arrivalCount o1
  /\ count2 env o1 o2 <= arrivalCount o2.
Proof.
  destruct (counts_sizes env o1 o2) as [Hc1 Hc2].
  assert (Hbound : forall o,
    size (getPicksReferencedByOrigin env o (1 # 2)) <= arrivalCount o).
  { intros o. unfold getPicksReferencedByOrigin, arrivalCount.
    etransitivity; [apply getPicks_size|]. rewrite map_size_empty. lia. }
  unfold common, onlyPrevious, onlyCandidate, comparePicks in *.
  cbn [fst snd] in *.
  set (picks1 := getPicksReferencedByOrigin env o1 (1 # 2)) in *.
  set (picks2 := getPicksReferencedByOrigin env o2 (1 # 2)) in *.
  split; [apply map_filter_union_complement|].
  split.
  { apply set_eq. intros id. rewrite elem_of_union, !elem_of_dom.
    rewrite !filter_is_Some. simpl. split.
    - intros [(x & Hx & Hy)|(y & Hy & _)]; [exact Hy|eauto].
    - intros [y Hy]. destruct (picks1 !! id) as [x|] eqn:E.
      + left. exists x. split; [reflexivity|eauto].
      + right. exists y. split; [exact Hy|].
        intros [x Hx]. simpl in Hx. congruence. }
  split; [apply map_disjoint_filter_complement|].
  split.
  { apply map_disjoint_spec. intros id x y Hx Hy.
    apply map_lookup_filter_Some in Hx. apply map_lookup_filter_Some in Hy.
    destruct Hx as [Hx _]. destruct Hy as [_ Hy]. apply Hy. simpl. eauto. }
  split.
  { apply map_disjoint_spec. intros id x y Hx Hy.
    apply map_lookup_filter_Some in Hx. apply map_lookup_filter_Some in Hy.
    destruct Hx as [Hx _]. destruct Hy as [_ Hy]. apply Hy. simpl. eauto. }
  split; [exact Hc1|]. split; [exact Hc2|].
  split; [rewrite Hc1|rewrite Hc2]; apply Hbound.
Qed.

Lemma Qofnat_pos (n : nat) : n <> 0 -> (0 < Qofnat n)%Q.
Proof.
  intros H. unfold Qofnat, Qlt. simpl. lia.
Qed.

Lemma rms_pos (o : Origin) : (0 < rms1 o)%Q /\ (0 < rms2 o)%Q.
Proof.
  unfold rms1, rms2. destruct (standardError o) as [e|];
    [|split; reflexivity].
  split; (apply Qlt_le_trans with 1%Q; [reflexivity|apply Q.le_max_r]).
Qed.

Lemma Qdiv_same (x : Q) : (0 < x)%Q -> (x / x == 1)%Q.
Proof.
  intros H. apply Qmult_inv_r. intros E. rewrite E in H. discriminate.
Qed.

(** The score of an origin against itself, in double precision: the
    quotient of the counts is exactly 1.0 and so is its square. *)
Lemma score64_itself (env : Env) (o : Origin) :
  count1 env o o <> 0 ->
  score64 env o o = fl (1 * fl (rms1 o / rms2 o)).
Proof.
  intros E. unfold score64.
  assert (Hsame : count2 env o o = count1 env o o).
  { destruct (counts_sizes env o o) as [-> ->]. reflexivity. }
  rewrite Hsame.
  rewrite (fl_proper _ 1 (Qdiv_same _ (Qofnat_pos _ E))).
  reflexivity.
Qed.

(** An origin against itself: no improvement when it refers to some pick
    and its standard error can be read; an improvement when the standard
    error cannot be read (the defaults 10 and 1 differ) or when it refers
    to no pick. *)
Theorem improvement_on_itself (env : Env) (o : Origin) :
  (forall e, standardError o = Some e -> count1 env o o <> 0 ->
             improvement env o o = false)
  /\ (standardError o = None -> improvement env o o = true)
  /\ (count1 env o o = 0 -> improvement env o o = true).
Proof.
  split; [|split].
  - intros e He E. rewrite improvement_score64.
    destruct (Nat.eqb_spec (count1 env o o) 0) as [E'|_]; [contradiction|].
    rewrite (score64_itself env o E).
    assert (Hr : (rms1 o / rms2 o == 1)%Q).
    { assert (Heq : rms2 o = rms1 o) by (unfold rms1, rms2; rewrite He;
                                          reflexivity).
      rewrite Heq. apply Qdiv_same. apply (rms_pos o). }
    rewrite (fl_proper _ 1 Hr). vm_compute. reflexivity.
  - intros He. rewrite improvement_score64.
    destruct (Nat.eqb_spec (count1 env o o) 0) as [E|E]; [reflexivity|].
    rewrite (score64_itself env o E).
    unfold rms1, rms2. rewrite He. vm_compute. reflexivity.
  - intros E. rewrite improvement_unfold, E. reflexivity.
Qed.

(** The origin of the examples with ten picks: with its standard error
    of 2 it does not improve on itself. *)
Lemma improvement_on_itself_witness :
  improvement quietEnv previous10 previous10 = false.
Proof.
  refine (proj1 (improvement_on_itself quietEnv previous10) 2%Q _ _).
  - reflexivity.
  - vm_compute. discriminate.
Defined.

End ComparePicksFacts.

(** ** Order of strings, and [sorted] *)

Lemma String_compare_le_trans (a b c : string) :
  String.compare a b <> Gt -> String.compare b c <> Gt ->
  String.compare a c <> Gt.
Proof.
  revert b c. induction a as [|x a IH]; intros [|y b] [|z c]; simpl;
    try congruence.
  unfold Ascii.compare.
  destruct (N.compare_spec (N_of_ascii x) (N_of_ascii y)) as [Exy|Lxy|Gxy];
    destruct (N.compare_spec (N_of_ascii y) (N_of_ascii z)) as [Eyz|Lyz|Gyz];
    destruct (N.compare_spec (N_of_ascii x) (N_of_ascii z)) as [Exz|Lxz|Gxz];
    try congruence; try lia.
  apply IH.
Qed.

Lemma String_leb_trans (a b c : string) :
  String.leb a b = true -> String.leb b c = true -> String.leb a c = true.
Proof.
  unfold String.leb. intros Hab Hbc.
  pose proof (String_compare_le_trans a b c) as H.
  destruct (String.compare a b); destruct (String.compare b c);
    destruct (String.compare a c); try reflexivity; try discriminate;
    exfalso; apply H; congruence.
Qed.

Section Sorted.
Context {A : Type} (le : A -> A -> bool).
Hypothesis le_total : forall x y, le x y = true \/ le y x = true.
Hypothesis le_trans :
  forall x y z, le x y = true -> le y z = true -> le x z = true.

Lemma insert_sorted_Forall (P : A -> Prop) (x : A) (l : list A) :
  P x -> Forall P l -> Forall P (insert_sorted le x l).
Proof.
  intros Hx Hl. induction Hl as [|y l Hy Hl IH]; simpl.
  - constructor; [exact Hx|constructor].
  - destruct (le x y); repeat constructor; assumption.
Qed.

Lemma insert_sorted_sorted (x : A) (l : list A) :
  StronglySorted (fun a b => le a b = true) l ->
  StronglySorted (fun a b => le a b = true) (insert_sorted le x l).
Proof.
  intros Hl. induction Hl as [|y l Hl IH Hy]; simpl.
  - repeat constructor.
  - destruct (le x y) eqn:E.
    + constructor; [constructor; assumption|].
      constructor; [exact E|].
      eapply Forall_impl; [exact Hy|].
      intros z Hz. simpl in Hz. exact (le_trans x y z E Hz).
    + constructor; [exact IH|].
      apply insert_sorted_Forall; [|exact Hy].
      destruct (le_total x y) as [H|H]; [congruence|exact H].
Qed.

Lemma py_sorted_sorted (l : list A) :
  StronglySorted (fun a b => le a b = true) (py_sorted le l).
Proof.
  unfold py_sorted. induction l as [|x l IH]; simpl.
  - constructor.
  - apply insert_sorted_sorted. exact IH.
Qed.

End Sorted.

Lemma insert_sorted_Permutation {A} (le : A -> A -> bool) (x : A)
  (l : list A) : insert_sorted le x l ≡ₚ x :: l.
Proof.
  induction l as [|y l IH]; simpl; [reflexivity|].
  destruct (le x y); [reflexivity|].
  rewrite IH. apply Permutation_swap.
Qed.

Lemma py_sorted_Permutation {A} (le : A -> A -> bool) (l : list A) :
  py_sorted le l ≡ₚ l.
Proof.
  unfold py_sorted. induction l as [|x l IH]; simpl; [reflexivity|].
  rewrite insert_sorted_Permutation, IH. reflexivity.
Qed.

Lemma StronglySorted_sublist {A} (R : A -> A -> Prop) (k l : list A) :
  sublist k l -> StronglySorted R l -> StronglySorted R k.
Proof.
  intros Hsub. induction Hsub as [|x k l Hsub IH|x k l Hsub IH];
    intros Hl.
  - constructor.
  - inversion Hl as [|? ? Hl' Hx]; subst. constructor; [auto|].
    apply Forall_forall. intros y Hy.
    rewrite Forall_forall in Hx. apply Hx.
    exact (elem_of_sublist _ _ _ Hy Hsub).
  - inversion Hl; subst. auto.
Qed.

(** ** The readiness gate and the sweep: what they leave alone *)

Module SweepFacts.
Import Relocator RelocatorSpec RelocatorExamples ReadinessFacts
       RejectionFacts.

Lemma cachedApp_frame (app : App) (evt : Event) (org : Origin) :
  relocated (cachedApp app evt org) = relocated app
  /\ settings (cachedApp app evt org) = settings app
  /\ origins app ⊆ origins (cachedApp app evt org).
Proof.
  unfold cachedApp.
  destruct (origins app !! preferredOriginID evt) eqn:E; simpl.
  - repeat split. reflexivity.
  - repeat split. apply insert_subseteq. exact E.
Qed.

(** [readyToProcess] answers [True] only for a pending event whose
    preferred origin is in the cache afterwards, is old enough, is not the
    relocator's own and is qualified, and then the pending set is as
    before.  Whatever it answers, it leaves the cache of relocations and
    the configuration as they are, takes nothing out of the cache of
    origins, and adds nothing to the pending set. *)
Theorem readyToProcess_frame (env : Env) (app : App) (eventID : string) :
  ((readyToProcess env app eventID).1 = true ->
   exists evt org,
     pendingEvents app !! eventID = Some evt
     /\ preferredOrigin env app evt = Some org
     /\ origins (readyToProcess env app eventID).2
        !! preferredOriginID evt = Some org
     /\ (minDelay app <= elapsed env org)%Q
     /\ origin_author org <> author app
     /\ qualified env org = true
     /\ pendingEvents (readyToProcess env app eventID).2
        = pendingEvents app)
  /\ relocated (readyToProcess env app eventID).2 = relocated app
  /\ settings (readyToProcess env app eventID).2 = settings app
  /\ origins app ⊆ origins (readyToProcess env app eventID).2
  /\ pendingEvents (readyToProcess env app eventID).2 ⊆ pendingEvents app.
Proof.
  destruct (pendingEvents app !! eventID) as [evt|] eqn:Hp.
  2:{ rewrite (readyToProcess_absent env app eventID Hp). simpl.
      split; [discriminate|]. repeat split; reflexivity. }
  destruct (preferredOrigin env app evt) as [org|] eqn:Ho.
  2:{ assert (Hr : readyToProcess env app eventID = (false, app)).
      { unfold readyToProcess, preferredOrigin in *. rewrite Hp.
        destruct (origins app !! preferredOriginID evt); [discriminate|].
        rewrite Ho. reflexivity. }
      rewrite Hr. simpl. split; [discriminate|].
      repeat split; reflexivity. }
  rewrite (readyToProcess_fetched env app eventID evt org Hp Ho).
  cbv zeta.
  destruct (cachedApp_frame app evt org) as (Hrel & Hset & Horg).
  pose proof (cachedApp_pending app evt org) as Hpend.
  assert (Hcached :
    origins (cachedApp app evt org) !! preferredOriginID evt = Some org).
  { unfold cachedApp, preferredOrigin in *.
    destruct (origins app !! preferredOriginID evt) as [o|] eqn:E.
    - congruence.
    - simpl. apply lookup_insert_eq. }
  assert (Hdel : forall a : App,
    pendingEvents a = pendingEvents app ->
    pendingEvents (set_pendingEvents (delete eventID) a)
    ⊆ pendingEvents app).
  { intros a Ha. simpl. rewrite Ha. apply delete_subseteq. }
  destruct (Qltb (elapsed env org) (minDelay app)) eqn:Hdt.
  { simpl. split; [discriminate|].
    rewrite Hpend. repeat split; auto. }
  apply Qltb_ge in Hdt.
  destruct (String.eqb_spec (origin_author org) (author app)) as [Ha|Ha].
  { cbn [fst snd]. split; [discriminate|].
    split; [exact Hrel|]. split; [exact Hset|]. split; [exact Horg|].
    apply Hdel. exact Hpend. }
  destruct (qualified env org) eqn:Hq; cbn [negb fst snd].
  - split.
    + intros _. exists evt, org. repeat split; auto.
    + rewrite Hpend. repeat split; auto.
  - split; [discriminate|].
    split; [exact Hrel|]. split; [exact Hset|]. split; [exact Horg|].
    apply Hdel. exact Hpend.
Qed.

(** An origin half an hour old by somebody else: ready, and still
    pending after the call. *)
Lemma readyToProcess_frame_witness :
  pendingEvents
    (readyToProcess clockEnv (pendingWith (originAged 1800 None)) "ev1").2
  !! "ev1" = Some theEvent.
Proof.
  destruct (proj1 (readyToProcess_frame clockEnv
                     (pendingWith (originAged 1800 None)) "ev1"))
    as (evt & org & _ & _ & _ & _ & _ & _ & H).
  - vm_compute. reflexivity.
  - rewrite H. reflexivity.
Defined.

Lemma sweep_spec (env : Env) (ids : list string) (app : App) :
  sublist (sw_processed (sweep env ids app)) ids
  /\ pendingEvents (sw_app (sweep env ids app)) ⊆ pendingEvents app
  /\ forall id, In id (sw_processed (sweep env ids app)) ->
                is_Some (pendingEvents app !! id)
                /\ pendingEvents (sw_app (sweep env ids app)) !! id = None.
Proof.
  revert app. induction ids as [|id rest IH]; intros app; simpl.
  - split; [constructor|]. split; [reflexivity|]. intros id [].
  - destruct (readyToProcess_frame env app id)
      as (Hready & _ & _ & _ & Hsub).
    destruct (readyToProcess env app id) as [ready app1]. simpl in *.
    destruct ready.
    2:{ destruct (IH app1) as (H1 & H2 & H3).
        split; [apply sublist_cons; exact H1|].
        split; [etransitivity; eassumption|].
        intros id' Hin. destruct (H3 id' Hin) as [[x Hx] Hn].
        split; [|exact Hn].
        exists x. exact (lookup_weaken _ _ _ _ Hx Hsub). }
    destruct (Hready eq_refl) as (evt & org & Hp & _ & _ & _ & _ & _ & Heq).
    pose proof (processEvent_pending env
                  (set_pendingEvents (delete id) app1) id) as Hpe.
    assert (Hdel : delete id (pendingEvents app1) ⊆ pendingEvents app).
    { etransitivity; [apply delete_subseteq|exact Hsub]. }
    destruct (processEvent env (set_pendingEvents (delete id) app1) id)
      as [app3 tr|app3 tr]; simpl in Hpe |- *.
    + destruct (IH app3) as (H1 & H2 & H3). rewrite Hpe in H2.
      split; [apply sublist_skip; exact H1|].
      split; [etransitivity; eassumption|].
      intros id' [<-|Hin].
      * split; [eauto|].
        apply (lookup_weaken_None _ _ _ (lookup_delete_eq _ _) H2).
      * destruct (H3 id' Hin) as [[x Hx] Hn]. split; [|exact Hn].
        rewrite Hpe in Hx. exists x. exact (lookup_weaken _ _ _ _ Hx Hdel).
    + split; [apply sublist_skip; apply sublist_nil_l|].
      split; [rewrite Hpe; exact Hdel|].
      intros id' [<-|[]]. split; [eauto|].
      rewrite Hpe. apply lookup_delete_eq.
Qed.

(** [kickOffProcessing] hands events to [processEvent] in ascending order
    of their identifiers, each at most once; an event it hands over was
    pending before and is not pending afterwards, and the sweep adds no
    event to the pending set. *)
Theorem kickOffProcessing_order (env : Env) (app : App) :
  StronglySorted (fun a b => String.leb a b = true)
    (sw_processed (kickOffProcessing env app))
  /\ NoDup (sw_processed (kickOffProcessing env app))
  /\ pendingEvents (sw_app (kickOffProcessing env app)) ⊆ pendingEvents app
  /\ forall id, In id (sw_processed (kickOffProcessing env app)) ->
                is_Some (pendingEvents app !! id)
                /\ pendingEvents (sw_app (kickOffProcessing env app)) !! id
                   = None.
Proof.
  unfold kickOffProcessing.
  set (ids := py_sorted String.leb (map fst (map_to_list (pendingEvents app)))).
  destruct (sweep_spec env ids app) as (Hsub & Hpend & Hproc).
  split; [|split; [|split]]; try assumption.
  - apply (StronglySorted_sublist _ _ ids Hsub).
    apply py_sorted_sorted.
    + apply String.leb_total.
    + apply String_leb_trans.
  - eapply sublist_NoDup; [|exact Hsub].
    unfold ids. rewrite py_sorted_Permutation.
    apply NoDup_fst_map_to_list.
Qed.

End SweepFacts.

(** ** [processEvent]: what a run leaves alone, what it sends *)

Module RunFacts.
Import Relocator RelocatorSpec RelocatorExamples ProcessFacts
       PublicationFacts RejectionFacts ReadinessFacts.

Lemma attemptBody_frame (env : Env) (eventID : string) (attempt : Attempt)
  (app : App) (l : Locals) :
  settings (s_app (attemptBody env eventID attempt app l)) = settings app
  /\ (forall other, other <> eventID ->
        relocated (s_app (attemptBody env eventID attempt app l)) !! other
        = relocated app !! other)
  /\ dom (origins app)
     ⊆ dom (origins (s_app (attemptBody env eventID attempt app l))).
Proof.
  assert (Hnone : forall s : Step,
    s_app s = app ->
    settings (s_app s) = settings app
    /\ (forall other, other <> eventID ->
          relocated (s_app s) !! other = relocated app !! other)
    /\ dom (origins app) ⊆ dom (origins (s_app s))).
  { intros s ->. split; [reflexivity|]. split; [reflexivity|].
    reflexivity. }
  unfold attemptBody.
  destruct (match attempt with
            | direct => Some l
            | depth_phase_based => depthPhaseGuard l
            end) as [l'|]; [|apply Hnone; reflexivity].
  destruct (relocate env _ _ _ _ _) as [r0|]; [|apply Hnone; reflexivity].
  destruct (arrivalCount r0 <? 5)%nat; [apply Hnone; reflexivity|].
  assert (Hdom : dom (origins app)
                 ⊆ dom (<[publicID (stamp env app r0) := stamp env app r0]>
                          (origins app))).
  { rewrite dom_insert_L. intros x Hx. apply elem_of_union_r. exact Hx. }
  destruct (noImprovement env _ eventID attempt _).
  { split; [reflexivity|]. split; [reflexivity|exact Hdom]. }
  destruct attempt; cbn [s_app]; (split; [reflexivity|]);
    (split; [|exact Hdom]); intros other Hne; simpl;
    rewrite lookup_insert_ne by auto; reflexivity.
Qed.

(** What an iteration sends is the locator's answer with the stamp of the
    application, and has five arrivals or more. *)
Lemma attemptBody_sent_stamped (env : Env) (eventID : string)
  (attempt : Attempt) (app : App) (l : Locals) (a : Attempt) (o : Origin) :
  In (ActSend a o) (s_trace (attemptBody env eventID attempt app l)) ->
  exists r0, o = stamp env app r0 /\ 5 <= arrivalCount r0.
Proof.
  unfold attemptBody.
  destruct (match attempt with
            | direct => Some l
            | depth_phase_based => depthPhaseGuard l
            end) as [l'|]; [|intros []].
  destruct (relocate env _ _ _ _ _) as [r0|]; [|intros [H|[]]; discriminate].
  destruct (Nat.ltb_spec (arrivalCount r0) 5) as [Hlt|Hge];
    [intros [H|[]]; discriminate|].
  destruct (noImprovement env _ eventID attempt _);
    [intros [H|[]]; discriminate|].
  intros Hin. exists r0. split; [|exact Hge].
  destruct attempt; cbn [s_trace] in Hin; simpl in Hin;
    destruct (test app); simpl in Hin;
    repeat (destruct Hin as [Hin|Hin];
            [try discriminate; injection Hin as _ <-; reflexivity|]);
    destruct Hin.
Qed.

(** The two iterations of a run, when the event and its origin can be
    loaded. *)
Lemma processEvent_two_steps (env : Env) (app : App) (eventID : string)
  (app' : App) (tr : list Action) :
  processEvent env app eventID = Finished app' tr ->
  (app' = app /\ tr = [])
  \/ exists origin,
       let s1 := directStep env app eventID origin in
       (flow s1 <> Next /\ app' = s_app s1 /\ tr = s_trace s1)
       \/ (flow s1 = Next
           /\ app' = s_app (attemptBody env eventID depth_phase_based
                              (s_app s1) (s_locals s1))
           /\ tr = (s_trace s1
                    ++ s_trace (attemptBody env eventID depth_phase_based
                                  (s_app s1) (s_locals s1)))%list).
Proof.
  intros Hrun.
  destruct (processEvent_cases _ _ _ _ _ Hrun)
    as [H|(event & origin & He & Ho)]; [left; exact H|].
  right. exists origin.
  rewrite (processEvent_steps env app eventID event origin He Ho) in Hrun.
  cbv zeta in Hrun |- *.
  destruct (flow (directStep env app eventID origin)) eqn:Hflow;
    injection Hrun as <- <-.
  - right. auto.
  - left. split; [discriminate|auto].
  - left. split; [discriminate|auto].
Qed.

(** A run for one event leaves the pending set and the configuration as
    they are, leaves the cached relocations of all other events as they
    are, forgets no cached origin, and, outside test mode, leaves the
    cached relocation of its own event as it is when it makes no call of
    [connection().send()].  (A call that fails is a call: the origin is
    cached although nothing was sent.) *)
Theorem processEvent_frame (env : Env) (app : App) (eventID : string)
  (app' : App) (tr : list Action) :
  processEvent env app eventID = Finished app' tr ->
  pendingEvents app' = pendingEvents app
  /\ settings app' = settings app
  /\ (forall other, other <> eventID ->
        relocated app' !! other = relocated app !! other)
  /\ dom (origins app) ⊆ dom (origins app')
  /\ (test app = false -> sentIn tr = [] -> relocated app' = relocated app).
Proof.
  intros Hrun.
  pose proof (processEvent_pending env app eventID) as Hpend.
  rewrite Hrun in Hpend. simpl in Hpend.
  split; [exact Hpend|].
  destruct (processEvent_two_steps _ _ _ _ _ Hrun)
    as [[-> ->]|(origin & Hsteps)].
  { repeat split; auto. }
  cbv zeta in Hsteps. unfold directStep in Hsteps.
  set (l0 := initialLocals env app origin) in *.
  destruct (attemptBody_frame env eventID direct app l0) as (S1 & R1 & O1).
  pose proof (attemptBody_sends env eventID direct app l0) as Snd1.
  set (s1 := attemptBody env eventID direct app l0) in *.
  destruct Hsteps as [(_ & -> & ->)|(_ & -> & ->)].
  - split; [exact S1|]. split; [exact R1|]. split; [exact O1|].
    intros Ht Hnone. destruct Snd1 as [_ Hsame|o _ Hone _ _ _]; [auto|].
    rewrite Hone in Hnone. discriminate.
  - destruct (attemptBody_frame env eventID depth_phase_based
                (s_app s1) (s_locals s1)) as (S2 & R2 & O2).
    pose proof (attemptBody_sends env eventID depth_phase_based
                  (s_app s1) (s_locals s1)) as Snd2.
    set (s2 := attemptBody env eventID depth_phase_based
                 (s_app s1) (s_locals s1)) in *.
    split; [congruence|].
    split; [intros other Hne; rewrite R2, R1 by exact Hne; reflexivity|].
    split; [etransitivity; eassumption|].
    intros Ht Hnone. rewrite sentIn_app in Hnone.
    apply app_eq_nil in Hnone. destruct Hnone as [Hn1 Hn2].
    assert (Ht1 : test (s_app s1) = false).
    { unfold settings in S1. injection S1 as _ _ _ _ _ ->. exact Ht. }
    destruct Snd1 as [_ Hsame1|o _ Hone _ _ _];
      [|rewrite Hone in Hn1; discriminate].
    destruct Snd2 as [_ Hsame2|o _ Hone _ _ _];
      [|rewrite Hone in Hn2; discriminate].
    rewrite Hsame2, Hsame1 by assumption. reflexivity.
Qed.

(** A run whose locator fails: nothing moves. *)
Lemma processEvent_frame_witness :
  relocated
    (outcome_app (processEvent (locatorEnv None None None) freshApp "ev1"))
  = relocated freshApp.
Proof.
  refine (proj2 (proj2 (proj2 (proj2
            (processEvent_frame (locatorEnv None None None) freshApp "ev1"
               (outcome_app
                  (processEvent (locatorEnv None None None) freshApp "ev1"))
               (outcome_trace
                  (processEvent (locatorEnv None None None) freshApp "ev1"))
               _)))) _ _).
  - vm_compute. reflexivity.
  - reflexivity.
  - vm_compute. reflexivity.
Defined.

(** A send that fails: nothing is published, and the origin is the
    cached relocation of the event all the same (line 513). *)
Lemma failed_send_still_cached :
  published deafEnv
    (outcome_trace (processEvent deafEnv freshApp "ev1")) = []
  /\ sentIn (outcome_trace (processEvent deafEnv freshApp "ev1"))
     = [stamp deafEnv freshApp (located 50 35)]
  /\ relocated (outcome_app (processEvent deafEnv freshApp "ev1")) !! "ev1"
     = Some (stamp deafEnv freshApp (located 50 35))
  /\ relocated freshApp !! "ev1" = None.
Proof.
  repeat split; vm_compute; reflexivity.
Qed.

Lemma attemptBody_withTest (env : Env) (eventID : string)
  (attempt : Attempt) (app : App) (l : Locals) :
  let s := attemptBody env eventID attempt (withTest false app) l in
  attemptBody env eventID attempt (withTest true app) l
  = {| flow := flow s; s_app := withTest true (s_app s);
       s_locals := s_locals s;
       s_trace := List.filter notSend (s_trace s) |}.
Proof.
  unfold attemptBody. cbn [minDepth maxResidual withTest].
  destruct (match attempt with
            | direct => Some l
            | depth_phase_based => depthPhaseGuard l
            end) as [l'|]; [|reflexivity].
  destruct (relocate env _ _ _ _ _) as [r0|]; [|reflexivity].
  destruct (arrivalCount r0 <? 5)%nat; [reflexivity|].
  change (stamp env (withTest true app) r0) with (stamp env app r0).
  change (stamp env (withTest false app) r0) with (stamp env app r0).
  change (noImprovement env
            (set_origins (<[publicID (stamp env app r0) := stamp env app r0]>)
               (withTest true app)) eventID attempt (stamp env app r0))
    with (noImprovement env app eventID attempt (stamp env app r0)).
  change (noImprovement env
            (set_origins (<[publicID (stamp env app r0) := stamp env app r0]>)
               (withTest false app)) eventID attempt (stamp env app r0))
    with (noImprovement env app eventID attempt (stamp env app r0)).
  destruct (noImprovement env app eventID attempt (stamp env app r0));
    [reflexivity|].
  destruct attempt; reflexivity.
Qed.

Lemma withTest_idem (b c : bool) (app : App) :
  withTest b (withTest c app) = withTest b app.
Proof. reflexivity. Qed.

(** Test mode: the run does what it does otherwise, the same locator
    calls, the same caches afterwards, except that nothing is sent. *)
Theorem test_mode_parity (env : Env) (app : App) (eventID : string) :
  processEvent env (withTest true app) eventID
  = match processEvent env (withTest false app) eventID with
    | Finished app' tr =>
        Finished (withTest true app') (List.filter notSend tr)
    | Uncaught app' tr =>
        Uncaught (withTest true app') (List.filter notSend tr)
    end.
Proof.
  unfold processEvent.
  destruct (loadEvent env eventID) as [event|]; [|reflexivity].
  destruct (loadOriginWithoutArrivals env _) as [origin|]; [|reflexivity].
  change (initialLocals env (withTest true app) origin)
    with (initialLocals env app origin).
  change (initialLocals env (withTest false app) origin)
    with (initialLocals env app origin).
  cbn [forAttempts].
  rewrite (attemptBody_withTest env eventID direct app
             (initialLocals env app origin)).
  cbv zeta. cbn [flow s_app s_locals s_trace].
  set (s1 := attemptBody env eventID direct (withTest false app)
               (initialLocals env app origin)).
  destruct (flow s1); try reflexivity.
  assert (Hs1 : s_app s1 = withTest false (s_app s1)).
  { pose proof (attemptBody_test env eventID direct (withTest false app)
                  (initialLocals env app origin)) as Ht.
    fold s1 in Ht. simpl in Ht. destruct (s_app s1). simpl in *.
    rewrite Ht. reflexivity. }
  rewrite (attemptBody_withTest env eventID depth_phase_based (s_app s1)
             (s_locals s1)).
  cbv zeta. cbn [flow s_app s_locals s_trace].
  rewrite <- Hs1.
  set (s2 := attemptBody env eventID depth_phase_based (s_app s1)
               (s_locals s1)).
  destruct (flow s2); rewrite ?app_nil_r, ?List.filter_app; reflexivity.
Qed.

End RunFacts.

Module SentOriginFacts.
Import Relocator RelocatorSpec RelocatorExamples ProcessFacts
       PublicationFacts RejectionFacts ReadinessFacts RunFacts.

Lemma stamp_settings (env : Env) (app app' : App) (r0 : Origin) :
  settings app' = settings app -> stamp env app' r0 = stamp env app r0.
Proof.
  unfold settings, stamp. intros [= -> -> _ _ _ _]. reflexivity.
Qed.

Lemma sent_is_stamped (env : Env) (app : App) (eventID : string)
  (app' : App) (tr : list Action) (a : Attempt) (o : Origin) :
  processEvent env app eventID = Finished app' tr ->
  In (ActSend a o) tr ->
  exists r0, o = stamp env app r0 /\ 5 <= arrivalCount r0.
Proof.
  intros Hrun Hin.
  destruct (processEvent_two_steps _ _ _ _ _ Hrun)
    as [[_ ->]|(origin & Hsteps)]; [destruct Hin|].
  cbv zeta in Hsteps. unfold directStep in Hsteps.
  set (l0 := initialLocals env app origin) in *.
  destruct (attemptBody_frame env eventID direct app l0) as (S1 & _).
  destruct Hsteps as [(_ & _ & ->)|(_ & _ & ->)].
  - exact (attemptBody_sent_stamped _ _ _ _ _ _ _ Hin).
  - apply in_app_or in Hin. destruct Hin as [Hin|Hin].
    + exact (attemptBody_sent_stamped _ _ _ _ _ _ _ Hin).
    + destruct (attemptBody_sent_stamped _ _ _ _ _ _ _ Hin)
        as (r0 & -> & Hn).
      exists r0. split; [apply stamp_settings; exact S1|exact Hn].
Qed.

(** Every origin a run sends carries the author and the agency of the
    application, is marked automatic and has five arrivals or more; and an
    application with that author never finds an event ready whose
    preferred origin is such an origin, so that it does not relocate its
    own results. *)
Theorem sent_origins_are_own (env : Env) (app : App) (eventID : string)
  (app' : App) (tr : list Action) (a : Attempt) (o : Origin) :
  processEvent env app eventID = Finished app' tr ->
  In (ActSend a o) tr ->
  creationInfo o
  = Some (util_creationInfo (author app) (agencyID app) (GMT env))
  /\ evaluationMode o = Some AUTOMATIC
  /\ 5 <= arrivalCount o
  /\ forall env2 app2 eventID2 evt,
       author app2 = author app ->
       pendingEvents app2 !! eventID2 = Some evt ->
       preferredOrigin env2 app2 evt = Some o ->
       (readyToProcess env2 app2 eventID2).1 = false.
Proof.
  intros Hrun Hin.
  destruct (sent_is_stamped _ _ _ _ _ _ _ Hrun Hin) as (r0 & -> & Hn).
  split; [reflexivity|]. split; [reflexivity|]. split; [exact Hn|].
  intros env2 app2 eventID2 evt Hauthor Hp Ho.
  rewrite (readyToProcess_fetched env2 app2 eventID2 evt _ Hp Ho).
  cbv zeta. destruct (Qltb _ _); [reflexivity|].
  assert (Hown : String.eqb (origin_author (stamp env app r0)) (author app2)
                 = true).
  { apply String.eqb_eq. rewrite Hauthor. reflexivity. }
  rewrite Hown. reflexivity.
Qed.

(** The direct origin of the shrinking run, as the preferred origin of
    the event half an hour later: not ready. *)
Lemma sent_origins_are_own_witness :
  (readyToProcess clockEnv (pendingWith direct50) "ev1").1 = false.
Proof.
  refine (proj2 (proj2 (proj2
            (sent_origins_are_own shrinkingEnv freshApp "ev1"
               (outcome_app (processEvent shrinkingEnv freshApp "ev1"))
               (outcome_trace (processEvent shrinkingEnv freshApp "ev1"))
               direct direct50 _ _)))
            clockEnv (pendingWith direct50) "ev1" theEvent _ _ _).
  - vm_compute. reflexivity.
  - vm_compute. right. left. reflexivity.
  - reflexivity.
  - reflexivity.
  - vm_compute. reflexivity.
Defined.

(** One iteration: one locator call at most, no send without a call, and
    the call is made with what the iteration was entered with. *)
Lemma attemptBody_calls (env : Env) (eventID : string) (attempt : Attempt)
  (app : App) (l : Locals) :
  let s := attemptBody env eventID attempt app l in
  length (List.filter isRelocate (s_trace s)) <= 1
  /\ length (sentIn (s_trace s)) <= length (List.filter isRelocate (s_trace s))
  /\ forall a input fd,
       In (ActRelocate a input fd) (s_trace s) ->
       a = attempt
       /\ match attempt with
          | direct => input = originWithArrivals l /\ fd = fixedDepth l
          | depth_phase_based =>
              l_relocated l = Some input /\ fd = depthFromDepthPhases l
              /\ is_Some fd /\ 50 <= arrivalCount input
              /\ (depth input <= 120)%Q
          end.
Proof.
  cbv zeta. unfold attemptBody.
  destruct (match attempt with
            | direct => Some l
            | depth_phase_based => depthPhaseGuard l
            end) as [l'|] eqn:Hentered.
  2:{ simpl. split; [lia|]. split; [lia|]. intros a input fd []. }
  assert (Hcall : forall a input fd,
    ActRelocate attempt (originWithArrivals l') (fixedDepth l')
    = ActRelocate a input fd ->
    a = attempt
    /\ match attempt with
       | direct => input = originWithArrivals l /\ fd = fixedDepth l
       | depth_phase_based =>
           l_relocated l = Some input /\ fd = depthFromDepthPhases l
           /\ is_Some fd /\ 50 <= arrivalCount input
           /\ (depth input <= 120)%Q
       end).
  { intros a input fd [= <- <- <-]. split; [reflexivity|].
    destruct attempt.
    - injection Hentered as <-. auto.
    - pose proof (proj1 (depthPhaseGuard_Some l)) as Hg.
      rewrite Hentered in Hg.
      destruct Hg as (r & d & Hr & Hd & Hn & Hz); [eauto|].
      unfold depthPhaseGuard in Hentered. rewrite Hr, Hd in Hentered.
      destruct (arrivalCount r <? 50)%nat; [discriminate|].
      destruct (Qgtb (depth r) 120); [discriminate|].
      injection Hentered as <-. simpl. rewrite Hd. eauto 10. }
  destruct (relocate env _ _ _ _ _) as [r0|].
  2:{ simpl. split; [lia|]. split; [lia|].
      intros a input fd [H|[]]. exact (Hcall _ _ _ H). }
  destruct (arrivalCount r0 <? 5)%nat.
  { simpl. split; [lia|]. split; [lia|].
    intros a input fd [H|[]]. exact (Hcall _ _ _ H). }
  destruct (noImprovement env _ eventID attempt _).
  { simpl. split; [lia|]. split; [lia|].
    intros a input fd [H|[]]. exact (Hcall _ _ _ H). }
  destruct attempt; cbn [s_trace]; simpl; destruct (test app); simpl;
    (split; [lia|]); (split; [lia|]); intros a input fd Hin;
    repeat (destruct Hin as [Hin|Hin];
            [try discriminate; exact (Hcall _ _ _ Hin)|]);
    destruct Hin.
Qed.

Lemma directStep_sent (env : Env) (app : App) (eventID : string)
  (origin : Origin) (r : Origin) :
  flow (directStep env app eventID origin) = Next ->
  l_relocated (s_locals (directStep env app eventID origin)) = Some r ->
  depthFromDepthPhases (s_locals (directStep env app eventID origin))
  = computeDepth env eventID
  /\ (test app = false ->
      In (ActSend direct r) (s_trace (directStep env app eventID origin))).
Proof.
  unfold directStep, attemptBody, initialLocals.
  cbn [originWithArrivals fixedDepth l_relocated depthFromDepthPhases].
  destruct (relocate env _ _ _ _ _) as [r0|]; [|discriminate].
  destruct (arrivalCount r0 <? 5)%nat; [discriminate|].
  destruct (noImprovement env _ eventID direct _); [discriminate|].
  cbn [flow s_locals s_trace l_relocated depthFromDepthPhases].
  intros _ [= <-]. split; [reflexivity|].
  intros Ht. simpl. rewrite Ht. simpl. right. left. reflexivity.
Qed.

(** The shape of a run: two locator calls and two sends at most, never
    more sends than calls; the call of the direct phase is made with the
    picks loaded for the preferred origin and the fixed-depth directive;
    the call of the depth phase is made with the origin of the direct
    phase, which was sent (outside test mode), has 50 arrivals or more
    and a depth of 120 km at most, and with the depth from depth phases
    as the fixed depth. *)
Theorem run_shape (env : Env) (app : App) (eventID : string)
  (app' : App) (tr : list Action) :
  processEvent env app eventID = Finished app' tr ->
  length (List.filter isRelocate tr) <= 2
  /\ length (sentIn tr) <= length (List.filter isRelocate tr)
  /\ (forall input fd,
        In (ActRelocate direct input fd) tr ->
        exists event origin,
          loadEvent env eventID = Some event
          /\ loadOriginWithoutArrivals env (preferredOriginID event)
             = Some origin
          /\ input = loadPicksForOrigin env origin
          /\ fd = directFixedDepth env app origin)
  /\ (forall input fd,
        In (ActRelocate depth_phase_based input fd) tr ->
        fd = computeDepth env eventID /\ is_Some fd
        /\ 50 <= arrivalCount input /\ (depth input <= 120)%Q
        /\ (test app = false -> In (ActSend direct input) tr)).
Proof.
  intros Hrun.
  destruct (processEvent_cases _ _ _ _ _ Hrun)
    as [[_ ->]|(event & origin & He & Ho)].
  { simpl. split; [lia|]. split; [lia|]. split; intros input fd []. }
  rewrite (processEvent_steps env app eventID event origin He Ho) in Hrun.
  cbv zeta in Hrun.
  destruct (attemptBody_calls env eventID direct app
              (initialLocals env app origin)) as (C1 & N1 & R1).
  fold (directStep env app eventID origin) in C1, N1, R1.
  assert (Hdirect : forall input fd,
    In (ActRelocate direct input fd)
       (s_trace (directStep env app eventID origin)) ->
    exists event origin,
      loadEvent env eventID = Some event
      /\ loadOriginWithoutArrivals env (preferredOriginID event)
         = Some origin
      /\ input = loadPicksForOrigin env origin
      /\ fd = directFixedDepth env app origin).
  { intros input fd Hin. destruct (R1 _ _ _ Hin) as (_ & -> & ->).
    exists event, origin. auto. }
  assert (Hnodepth : forall input fd,
    ~ In (ActRelocate depth_phase_based input fd)
         (s_trace (directStep env app eventID origin))).
  { intros input fd Hin. destruct (R1 _ _ _ Hin) as (H & _). discriminate. }
  destruct (flow (directStep env app eventID origin)) eqn:Hflow;
    injection Hrun as <- <-.
  2,3: (split; [lia|]; split; [exact N1|]; split; [exact Hdirect|];
        intros input fd Hin; destruct (Hnodepth _ _ Hin)).
  destruct (attemptBody_calls env eventID depth_phase_based
              (s_app (directStep env app eventID origin))
              (s_locals (directStep env app eventID origin)))
    as (C2 & N2 & R2).
  rewrite List.filter_app, sentIn_app, !length_app.
  split; [lia|]. split; [lia|]. split.
  - intros input fd Hin. apply in_app_or in Hin.
    destruct Hin as [Hin|Hin]; [exact (Hdirect _ _ Hin)|].
    destruct (R2 _ _ _ Hin) as (H & _). discriminate.
  - intros input fd Hin. apply in_app_or in Hin.
    destruct Hin as [Hin|Hin]; [destruct (Hnodepth _ _ Hin)|].
    destruct (R2 _ _ _ Hin) as (_ & Hr & Hfd & Hsome & Hn & Hz).
    destruct (directStep_sent env app eventID origin input Hflow Hr)
      as [Hd Hsent].
    split; [congruence|]. split; [exact Hsome|]. split; [exact Hn|].
    split; [exact Hz|].
    intros Ht. apply in_or_app. left. exact (Hsent Ht).
Qed.

(** In the shrinking run the depth phase is called with the direct
    origin and the estimate of 40 km. *)
Lemma run_shape_witness :
  Some 40%Q = computeDepth shrinkingEnv "ev1"
  /\ In (ActSend direct direct50)
        (outcome_trace (processEvent shrinkingEnv freshApp "ev1")).
Proof.
  destruct (run_shape shrinkingEnv freshApp "ev1"
              (outcome_app (processEvent shrinkingEnv freshApp "ev1"))
              (outcome_trace (processEvent shrinkingEnv freshApp "ev1")))
    as (_ & _ & _ & H).
  - vm_compute. reflexivity.
  - destruct (H direct50 (Some 40%Q)) as (H1 & _ & _ & _ & H2).
    + vm_compute. do 3 right. left. reflexivity.
    + split; [exact H1|]. apply H2. reflexivity.
Defined.

End SentOriginFacts.

(** ** The payload reader and the spool listing *)

Module ReaderFacts.
Import Repicker RepickerSpec RepickerExamples MailboxFacts.

Lemma readPicksFromYaml_fold (records : list Pick) :
  readPicksFromYaml records = (foldl readStep ([], []) records).2.
Proof.
  reflexivity.
Qed.

Lemma readStep_fold (records : list Pick) (ids : list string)
  (acc : list Pick) :
  foldl readStep (ids, acc) records
  = ((ids ++ map streamID (firstOfStream ids records))%list,
     (acc ++ firstOfStream ids records)%list).
Proof.
  revert ids acc. induction records as [|p l IH]; intros ids acc; simpl.
  - rewrite !app_nil_r. reflexivity.
  - unfold readStep at 2. simpl.
    destruct (existsb (String.eqb (streamID p)) ids) eqn:E.
    + apply IH.
    + rewrite IH. simpl.
      assert (Hs : streamID (withHint p) = streamID p).
      { unfold withHint. destruct (phaseHint p); reflexivity. }
      rewrite Hs, <- !app_assoc. reflexivity.
Qed.

Lemma readPicksFromYaml_first (records : list Pick) :
  readPicksFromYaml records = firstOfStream [] records.
Proof.
  rewrite readPicksFromYaml_fold, readStep_fold. reflexivity.
Qed.

Lemma existsb_eqb_In (x : string) (l : list string) :
  existsb (String.eqb x) l = true <-> In x l.
Proof.
  rewrite existsb_exists. split.
  - intros (y & Hy & E). apply String.eqb_eq in E. subst. exact Hy.
  - intros H. exists x. split; [exact H|apply String.eqb_refl].
Qed.

Lemma withHint_stream (p : Pick) : streamID (withHint p) = streamID p.
Proof. unfold withHint. destruct (phaseHint p); reflexivity. Qed.

Lemma withHint_hint (p : Pick) : is_Some (phaseHint (withHint p)).
Proof.
  unfold withHint. destruct (phaseHint p) eqn:E; simpl; [rewrite E|]; eauto.
Qed.

Lemma withHint_fixed (p : Pick) : is_Some (phaseHint p) -> withHint p = p.
Proof. intros [h E]. unfold withHint. rewrite E. reflexivity. Qed.

Lemma firstOfStream_spec (records : list Pick) (seen : list string) :
  NoDup (map streamID (firstOfStream seen records))
  /\ (forall q, In q (firstOfStream seen records) ->
                ~ In (streamID q) seen
                /\ exists p, In p records /\ q = withHint p)
  /\ (forall p, In p records ->
                In (streamID p) seen
                \/ In (streamID p)
                     (map streamID (firstOfStream seen records)))
  /\ sublist (firstOfStream seen records) (map withHint records).
Proof.
  revert seen. induction records as [|p l IH]; intros seen; simpl.
  - split; [constructor|]. split; [intros q []|].
    split; [intros p []|constructor].
  - destruct (existsb (String.eqb (streamID p)) seen) eqn:E.
    + apply existsb_eqb_In in E.
      destruct (IH seen) as (H1 & H2 & H3 & H4).
      split; [exact H1|]. split; [|split].
      * intros q Hq. destruct (H2 q Hq) as (Hn & p' & Hp' & ->).
        split; [exact Hn|]. exists p'. auto.
      * intros p' [<-|Hp']; [left; exact E|apply H3; exact Hp'].
      * apply sublist_cons. exact H4.
    + assert (Hnew : ~ In (streamID p) seen).
      { intros Hin. apply existsb_eqb_In in Hin. congruence. }
      destruct (IH (seen ++ [streamID p])%list) as (H1 & H2 & H3 & H4).
      simpl. rewrite withHint_stream.
      split; [|split; [|split]].
      * apply NoDup_cons. split; [|exact H1].
        intros Hin. apply list_elem_of_In in Hin.
        apply in_map_iff in Hin. destruct Hin as (q & Hs & Hq).
        destruct (H2 q Hq) as (Hn & _). apply Hn.
        rewrite Hs. apply in_or_app. right. left. reflexivity.
      * intros q [<-|Hq].
        -- rewrite withHint_stream. split; [exact Hnew|].
           exists p. auto.
        -- destruct (H2 q Hq) as (Hn & p' & Hp' & ->).
           split; [|exists p'; auto].
           intros Hin. apply Hn. apply in_or_app. left. exact Hin.
      * intros p' [<-|Hp']; [right; left; reflexivity|].
        destruct (H3 p' Hp') as [Hin|Hin]; [|right; right; exact Hin].
        apply in_app_or in Hin. destruct Hin as [Hin|[Hin|[]]].
        -- left. exact Hin.
        -- right. left. exact Hin.
      * apply sublist_skip. exact H4.
Qed.

Lemma firstOfStream_all (records : list Pick) (seen : list string) :
  NoDup (map streamID records) ->
  (forall p, In p records -> ~ In (streamID p) seen) ->
  firstOfStream seen records = map withHint records.
Proof.
  revert seen. induction records as [|p l IH]; intros seen Hnd Hseen;
    simpl; [reflexivity|].
  simpl in Hnd. apply NoDup_cons in Hnd. destruct Hnd as [Hp Hnd].
  destruct (existsb (String.eqb (streamID p)) seen) eqn:E.
  { apply existsb_eqb_In in E. destruct (Hseen p (or_introl eq_refl) E). }
  f_equal. apply IH; [exact Hnd|].
  intros q Hq Hin. apply in_app_or in Hin. destruct Hin as [Hin|[Hin|[]]].
  - exact (Hseen q (or_intror Hq) Hin).
  - apply Hp. rewrite Hin. apply list_elem_of_In. apply in_map. exact Hq.
Qed.

(** [_readPicksFromYaml] keeps, in the order of the file, the first
    record of every stream and no other: no two picks of the result share
    a [streamID], every stream of the file is in the result, every pick
    of the result is a record of the file with the phase hint ["P"] put
    in where there was none; a file without duplicates is read as it is;
    and reading what was read changes nothing. *)
Theorem readPicksFromYaml_spec (records : list Pick) :
  NoDup (map streamID (readPicksFromYaml records))
  /\ sublist (readPicksFromYaml records) (map withHint records)
  /\ (forall q, In q (readPicksFromYaml records) ->
                is_Some (phaseHint q)
                /\ exists p, In p records /\ q = withHint p)
  /\ (forall p, In p records ->
                In (streamID p) (map streamID (readPicksFromYaml records)))
  /\ (forall l1 p l2, records = (l1 ++ p :: l2)%list ->
                      ~ In (streamID p) (map streamID l1) ->
                      In (withHint p) (readPicksFromYaml records))
  /\ (NoDup (map streamID records) ->
      readPicksFromYaml records = map withHint records)
  /\ readPicksFromYaml (readPicksFromYaml records)
     = readPicksFromYaml records.
Proof.
  rewrite !readPicksFromYaml_first.
  destruct (firstOfStream_spec records []) as (H1 & H2 & H3 & H4).
  split; [exact H1|]. split; [exact H4|]. split; [|split; [|split; [|split]]].
  - intros q Hq. destruct (H2 q Hq) as (_ & p & Hp & ->).
    split; [apply withHint_hint|eauto].
  - intros p Hp. destruct (H3 p Hp) as [[]|H]. exact H.
  - intros l1 p l2 -> Hfirst.
    assert (Hgen : forall seen,
      ~ In (streamID p) seen ->
      In (withHint p) (firstOfStream seen (l1 ++ p :: l2))).
    { clear H1 H2 H3 H4. induction l1 as [|a l1 IH]; intros seen Hp;
        simpl.
      - destruct (existsb (String.eqb (streamID p)) seen) eqn:E.
        + apply existsb_eqb_In in E. contradiction.
        + left. reflexivity.
      - simpl in Hfirst.
        destruct (existsb (String.eqb (streamID a)) seen) eqn:E.
        + apply IH; [tauto|exact Hp].
        + right. apply IH; [tauto|].
          intros Hin. apply in_app_or in Hin.
          destruct Hin as [Hin|[Hin|[]]]; [contradiction|].
          apply Hfirst. left. exact Hin. }
    apply Hgen. intros [].
  - intros Hnd. apply firstOfStream_all; [exact Hnd|]. intros p _ [].
  - rewrite firstOfStream_all.
    + rewrite <- (map_id (firstOfStream [] records)) at 2.
      apply map_ext_in. intros q Hq.
      destruct (H2 q Hq) as (_ & p & _ & ->).
      apply withHint_fixed. apply withHint_hint.
    + exact H1.
    + intros p _ [].
Qed.

(** The second record is dropped, the first is kept with the hint ["P"]. *)
Lemma readPicksFromYaml_spec_witness :
  In (withHint (pickOf "pick/1" "UGM")) (readPicksFromYaml threeRecords)
  /\ length (readPicksFromYaml threeRecords) = 2.
Proof.
  split; [|reflexivity].
  refine (proj1 (proj2 (proj2 (proj2 (proj2
            (readPicksFromYaml_spec threeRecords)))))
            [] (pickOf "pick/1" "UGM") _ eq_refl _).
  intros [].
Defined.

Lemma findSpoolItems_fold (rp : Repicker) (fs : FS) (names : list string)
  (items : list (string * string)) :
  foldl
    (fun (items : list (string * string)) (filename : string) =>
       let path := path_join (spoolDir rp) filename in
       match spool fs !! filename with
       | Some (Symlink target) =>
           let target := path_join (spoolDir rp) target in
           match files fs !! target with
           | None => items
           | Some _ => (items ++ [(path, target)])%list
           end
       | _ => items
       end) items names
  = (items ++ omap (spoolItem rp fs) names)%list.
Proof.
  revert items. induction names as [|name names IH]; intros items; simpl.
  - rewrite app_nil_r. reflexivity.
  - rewrite IH. unfold spoolItem at 2.
    destruct (spool fs !! name) as [[t|]|]; try reflexivity.
    destruct (files fs !! path_join (spoolDir rp) t); [|reflexivity].
    simpl. rewrite <- app_assoc. reflexivity.
Qed.

(** [_findSpoolItems] lists, in ascending order of the names and each
    once, the entries of the spool directory whose name ends in [.yaml],
    that are links, and whose target exists; nothing else: a link whose
    target is missing is left out (and left in the directory). *)
Theorem findSpoolItems_spec (rp : Repicker) (fs : FS) :
  findSpoolItems rp fs = omap (spoolItem rp fs) (spoolNames fs)
  /\ StronglySorted (fun a b => String.leb a b = true) (spoolNames fs)
  /\ NoDup (spoolNames fs)
  /\ (forall name, In name (spoolNames fs) <->
                   is_Some (spool fs !! name)
                   /\ endswith name ".yaml" = true)
  /\ (forall link target,
        In (link, target) (findSpoolItems rp fs) <->
        exists name t,
          spool fs !! name = Some (Symlink t)
          /\ endswith name ".yaml" = true
          /\ is_Some (files fs !! path_join (spoolDir rp) t)
          /\ link = path_join (spoolDir rp) name
          /\ target = path_join (spoolDir rp) t).
Proof.
  assert (Hnames : forall name, In name (spoolNames fs) <->
                     is_Some (spool fs !! name)
                     /\ endswith name ".yaml" = true).
  { intros name. unfold spoolNames. rewrite py_sorted_In, filter_In.
    rewrite in_map_iff. split.
    - intros ((kv & <- & Hin) & Hy). split; [|exact Hy].
      apply list_elem_of_In in Hin. destruct kv as [k v].
      apply elem_of_map_to_list in Hin. simpl. eauto.
    - intros ([v Hv] & Hy). split; [|exact Hy].
      exists (name, v). split; [reflexivity|].
      apply list_elem_of_In. apply elem_of_map_to_list. exact Hv. }
  assert (Heq : findSpoolItems rp fs = omap (spoolItem rp fs) (spoolNames fs)).
  { unfold findSpoolItems. cbv zeta. rewrite findSpoolItems_fold.
    reflexivity. }
  split; [exact Heq|]. split; [|split; [|split; [exact Hnames|]]].
  - apply py_sorted_sorted; [apply String.leb_total|apply String_leb_trans].
  - unfold spoolNames. rewrite py_sorted_Permutation.
    apply NoDup_ListNoDup. apply List.NoDup_filter.
    apply NoDup_ListNoDup. apply NoDup_fst_map_to_list.
  - intros link target. rewrite Heq. split.
    + intros Hin. apply list_elem_of_In in Hin.
      apply list_elem_of_omap in Hin. destruct Hin as (name & Hn & Hit).
      apply list_elem_of_In in Hn. apply Hnames in Hn.
      destruct Hn as [_ Hy]. unfold spoolItem in Hit.
      destruct (spool fs !! name) as [[t|]|] eqn:E; try discriminate.
      destruct (files fs !! path_join (spoolDir rp) t) eqn:F;
        [|discriminate].
      injection Hit as <- <-. exists name, t. rewrite F. eauto 10.
    + intros (name & t & Hs & Hy & [x Hx] & -> & ->).
      apply list_elem_of_In. apply list_elem_of_omap. exists name. split.
      * apply list_elem_of_In. apply Hnames. rewrite Hs. eauto.
      * unfold spoolItem. rewrite Hs, Hx. reflexivity.
Qed.

(** In the mixed directory only [a.yaml] and [b.yaml] are items, in that
    order. *)
Lemma findSpoolItems_spec_witness :
  findSpoolItems (repickerOf false) mixedSpool
  = [(theLink, theTarget);
     ("./spool/b.yaml", "./spool/../events/ev1/in/b.yaml")]
  /\ In (theLink, theTarget) (findSpoolItems (repickerOf false) mixedSpool).
Proof.
  split; [vm_compute; reflexivity|].
  apply (proj2 (proj2 (proj2 (proj2
           (findSpoolItems_spec (repickerOf false) mixedSpool))))).
  exists "a.yaml", "../events/ev1/in/a.yaml".
  repeat split; vm_compute; eauto.
Defined.

End ReaderFacts.

(** ** The peaks that become picks *)

Module PredictionFacts.
Import Repicker RepickerSpec RepickerExamples ProcessPicksFacts.

Lemma accepted_iff (env : Env) (rp : Repicker) (trig : Pick) (t c : Q) :
  accepted env rp trig (t, c) = true <->
  (Qabs (t - UTCDateTime env (time trig)) <= 10)%Q
  /\ (minConfidence rp <= c)%Q.
Proof.
  unfold accepted. cbn [fst snd].
  rewrite andb_true_iff, !negb_true_iff, Qgtb_le, Qltb_ge.
  assert (Habs : (Qabs (Qabs (t - UTCDateTime env (time trig)))
                  == Qabs (t - UTCDateTime env (time trig)))%Q).
  { apply Qabs_pos. apply Qabs_nonneg. }
  rewrite Habs. reflexivity.
Qed.

Lemma allNew_app (a b c : list Pick) :
  allNew a (b ++ c) = allNew a b && allNew (a ++ b) c.
Proof.
  revert a. induction b as [|x b IH]; intros a; simpl.
  - rewrite app_nil_r. reflexivity.
  - rewrite IH, <- app_assoc, andb_assoc. reflexivity.
Qed.

Lemma forPreds_step (env : Env) (rp : Repicker) (pick_id : string)
  (trig : Pick) (t c : Q) (preds : list (Q * Q)) (ml : gmap string Pick)
  (out : list Pick) :
  forPreds env rp pick_id trig ((t, c) :: preds) ml out
  = if accepted env rp trig (t, c)
    then if existsb (pick_eqb (repick env rp trig t c)) out then None
         else forPreds env rp pick_id trig preds
                (<[pick_id := repick env rp trig t c]> ml)
                (out ++ [repick env rp trig t c])%list
    else forPreds env rp pick_id trig preds ml out.
Proof.
  cbn [forPreds]. cbv zeta. unfold accepted. cbn [fst snd].
  destruct (Qgtb _ 10); [reflexivity|].
  destruct (Qltb c (minConfidence rp)); reflexivity.
Qed.

Lemma derived_cons (env : Env) (rp : Repicker) (trig : Pick) (t c : Q)
  (preds : list (Q * Q)) :
  derived env rp trig ((t, c) :: preds)
  = if accepted env rp trig (t, c)
    then repick env rp trig t c :: derived env rp trig preds
    else derived env rp trig preds.
Proof.
  unfold derived. cbn [List.filter].
  destruct (accepted env rp trig (t, c)); reflexivity.
Qed.

(** The loop over the peaks of one pick is a filter and a map, the
    assertion aside. *)
Lemma forPreds_spec (env : Env) (rp : Repicker) (pick_id : string)
  (trig : Pick) (preds : list (Q * Q)) (ml : gmap string Pick)
  (out : list Pick) :
  forPreds env rp pick_id trig preds ml out
  = if allNew out (derived env rp trig preds)
    then Some (match last (derived env rp trig preds) with
               | Some q => <[pick_id := q]> ml
               | None => ml
               end,
               (out ++ derived env rp trig preds)%list)
    else None.
Proof.
  revert ml out. induction preds as [|[t c] preds IH]; intros ml out.
  - simpl. rewrite app_nil_r. reflexivity.
  - rewrite forPreds_step, derived_cons.
    destruct (accepted env rp trig (t, c)); [|apply IH].
    cbn [allNew].
    destruct (existsb (pick_eqb (repick env rp trig t c)) out);
      [reflexivity|].
    rewrite IH. cbn [negb andb].
    destruct (allNew _ _); [|reflexivity].
    rewrite <- app_assoc. cbn [app]. f_equal. f_equal.
    destruct (derived env rp trig preds) as [|q qs] eqn:E.
    + reflexivity.
    + change (last (repick env rp trig t c :: q :: qs))
        with (last (q :: qs)).
      destruct (last (q :: qs)) as [q'|] eqn:L.
      * apply insert_insert_eq.
      * apply last_None in L. discriminate.
Qed.

Lemma forPredictions_spec (env : Env) (rp : Repicker)
  (seen : gmap string Pick) (predictions : list (string * list (Q * Q)))
  (ml : gmap string Pick) (out : list Pick) (ml' : gmap string Pick)
  (out' : list Pick) :
  forPredictions env rp seen predictions ml out = Some (ml', out') ->
  out' = (out ++ derivedAll env rp seen predictions)%list
  /\ allNew out (derivedAll env rp seen predictions) = true
  /\ forall id preds, In (id, preds) predictions -> is_Some (seen !! id).
Proof.
  revert ml out. induction predictions as [|[id preds] rest IH];
    intros ml out; simpl.
  - intros [= <- <-]. rewrite app_nil_r.
    split; [reflexivity|]. split; [reflexivity|]. intros id preds [].
  - destruct (seen !! id) as [trig|] eqn:Hs; [|discriminate].
    rewrite forPreds_spec.
    destruct (allNew out (derived env rp trig preds)) eqn:Hnew;
      [|discriminate].
    intros Hrest. apply IH in Hrest. destruct Hrest as (-> & Hn2 & Hk).
    unfold derivedAll in *. cbn [flat_map fst snd]. rewrite ?Hs.
    split; [rewrite app_assoc; reflexivity|].
    split; [rewrite allNew_app, Hnew, Hn2; reflexivity|].
    intros id' preds' [[= <- <-]|Hin]; [eauto|exact (Hk _ _ Hin)].
Qed.

(** The picks [_process] returns: every one is the copy of a pick seen
    for the event, with [/repick] added to its [publicID], the model name
    and the rounded confidence put in, and the time of a peak that lies
    within 10 s of the time of that pick (10 s included) and has the
    minimum confidence at least (the minimum included); they are what the
    accepted peaks of the predictions give, in the order of the
    predictions, and no two of them are equal. *)
Theorem process_results (env : Env) (rp : Repicker) (adhoc : list Pick)
  (eventID : string) (new_picks : list Pick) :
  p_result (process env rp adhoc eventID) = Returned new_picks ->
  (new_picks = []
   \/ exists predictions,
        concat (p_submitted (process env rp adhoc eventID)) <> []
        /\ ml_predict env
             (concat (p_submitted (process env rp adhoc eventID))) eventID
           = Predictions predictions
        /\ new_picks
           = derivedAll env rp
               (seenFor (p_repicker (process env rp adhoc eventID)) eventID)
               predictions)
  /\ allNew [] new_picks = true
  /\ forall q, In q new_picks ->
       exists id p t c,
         seenFor (p_repicker (process env rp adhoc eventID)) eventID !! id
         = Some p
         /\ (Qabs (t - UTCDateTime env (time p)) <= 10)%Q
         /\ (minConfidence rp <= c)%Q
         /\ q = repick env rp p t c
         /\ publicID q = publicID p ++ "/repick"
         /\ streamID q = streamID p
         /\ model q = Some (model_name rp)
         /\ confidence q = Some (round3 c).
Proof.
  intros Hres.
  assert (Hmain :
    new_picks = []
    \/ exists predictions,
         concat (p_submitted (process env rp adhoc eventID)) <> []
         /\ ml_predict env
              (concat (p_submitted (process env rp adhoc eventID))) eventID
            = Predictions predictions
         /\ new_picks
            = derivedAll env rp
                (seenFor (p_repicker (process env rp adhoc eventID)) eventID)
                predictions
         /\ allNew [] new_picks = true).
  { revert Hres. unfold process, seenFor.
    destruct (newAdhocPicks _ adhoc) as [seen new].
    destruct new as [|p new]; [intros [= <-]; left; reflexivity|].
    destruct (ml_predict env (p :: new) eventID) as [[|pred preds]| |] eqn:Hp;
      cbn [p_result]; try discriminate;
      [intros [= <-]; left; reflexivity|].
    destruct (forPredictions env rp seen (pred :: preds) _ [])
      as [[ml out]|] eqn:Hf; cbn [p_result p_submitted p_repicker];
      [|discriminate].
    intros [= <-]. right. exists (pred :: preds).
    apply forPredictions_spec in Hf. destruct Hf as (-> & Hnew & _).
    cbn [concat]. rewrite app_nil_r. simpl workspaces.
    rewrite lookup_insert_eq. cbn [picks]. simpl app.
    split; [discriminate|]. split; [exact Hp|]. split; [reflexivity|].
    exact Hnew. }
  split; [destruct Hmain as [H|(d & H1 & H2 & H3 & _)]; eauto|].
  split; [destruct Hmain as [->|(d & _ & _ & _ & H)]; [reflexivity|exact H]|].
  intros q Hq.
  destruct Hmain as [->|(d & _ & _ & -> & _)]; [destruct Hq|].
  unfold derivedAll in Hq. apply in_flat_map in Hq.
  destruct Hq as ([id preds] & _ & Hq). cbn [fst snd] in Hq.
  destruct (seenFor _ eventID !! id) as [p|] eqn:Hs; [|destruct Hq].
  unfold derived in Hq. apply in_map_iff in Hq.
  destruct Hq as ([t c] & <- & Hin). apply filter_In in Hin.
  destruct Hin as [_ Hacc]. apply accepted_iff in Hacc.
  destruct Hacc as [Hdt Hc]. exists id, p, t, c.
  cbn [fst snd]. repeat split; auto.
Qed.

(** Two picks, the network confident on both: two derived picks, the
    first the repick of [pick/1]. *)
Lemma process_results_witness :
  exists p t c,
    repick confidentEnv (repickerOf false) p t c
    = {| publicID := "pick/1/repick"; streamID := "GE.UGM..BHZ";
         networkCode := "GE"; stationCode := "UGM"; locationCode := "";
         channelCode := "BHZ"; time := "2024-01-01T00:00:00.500Z";
         phaseHint := None; model := Some "phasenet";
         confidence := Some (900 # 1000) |}
    /\ (Qabs (t - UTCDateTime confidentEnv (time p)) <= 10)%Q.
Proof.
  destruct (proj2 (proj2
             (process_results confidentEnv (repickerOf false) twoPicks "ev1"
                _ eq_refl))
             {| publicID := "pick/1/repick"; streamID := "GE.UGM..BHZ";
                networkCode := "GE"; stationCode := "UGM";
                locationCode := ""; channelCode := "BHZ";
                time := "2024-01-01T00:00:00.500Z";
                phaseHint := None; model := Some "phasenet";
                confidence := Some (900 # 1000) |})
    as (id & p & t & c & _ & Hdt & _ & Hq & _).
  - vm_compute. left. reflexivity.
  - exists p, t, c. split; [symmetry; exact Hq|exact Hdt].
Defined.

End PredictionFacts.

(** ** What a pass does to the file system *)

Module PollFacts.
Import Repicker RepickerSpec RepickerExamples MailboxFacts.

Lemma process_settings (env : Env) (rp : Repicker) (adhoc : list Pick)
  (eventID : string) :
  sameSettings rp (p_repicker (process env rp adhoc eventID)).
Proof.
  unfold sameSettings, process.
  destruct (newAdhocPicks _ adhoc) as [seen new].
  destruct new as [|p new]; [auto|].
  destruct (ml_predict env (p :: new) eventID) as [[|pred preds]| |];
    auto.
  destruct (forPredictions env rp seen (pred :: preds) _ [])
    as [[ml new_picks]|]; auto.
Qed.

Lemma Effects_refl (rp : Repicker) (fs : FS)
  (handed : list (string * string)) : Effects rp fs handed fs.
Proof. unfold Effects. repeat split; auto. Qed.

Lemma Effects_weaken (rp : Repicker) (fs fs' : FS)
  (handed handed' : list (string * string)) :
  incl handed handed' ->
  Effects rp fs handed fs' -> Effects rp fs handed' fs'.
Proof.
  intros Hincl (H1 & H2 & H3 & H4 & H5 & H6 & H7).
  unfold Effects. repeat split; auto.
  - intros name Hn. apply H2. intros target Hin.
    exact (Hn target (Hincl _ Hin)).
  - intros path Hp. apply H5. intros link target eventID Hin.
    exact (Hp link target eventID (Hincl _ Hin)).
  - intros dst Hd. apply H6. intros link target Hin.
    exact (Hd link target (Hincl _ Hin)).
  - apply H7; assumption.
  - apply H7; assumption.
Qed.

Lemma Effects_trans (rp : Repicker) (fs fs1 fs2 : FS)
  (handed : list (string * string)) :
  Effects rp fs handed fs1 -> Effects rp fs1 handed fs2 ->
  Effects rp fs handed fs2.
Proof.
  intros (H1 & H2 & H3 & H4 & H5 & H6 & H7)
         (K1 & K2 & K3 & K4 & K5 & K6 & K7).
  unfold Effects. repeat split.
  - etrans; eassumption.
  - intros name Hn. rewrite (K2 name Hn). exact (H2 name Hn).
  - etrans; eassumption.
  - intros path Hp. apply K4, H4, Hp.
  - intros path Hp. rewrite (K5 path Hp). exact (H5 path Hp).
  - intros dst Hd. rewrite (K6 dst Hd). exact (H6 dst Hd).
  - destruct (K7 H) as [-> _]. apply H7, H.
  - destruct (K7 H) as [_ ->]. apply H7, H.
Qed.

Lemma Effects_settings (rp rp' : Repicker) (fs fs' : FS)
  (handed : list (string * string)) :
  sameSettings rp rp' ->
  Effects rp' fs handed fs' -> Effects rp fs handed fs'.
Proof.
  intros (E1 & E2 & E3 & E4).
  unfold Effects, outPath, outgoingPath. rewrite E1, E2, E3, E4.
  trivial.
Qed.

Lemma Effects_remove (rp : Repicker) (fs : FS) (link target : string) :
  Effects rp fs [(link, target)] (os_remove rp fs link).
Proof.
  unfold Effects, os_remove. cbn [spool files outgoing].
  repeat split; auto.
  - apply map_filter_subseteq.
  - intros name Hn.
    assert (Hne : path_join (spoolDir rp) name ≠ link).
    { intros <-. apply (Hn target). left. reflexivity. }
    destruct (spool fs !! name) as [e|] eqn:E.
    + apply map_lookup_filter_Some. split; [exact E|exact Hne].
    + apply map_lookup_filter_None. left. exact E.
Qed.

Lemma Effects_handOff (rp : Repicker) (fs : FS)
  (eventID link target : string) (new_picks : list Pick) :
  test rp = false ->
  from_end (split_slash target) 3 = Some eventID ->
  Effects rp fs [(link, target)] (handOff rp fs eventID link new_picks).
Proof.
  intros Ht Hev. unfold handOff, writePicksToYaml, os_symlink. cbv zeta.
  cbn [outgoing spool files].
  fold (outPath rp eventID link). fold (outgoingPath rp link).
  assert (Hfile : forall path,
            (forall l t e, In (l, t) [(link, target)] ->
               from_end (split_slash t) 3 = Some e ->
               path <> outPath rp e l) ->
            <[outPath rp eventID link := new_picks]> (files fs) !! path
            = files fs !! path).
  { intros path Hp. apply lookup_insert_ne. intros <-.
    apply (Hp link target eventID); [left; reflexivity|exact Hev|].
    reflexivity. }
  assert (Hsome : forall path, is_Some (files fs !! path) ->
            is_Some (<[outPath rp eventID link := new_picks]> (files fs)
                     !! path)).
  { intros path Hp.
    destruct (decide (outPath rp eventID link = path)) as [<-|Hne].
    - rewrite lookup_insert_eq. eauto.
    - rewrite lookup_insert_ne by exact Hne. exact Hp. }
  destruct (outgoing fs !! outgoingPath rp link) as [old|] eqn:E;
    unfold Effects; cbn [spool files outgoing];
    (split; [reflexivity|]); (split; [reflexivity|]).
  - split; [reflexivity|]. split; [exact Hsome|]. split; [exact Hfile|].
    split; [reflexivity|]. rewrite Ht. discriminate.
  - split; [apply insert_subseteq; exact E|]. split; [exact Hsome|].
    split; [exact Hfile|]. split; [|rewrite Ht; discriminate].
    intros dst Hd. apply lookup_insert_ne. intros <-.
    apply (Hd link target); [left; reflexivity|reflexivity].
Qed.

Lemma pollItems_effects (env : Env) (reverse : bool)
  (items : list (string * string)) (rp : Repicker) (fs : FS) :
  Effects rp fs (ps_delivered (pollItems env reverse items rp fs))
    (ps_fs (pollItems env reverse items rp fs)).
Proof.
  revert rp fs. induction items as [|[link target] rest IH]; intros rp fs.
  - apply Effects_refl.
  - cbn [pollItems]. cbv zeta.
    destruct (files fs !! target) as [records|]; [|apply Effects_refl].
    destruct (negb (endswith target ".yaml")); [apply Effects_refl|].
    destruct (from_end (split_slash target) 3) as [eventID|] eqn:Hev;
      [|apply Effects_refl].
    pose proof (process_settings env rp (readPicksFromYaml records)
                  eventID) as Hset.
    set (pr := process env rp (readPicksFromYaml records) eventID) in *.
    set (rp' := p_repicker pr) in *.
    assert (Hhead : forall D : list (string * string),
              incl [(link, target)] ((link, target) :: D)).
    { intros D x [<-|[]]. left. reflexivity. }
    assert (Htail : forall D : list (string * string),
              incl D ((link, target) :: D)).
    { intros D x Hx. right. exact Hx. }
    destruct (p_result pr) as [[|np nps]| |].
    + cbn [delivered ps_delivered ps_fs].
      apply Effects_settings with (rp' := rp'); [exact Hset|].
      apply Effects_trans with (fs1 := os_remove rp' fs link).
      * eapply Effects_weaken; [apply Hhead|].
        apply Effects_remove.
      * eapply Effects_weaken; [apply Htail|]. apply IH.
    + destruct (test rp') eqn:Ht.
      * cbn [delivered ps_delivered ps_fs].
        apply Effects_settings with (rp' := rp'); [exact Hset|].
        eapply Effects_weaken; [apply Htail|]. apply IH.
      * assert (Hdone :
          Effects rp' fs [(link, target)]
            (os_remove rp'
               (handOff rp' fs eventID link (np :: nps)) link)).
        { apply Effects_trans
            with (fs1 := handOff rp' fs eventID link (np :: nps)).
          - apply Effects_handOff; [exact Ht|exact Hev].
          - apply Effects_remove. }
        apply Effects_settings with (rp' := rp'); [exact Hset|].
        destruct reverse.
        -- exact Hdone.
        -- cbn [delivered ps_delivered ps_fs].
           eapply Effects_trans.
           ++ eapply Effects_weaken; [apply Hhead|]. exact Hdone.
           ++ eapply Effects_weaken; [apply Htail|]. apply IH.
    + cbn [delivered ps_delivered ps_fs].
      apply Effects_settings with (rp' := rp'); [exact Hset|].
      eapply Effects_weaken; [apply Htail|]. apply IH.
    + apply Effects_refl.
Qed.

(** One pass of [_poll] over the mailbox: the spool directory, the YAML
    files of picks and the outgoing links.  It adds no entry to the spool
    directory and leaves every entry as it is whose link it did not give
    to [_process]; it removes no YAML file of picks and no outgoing link,
    and never replaces an outgoing link that exists; the only YAML files
    of picks it writes are the result files
    [<eventRootDir>/<eventID>/out/<name>] of items it gave to
    [_process], and the only links it makes are
    [<workingDir>/outgoing/<name>] for such items; and in test mode it
    writes no YAML file of picks and makes no link.  (The annotation
    files that [_ml_predict] writes, in test mode as well, are no part
    of the mailbox and of this statement.) *)
Theorem poll_effects (env : Env) (reverse : bool) (rp : Repicker)
  (fs : FS) :
  let s := poll env reverse rp fs in
  spool (ps_fs s) ⊆ spool fs
  /\ (forall name,
        (forall target,
           ~ In (path_join (spoolDir rp) name, target) (ps_delivered s)) ->
        spool (ps_fs s) !! name = spool fs !! name)
  /\ outgoing fs ⊆ outgoing (ps_fs s)
  /\ (forall path, is_Some (files fs !! path) ->
                   is_Some (files (ps_fs s) !! path))
  /\ (forall path,
        (forall link target eventID,
           In (link, target) (ps_delivered s) ->
           from_end (split_slash target) 3 = Some eventID ->
           path <> outPath rp eventID link) ->
        files (ps_fs s) !! path = files fs !! path)
  /\ (forall dst,
        (forall link target,
           In (link, target) (ps_delivered s) ->
           dst <> outgoingPath rp link) ->
        outgoing (ps_fs s) !! dst = outgoing fs !! dst)
  /\ (test rp = true ->
      files (ps_fs s) = files fs /\ outgoing (ps_fs s) = outgoing fs).
Proof.
  unfold poll. cbv zeta. apply pollItems_effects.
Qed.

(** The pass over the spool directory with one link, outside test mode
    and in it: the results of [a.yaml] are written for event [ev1] and
    linked, the payload is still there; in test mode nothing is
    written. *)
Lemma poll_effects_witness :
  files (ps_fs (poll confidentEnv true (repickerOf false) oneLink))
    !! "./events/ev1/in/b.yaml"
  = files oneLink !! "./events/ev1/in/b.yaml"
  /\ is_Some (files (ps_fs (poll confidentEnv true (repickerOf false)
                              oneLink)) !! theTarget)
  /\ files (ps_fs (poll confidentEnv true (repickerOf true) oneLink))
     = files oneLink.
Proof.
  split; [|split].
  - destruct (poll_effects confidentEnv true (repickerOf false) oneLink)
      as (_ & _ & _ & _ & H & _).
    apply H. intros link target eventID Hin.
    vm_compute in Hin. destruct Hin as [[= <- <-]|[]].
    vm_compute. intros [= <-] [=].
  - destruct (poll_effects confidentEnv true (repickerOf false) oneLink)
      as (_ & _ & _ & H & _).
    apply H. vm_compute. eauto.
  - destruct (poll_effects confidentEnv true (repickerOf true) oneLink)
      as (_ & _ & _ & _ & _ & _ & H).
    apply H. reflexivity.
Defined.

End PollFacts.

(** ** The paths of the mailbox *)

Module PathFacts.
Import Repicker RepickerSpec RepickerExamples.

Lemma split_slash_nonempty (s : string) : split_slash s <> [].
Proof.
  destruct s as [|c s]; simpl; [discriminate|].
  destruct (Ascii.eqb c "/"); [discriminate|].
  destruct (split_slash s); discriminate.
Qed.

(** ["a/b".split("/") = "a".split("/") + "b".split("/")] *)
Lemma split_slash_app (a b : string) :
  split_slash (a ++ "/" ++ b) = (split_slash a ++ split_slash b)%list.
Proof.
  induction a as [|c a IH].
  - reflexivity.
  - change (String c a ++ "/" ++ b) with (String c (a ++ "/" ++ b)).
    cbn [split_slash]. cbv zeta. rewrite IH.
    destruct (Ascii.eqb c "/"); [reflexivity|].
    pose proof (split_slash_nonempty a) as Hne.
    destruct (split_slash a) as [|h t]; [contradiction|reflexivity].
Qed.

Lemma split_slash_free (s : string) :
  slash_free s = true -> split_slash s = [s].
Proof.
  induction s as [|c s IH]; [reflexivity|].
  cbn [slash_free split_slash]. cbv zeta.
  intros H. apply andb_true_iff in H. destruct H as [Hc Hs].
  apply negb_true_iff in Hc. rewrite Hc, (IH Hs). reflexivity.
Qed.

Lemma from_end_app {A} (l r : list A) (k : nat) :
  (0 < k)%nat -> (k <= length r)%nat ->
  from_end (l ++ r)%list k = from_end r k.
Proof.
  intros Hk Hr. unfold from_end. rewrite length_app.
  replace (k <=? length l + length r)%nat with true
    by (symmetry; apply Nat.leb_le; lia).
  replace (k <=? length r)%nat with true
    by (symmetry; apply Nat.leb_le; lia).
  rewrite nth_error_app2 by lia. f_equal. lia.
Qed.

Lemma startswith_slash_free (s : string) :
  slash_free s = true -> startswith s "/" = false.
Proof.
  destruct s as [|c s]; [reflexivity|].
  cbn [slash_free]. intros H. apply andb_true_iff in H.
  destruct H as [Hc _]. apply negb_true_iff in Hc.
  unfold startswith. cbn [String.prefix].
  destruct (ascii_dec "/" c) as [<-|Hne]; [discriminate|reflexivity].
Qed.

Lemma endswith_slash (d : string) :
  endswith d "/" = true -> exists d', d = d' ++ "/".
Proof.
  induction d as [|c d IH].
  - discriminate.
  - destruct d as [|c' d].
    + unfold endswith. cbn. intros H.
      destruct (Ascii.eqb_spec c "/") as [->|]; [|discriminate].
      exists "". reflexivity.
    + intros H.
      assert (H' : endswith (String c' d) "/" = true).
      { revert H. unfold endswith.
        cbn [String.length Nat.leb Nat.sub andb].
        rewrite !Nat.sub_0_r. cbn [substring]. trivial. }
      destruct (IH H') as [d' Hd]. exists (String c d').
      rewrite Hd. reflexivity.
Qed.

Lemma path_tail_split (a name : string) :
  slash_free name = true -> path_tail (a ++ "/" ++ name) = name.
Proof.
  intros Hn. unfold path_tail.
  rewrite split_slash_app, (split_slash_free name Hn).
  rewrite from_end_app by (simpl; lia). reflexivity.
Qed.

(** The names [_poll] works with.  For a name without a slash, as the
    names of a directory are, the file name of the link
    [spoolDir/name] is the name again; and the event of a payload
    [.../eventID/dir/name] is [eventID], whatever comes before. *)
Theorem mailbox_paths (d pre eventID dir name : string) :
  slash_free name = true ->
  path_tail (path_join d name) = name
  /\ (slash_free eventID = true -> slash_free dir = true ->
      from_end
        (split_slash (pre ++ "/" ++ eventID ++ "/" ++ dir ++ "/" ++ name))
        3 = Some eventID).
Proof.
  intros Hn. split.
  - unfold path_join. rewrite (startswith_slash_free name Hn).
    destruct (String.eqb_spec d "") as [->|Hd]; cbn [orb].
    + unfold path_tail. change ("" ++ name) with name.
      rewrite (split_slash_free name Hn). reflexivity.
    + destruct (endswith d "/") eqn:E.
      * destruct (endswith_slash d E) as [d' ->].
        replace ((d' ++ "/") ++ name) with (d' ++ "/" ++ name).
        -- apply path_tail_split, Hn.
        -- clear. induction d' as [|c d' IH]; [reflexivity|].
           change (String c (d' ++ "/" ++ name)
                   = String c ((d' ++ "/") ++ name)).
           rewrite IH. reflexivity.
      * apply path_tail_split, Hn.
  - intros He Hd.
    rewrite !split_slash_app.
    rewrite (split_slash_free _ He), (split_slash_free _ Hd),
      (split_slash_free _ Hn).
    rewrite from_end_app by (simpl; lia). reflexivity.
Qed.

Lemma mailbox_paths_witness :
  path_tail (path_join "./spool" "a.yaml") = "a.yaml"
  /\ from_end (split_slash theTarget) 3 = Some "ev1".
Proof.
  destruct (mailbox_paths "./spool" "./spool/../events" "ev1" "in"
              "a.yaml" eq_refl) as [H1 H2].
  split; [exact H1|exact (H2 eq_refl eq_refl)].
Defined.

End PathFacts.

(** ** The streams of a batch *)

Module StreamFacts.
Import Repicker RepickerSpec RepickerExamples.

Lemma append_nonempty (a b : string) : b <> "" -> a ++ b <> "".
Proof.
  intros Hb. destruct a as [|c a]; [exact Hb|discriminate].
Qed.

Lemma path_join_nonempty (a b : string) : b <> "" -> path_join a b <> "".
Proof.
  intros Hb. unfold path_join.
  destruct (startswith b "/"); [exact Hb|].
  destruct (String.eqb a "" || endswith a "/").
  - apply append_nonempty, Hb.
  - apply append_nonempty, append_nonempty, Hb.
Qed.

Lemma first_existing_nonempty (w : Waveforms) (rp : Repicker)
  (eventID : string) (pick : Pick) (components : list string) (f : string) :
  first_existing w rp eventID pick components = Some f ->
  py_not (Some f) = false.
Proof.
  unfold first_existing. intros H. apply find_some in H.
  destruct H as [Hin _]. apply in_map_iff in Hin.
  destruct Hin as (c & <- & _). cbn [py_not].
  apply String.eqb_neq. apply path_join_nonempty.
  apply append_nonempty. discriminate.
Qed.

Lemma collect_spec (w : Waveforms) (expected : Q) (rp : Repicker)
  (eventID : string) (st : option Stream * list Pick) (pick : Pick) :
  collect w expected rp eventID st pick
  = if raising w expected rp eventID pick then None
    else
      Some (if readable w rp eventID pick
            then Some (norm st.1
                       ++ (if usable w expected rp eventID pick
                           then tracesOf w rp eventID pick else []))%list
            else st.1,
            if usable w expected rp eventID pick
            then (st.2 ++ [pick])%list else st.2).
Proof.
  unfold collect, raising, readable, usable, tracesOf, threeFiles.
  cbv zeta. destruct st as [stream c]. cbn [fst snd].
  destruct (first_existing w rp eventID pick ["Z"]) as [z|] eqn:EZ;
    destruct (first_existing w rp eventID pick ["N"; "1"]) as [n|] eqn:EN;
    destruct (first_existing w rp eventID pick ["E"; "2"]) as [e|] eqn:EE;
    try rewrite (first_existing_nonempty _ _ _ _ _ _ EZ);
    try rewrite (first_existing_nonempty _ _ _ _ _ _ EN);
    try rewrite (first_existing_nonempty _ _ _ _ _ _ EE);
    cbn [py_not andb orb];
    try reflexivity;
    try (destruct (py_not _); reflexivity).
  unfold readThree.
  destruct (stream_read w z) as [[|lenZ]| |];
    destruct (stream_read w n) as [[|lenN]| |];
    destruct (stream_read w e) as [[|lenE]| |];
    cbn [none andb orb mergeThree]; try reflexivity.
  all: repeat match goal with
              | x : option Q |- _ => destruct x
              end.
  all: cbv [longEnough emptyMet Qltb].
  all: repeat match goal with
              | |- context [Qle_bool ?a ?b] => destruct (Qle_bool a b)
              end.
  all: cbn [negb andb];
    destruct stream as [[|t ts]|]; cbn [norm];
    rewrite ?app_nil_r; reflexivity.
Qed.

Lemma usable_readable (w : Waveforms) (expected : Q) (rp : Repicker)
  (eventID : string) (pick : Pick) :
  usable w expected rp eventID pick = true ->
  readable w rp eventID pick = true.
Proof.
  unfold usable, readable.
  destruct (threeFiles w rp eventID pick) as [[[z n] e]|]; [|discriminate].
  destruct (stream_read w z) as [[|[?|]]| |],
    (stream_read w n) as [[|[?|]]| |],
    (stream_read w e) as [[|[?|]]| |];
    try discriminate; reflexivity.
Qed.

Lemma none_readable (w : Waveforms) (expected : Q) (rp : Repicker)
  (eventID : string) (picks : list Pick) :
  existsb (readable w rp eventID) picks = false ->
  List.filter (usable w expected rp eventID) picks = [].
Proof.
  induction picks as [|p rest IH]; [reflexivity|].
  cbn [existsb List.filter]. intros H. apply orb_false_iff in H.
  destruct H as [Hp Hrest].
  destruct (usable w expected rp eventID p) eqn:E.
  - apply usable_readable in E. congruence.
  - apply IH, Hrest.
Qed.

Lemma collectAll_spec (w : Waveforms) (expected : Q) (rp : Repicker)
  (eventID : string) (picks : list Pick) (st : option Stream * list Pick) :
  collectAll w expected rp eventID picks st
  = if existsb (raising w expected rp eventID) picks then None
    else
      Some (if existsb (readable w rp eventID) picks
            then Some (norm st.1
                       ++ flat_map (tracesOf w rp eventID)
                            (List.filter (usable w expected rp eventID)
                               picks))%list
            else st.1,
            (st.2 ++ List.filter (usable w expected rp eventID) picks)%list).
Proof.
  revert st. induction picks as [|p rest IH]; intros st.
  - cbn. rewrite app_nil_r. destruct st; reflexivity.
  - cbn [collectAll]. rewrite collect_spec.
    cbn [existsb List.filter].
    destruct (raising w expected rp eventID p); [reflexivity|].
    cbn [orb]. rewrite IH.
    destruct (existsb (raising w expected rp eventID) rest); [reflexivity|].
    cbn [fst snd].
    destruct (readable w rp eventID p) eqn:Hr.
    + cbn [orb norm].
      destruct (usable w expected rp eventID p) eqn:Hu.
      * cbn [flat_map]. rewrite <- !app_assoc. cbn [app].
        destruct (existsb (readable w rp eventID) rest) eqn:Hx;
          [reflexivity|].
        rewrite (none_readable _ expected _ _ _ Hx). cbn [flat_map].
        rewrite !app_nil_r. reflexivity.
      * rewrite app_nil_r.
        destruct (existsb (readable w rp eventID) rest) eqn:Hx;
          [reflexivity|].
        rewrite (none_readable _ expected _ _ _ Hx). cbn.
        rewrite !app_nil_r. reflexivity.
    + cbn [orb].
      destruct (usable w expected rp eventID p) eqn:Hu;
        [apply usable_readable in Hu; congruence|].
      reflexivity.
Qed.

(** [_get_stream_from_picks] raises exactly when the batch holds a pick
    whose three component files exist and are read and for which the
    merge of a stream raises or a stream without a trace is looked at
    (lines 211-218, outside the [try]); one such pick loses the batch.
    The test before the merge, which names [streamE] twice and [streamN]
    not at all, lets no unread stream through: no other exception leaves
    the function.  When it returns, the picks it collects are those of
    the batch, in order, whose three component files (Z; N or else 1; E
    or else 2) exist, are all read and merged and hold a first trace as
    long as the network needs; the stream holds the three files of each
    of them, in that order; and the stream is [None] exactly when no
    pick of the batch has three files that are all read. *)
Theorem get_stream_spec (w : Waveforms) (expected : Q) (rp : Repicker)
  (picks : list Pick) (eventID : string) :
  get_stream_from_picks w expected rp picks eventID
  = if existsb (raising w expected rp eventID) picks then None
    else
      Some (if existsb (readable w rp eventID) picks
            then Some (flat_map (tracesOf w rp eventID)
                         (List.filter (usable w expected rp eventID) picks))
            else None,
            List.filter (usable w expected rp eventID) picks).
Proof.
  unfold get_stream_from_picks. rewrite collectAll_spec. reflexivity.
Qed.

(** One pick whose merge raises loses the batch. *)
Lemma one_failed_merge_loses_the_batch :
  get_stream_from_picks allThere 30 (repickerOf false) twoPicks "ev1"
  = Some (Some ["./events/ev1/waveforms/GE.UGM..BHZ.mseed";
                "./events/ev1/waveforms/GE.UGM..BHN.mseed";
                "./events/ev1/waveforms/GE.UGM..BHE.mseed";
                "./events/ev1/waveforms/GE.KARP..BHZ.mseed";
                "./events/ev1/waveforms/GE.KARP..BHN.mseed";
                "./events/ev1/waveforms/GE.KARP..BHE.mseed"], twoPicks)
  /\ get_stream_from_picks badMerge 30 (repickerOf false) twoPicks "ev1"
     = None.
Proof.
  split; vm_compute; reflexivity.
Qed.

End StreamFacts.

(** ** The batches of [_ml_predict] *)

Module BatchFacts.
Import Repicker RepickerSpec RepickerExamples StreamFacts.

(** A slice between two positions inside the list. *)
Lemma py_slice_inside {A} (l : list A) (i j : nat) :
  (i <= j)%nat -> (j <= length l)%nat ->
  py_slice l (Z.of_nat i) (Z.of_nat j) = firstn (j - i) (skipn i l).
Proof.
  intros Hij Hj. unfold py_slice. cbv zeta.
  replace (Z.of_nat i <? 0)%Z with false by (symmetry; apply Z.ltb_ge; lia).
  replace (Z.of_nat j <? 0)%Z with false by (symmetry; apply Z.ltb_ge; lia).
  rewrite !Z.min_l by lia.
  replace (Z.to_nat (Z.of_nat j - Z.of_nat i)) with (j - i)%nat by lia.
  rewrite Nat2Z.id. reflexivity.
Qed.

Lemma py_slice_incl {A} (l : list A) (i j : Z) : incl (py_slice l i j) l.
Proof.
  unfold py_slice. cbv zeta. intros x Hx.
  apply list_elem_of_In. apply list_elem_of_In in Hx.
  eapply elem_of_sublist; [exact Hx|].
  etrans; [apply sublist_take|apply sublist_drop].
Qed.

Lemma batchLoop_done (body : list Pick -> Dict -> Prediction) (fuel : nat)
  (b : Z) (l : list Pick) (acc : Dict) (r s e : Z) :
  (r <= 0)%Z -> batchLoop body fuel b l acc r s e = Some (Predictions acc).
Proof.
  intros Hr. destruct fuel; cbn [batchLoop];
    (replace (r >? 0)%Z with false
       by (symmetry; rewrite Z.gtb_ltb; apply Z.ltb_ge; lia));
    reflexivity.
Qed.

Lemma batchLoop_spec (body : list Pick -> Dict -> Prediction) (b : nat)
  (l : list Pick) (m : nat) :
  (0 < b)%nat ->
  forall s : nat,
  (length l <= s + m)%nat ->
  exists bs,
    (forall fuel acc, (m <= fuel)%nat ->
       batchLoop body fuel (Z.of_nat b) l acc
         (Z.of_nat (length l) - Z.of_nat s) (Z.of_nat s)
         (Z.min (Z.of_nat s + Z.of_nat b) (Z.of_nat (length l)))
       = Some (overBatches body bs acc))
    /\ concat bs = skipn s l
    /\ Forall (fun x => x <> [] /\ (length x <= b)%nat) bs
    /\ (length bs * b < length l - s + b)%nat
    /\ (length l - s <= length bs * b)%nat.
Proof.
  intros Hb. induction m as [|m IH]; intros s Hm.
  - exists []. split; [|split; [|split; [|split]]].
    + intros fuel acc _. apply batchLoop_done. lia.
    + rewrite skipn_all2 by lia. reflexivity.
    + constructor.
    + simpl. lia.
    + simpl. lia.
  - destruct (le_lt_dec (length l) s) as [Hle|Hlt].
    + exists []. split; [|split; [|split; [|split]]].
      * intros fuel acc _. apply batchLoop_done. lia.
      * rewrite skipn_all2 by lia. reflexivity.
      * constructor.
      * simpl. lia.
      * simpl. lia.
    + destruct (IH (s + b)%nat ltac:(lia))
        as (bs & Hrun & Hcat & Hall & Hn1 & Hn2).
      set (j := Nat.min (s + b) (length l)).
      exists (firstn (j - s) (skipn s l) :: bs).
      split; [|split; [|split; [|split]]].
      * intros [|fuel] acc Hf; [lia|]. cbn [batchLoop overBatches].
        cbv zeta.
        replace (Z.of_nat (length l) - Z.of_nat s >? 0)%Z with true
          by (symmetry; rewrite Z.gtb_ltb; apply Z.ltb_lt; lia).
        replace (Z.min (Z.of_nat s + Z.of_nat b) (Z.of_nat (length l)))
          with (Z.of_nat j) by (unfold j; lia).
        rewrite py_slice_inside by (unfold j; lia).
        destruct (body (firstn (j - s) (skipn s l)) acc) as [acc'| |];
          [|reflexivity|reflexivity].
        replace (Z.of_nat (length l) - Z.of_nat s - Z.of_nat b)%Z
          with (Z.of_nat (length l) - Z.of_nat (s + b))%Z by lia.
        replace (Z.of_nat s + Z.of_nat b)%Z with (Z.of_nat (s + b)) by lia.
        replace (Z.min (Z.of_nat (s + b) + Z.of_nat b)
                   (Z.of_nat (s + b)
                    + (Z.of_nat (length l) - Z.of_nat (s + b))))
          with (Z.min (Z.of_nat (s + b) + Z.of_nat b)
                  (Z.of_nat (length l))) by lia.
        apply Hrun. lia.
      * cbn [concat]. rewrite Hcat.
        destruct (le_lt_dec (s + b) (length l)) as [Hfull|Hpart].
        -- replace (j - s)%nat with b by (unfold j; lia).
           replace (s + b)%nat with (b + s)%nat by lia.
           rewrite <- skipn_skipn. apply firstn_skipn.
        -- rewrite (skipn_all2 l (n := s + b)) by lia.
           rewrite app_nil_r. apply firstn_all2.
           rewrite length_skipn. unfold j. lia.
      * constructor; [|exact Hall]. split.
        -- intros Hnil. apply (f_equal (@length Pick)) in Hnil.
           rewrite length_firstn, length_skipn in Hnil.
           unfold j in Hnil. simpl in Hnil. lia.
        -- rewrite length_firstn, length_skipn. unfold j. lia.
      * cbn [length]. rewrite Nat.mul_succ_l.
        destruct (le_lt_dec (s + b) (length l)) as [Hfull|Hpart]; [lia|].
        assert (Hz : length bs = 0%nat) by nia.
        rewrite Hz. lia.
      * cbn [length]. rewrite Nat.mul_succ_l. lia.
Qed.

(** With a batch size of at least one (the command line gives 50)
    [_ml_predict] ends, after one turn of its loop per pick at most:
    the picks go to [_get_stream_from_picks] in the order of the list,
    every one in exactly one batch, the batches are not empty, have
    [batchSize] picks at most and are as few as that allows, and the
    result is that of the body of the loop over these batches, up to the
    first exception that leaves it. *)
Theorem ml_predict_batches (w : Waveforms) (m : Model) (rp : Repicker)
  (batchSize : Z) (adhoc_picks : list Pick) (eventID : string) :
  (0 < batchSize)%Z ->
  exists bs,
    (forall fuel, (length adhoc_picks <= fuel)%nat ->
       mlPredict w m rp fuel batchSize adhoc_picks eventID
       = Some (overBatches (predictBatch w m rp eventID) bs []))
    /\ concat bs = adhoc_picks
    /\ Forall (fun x => x <> [] /\ (Z.of_nat (length x) <= batchSize)%Z) bs
    /\ Z.of_nat (length bs)
       = ((Z.of_nat (length adhoc_picks) + batchSize - 1) / batchSize)%Z.
Proof.
  intros Hb.
  destruct (batchLoop_spec (predictBatch w m rp eventID)
              (Z.to_nat batchSize) adhoc_picks
              (length adhoc_picks) ltac:(lia) 0%nat ltac:(lia))
    as (bs & Hrun & Hcat & Hall & Hn1 & Hn2).
  exists bs. split; [|split; [|split]].
  - intros fuel Hf. unfold mlPredict. cbv zeta.
    specialize (Hrun fuel [] Hf).
    rewrite Z2Nat.id in Hrun by lia.
    rewrite Z.sub_0_r, Z.add_0_l in Hrun. exact Hrun.
  - exact Hcat.
  - eapply Forall_impl; [exact Hall|].
    intros x [Hx Hlen]. split; [exact Hx|lia].
  - apply Z.div_unique with
      (r := (Z.of_nat (length adhoc_picks) + batchSize - 1
             - batchSize * Z.of_nat (length bs))%Z); [|lia].
    left. nia.
Qed.

Lemma ml_predict_batches_witness :
  exists bs,
    mlPredict allThere (modelWith [(0%Q, 9 # 10)]) (repickerOf false) 3 2
      threeRecords "ev1"
    = Some (overBatches
              (predictBatch allThere (modelWith [(0%Q, 9 # 10)])
                 (repickerOf false) "ev1") bs [])
    /\ concat bs = threeRecords
    /\ Z.of_nat (length bs) = 2%Z.
Proof.
  destruct (ml_predict_batches allThere (modelWith [(0%Q, 9 # 10)])
              (repickerOf false) 2 threeRecords "ev1" ltac:(lia))
    as (bs & Hrun & Hcat & _ & Hn).
  exists bs. split; [apply Hrun; simpl; lia|]. split; [exact Hcat|].
  exact Hn.
Defined.

(** With a batch size of zero, which is what the default
    [batchSize=False] of the constructor amounts to, or a negative one,
    [_ml_predict] never returns once there is a pick to predict: after
    any number of turns its loop is still running, unless an exception
    has left it. *)
Theorem ml_predict_never_returns (w : Waveforms) (m : Model)
  (rp : Repicker) (batchSize : Z) (adhoc_picks : list Pick)
  (eventID : string) (fuel : nat) (d : Dict) :
  (batchSize <= 0)%Z -> adhoc_picks <> [] ->
  mlPredict w m rp fuel batchSize adhoc_picks eventID
  <> Some (Predictions d).
Proof.
  intros Hb Hne. unfold mlPredict. cbv zeta.
  assert (Hpos : (0 < Z.of_nat (length adhoc_picks))%Z).
  { destruct adhoc_picks; [contradiction|simpl; lia]. }
  generalize (Z.min batchSize (Z.of_nat (length adhoc_picks))).
  generalize 0%Z. generalize (@nil (string * list (Q * Q))).
  revert Hpos. generalize (Z.of_nat (length adhoc_picks)) at 1 2.
  induction fuel as [|fuel IH]; intros r Hr acc s e; cbn [batchLoop];
    (replace (r >? 0)%Z with true
       by (symmetry; rewrite Z.gtb_ltb; apply Z.ltb_lt; lia)).
  - discriminate.
  - cbv zeta.
    destruct (predictBatch w m rp eventID (py_slice adhoc_picks s e) acc);
      [|discriminate|discriminate].
    apply IH. lia.
Qed.

Lemma ml_predict_never_returns_witness :
  mlPredict allThere (modelWith [(0%Q, 9 # 10)]) (repickerOf false) 1000 0
    twoPicks "ev1"
  <> Some (Predictions []).
Proof.
  apply ml_predict_never_returns; [lia|discriminate].
Defined.

End BatchFacts.

(** ** The dictionary of [_ml_predict] *)

Module DictFacts.
Import Repicker RepickerSpec RepickerExamples StreamFacts BatchFacts.
Import PredictionFacts.

Lemma dict_append_keys (d : Dict) (k : string) (v : Q * Q) (id : string) :
  In id (map fst (dict_append d k v)) -> In id (map fst d) \/ id = k.
Proof.
  induction d as [|[k' vs] rest IH]; cbn [dict_append].
  - intros [<-|[]]. right. reflexivity.
  - destruct (String.eqb k' k); cbn [map fst In].
    + tauto.
    + intros [H|H]; [tauto|]. destruct (IH H); tauto.
Qed.

Lemma dict_append_NoDup (d : Dict) (k : string) (v : Q * Q) :
  List.NoDup (map fst d) -> List.NoDup (map fst (dict_append d k v)).
Proof.
  induction d as [|[k' vs] rest IH]; cbn [dict_append].
  - intros _. cbn. constructor; [intros []|constructor].
  - cbn [map fst]. intros Hnd. inversion Hnd as [|x l Hnotin Hrest]; subst.
    destruct (String.eqb_spec k' k) as [->|Hne]; cbn [map fst].
    + constructor; assumption.
    + constructor; [|apply IH, Hrest].
      intros Hin. apply dict_append_keys in Hin.
      destruct Hin as [Hin|Heq]; [contradiction|congruence].
Qed.

Lemma dict_append_In (d : Dict) (k : string) (v : Q * Q) (id : string)
  (peaks : list (Q * Q)) :
  In (id, peaks) (dict_append d k v) ->
  (In (id, peaks) d \/ id = k) /\ (peaks = [] -> In (id, peaks) d).
Proof.
  induction d as [|[k' vs] rest IH]; cbn [dict_append].
  - intros [[= <- <-]|[]]. split; [auto|discriminate].
  - destruct (String.eqb_spec k' k) as [->|Hne]; cbn [In].
    + intros [[= <- <-]|H].
      * split; [auto|]. intros Hnil. destruct vs; discriminate.
      * split; auto.
    + intros [[= <- <-]|H]; [split; auto|].
      destruct (IH H) as [H1 H2]. split; [tauto|auto].
Qed.

Section Invariant.
Variables (w : Waveforms) (m : Model) (rp : Repicker) (eventID : string).
Variable picks : list Pick.

Lemma predictionsFor_nil : predictionsFor w m rp eventID picks [].
Proof. split; [constructor|intros id peaks []]. Qed.

Lemma predictionsFor_append (d : Dict) (pick : Pick) (v : Q * Q) :
  collectable w m rp eventID picks pick ->
  predictionsFor w m rp eventID picks d ->
  predictionsFor w m rp eventID picks (dict_append d (publicID pick) v).
Proof.
  intros [Hin Hus] [Hnd Hall]. split; [apply dict_append_NoDup, Hnd|].
  intros id peaks H. apply dict_append_In in H. destruct H as [H1 H2].
  split.
  - intros Hnil. destruct (Hall id peaks (H2 Hnil)) as [Hne _].
    contradiction.
  - destruct H1 as [H1| ->]; [apply (Hall id peaks H1)|].
    exists pick. auto.
Qed.

Lemma predictionsFor_fold (peaks : list (Q * Q)) (d : Dict) (pick : Pick) :
  collectable w m rp eventID picks pick ->
  predictionsFor w m rp eventID picks d ->
  predictionsFor w m rp eventID picks
    (foldl (fun d new_item => dict_append d (publicID pick) new_item)
       d peaks).
Proof.
  intros Hp. revert d. induction peaks as [|v peaks IH]; intros d Hd.
  - exact Hd.
  - cbn [foldl]. apply IH. apply predictionsFor_append; assumption.
Qed.

Lemma list_remove_incl (pick : Pick) (l l' : list Pick) :
  list_remove pick l = Some l' -> incl l' l.
Proof.
  revert l'. induction l as [|x rest IH]; intros l'; cbn [list_remove].
  - discriminate.
  - destruct (pick_eqb x pick).
    + intros [= <-]. apply incl_tl, incl_refl.
    + destruct (list_remove pick rest) as [r|]; [|discriminate].
      intros [= <-]. intros y [<-|Hy]; [left; reflexivity|].
      right. apply (IH r eq_refl), Hy.
Qed.

Lemma raised_Predictions (e : Raised) (d d' : Dict) :
  raised e d = Predictions d' -> d' = d.
Proof. destruct e; cbn; congruence. Qed.

Lemma forAnnotations_keys (annotations : list Annotation) (d : Dict)
  (collected d' : _) :
  (forall p, In p collected -> collectable w m rp eventID picks p) ->
  predictionsFor w m rp eventID picks d ->
  forAnnotations annotations d collected = Predictions d' ->
  predictionsFor w m rp eventID picks d'.
Proof.
  revert d collected.
  induction annotations as [|a rest IH]; intros d collected Hc Hd;
    cbn [forAnnotations].
  - intros [= <-]. exact Hd.
  - destruct (List.find _ collected) as [pick|] eqn:Hf; [|apply IH; auto].
    apply find_some in Hf. destruct Hf as [Hin _].
    destruct (a_measured a) as [peaks|e].
    + cbv zeta.
      pose proof (predictionsFor_fold peaks d pick (Hc pick Hin) Hd) as Hd1.
      destruct (list_remove pick collected) as [collected'|] eqn:Hr.
      * apply IH; [|exact Hd1].
        intros p Hp. apply Hc. exact (list_remove_incl _ _ _ Hr p Hp).
      * intros H. apply raised_Predictions in H. subst. exact Hd1.
    + intros H. apply raised_Predictions in H. subst. exact Hd.
Qed.

Lemma predictBatch_keys (batch : list Pick) (d d' : Dict) :
  incl batch picks ->
  predictionsFor w m rp eventID picks d ->
  predictBatch w m rp eventID batch d = Predictions d' ->
  predictionsFor w m rp eventID picks d'.
Proof.
  intros Hb Hd. unfold predictBatch. rewrite get_stream_spec.
  destruct (existsb (raising _ _ _ _) batch); [intros [= <-]; exact Hd|].
  destruct (existsb _ batch); [|intros [= <-]; exact Hd].
  unfold fill_result.
  destruct (annotate m _) as [annotations|e].
  - apply forAnnotations_keys; [|exact Hd].
    intros p Hp. apply filter_In in Hp. destruct Hp as [Hp Hu].
    split; [apply Hb, Hp|exact Hu].
  - intros H. apply raised_Predictions in H. subst. exact Hd.
Qed.

Lemma batchLoop_keys (fuel : nat) (b : Z) (acc : Dict) (r s e : Z)
  (d : Dict) :
  predictionsFor w m rp eventID picks acc ->
  batchLoop (predictBatch w m rp eventID) fuel b picks acc r s e
  = Some (Predictions d) ->
  predictionsFor w m rp eventID picks d.
Proof.
  revert acc r s e.
  induction fuel as [|fuel IH]; intros acc r s e Hacc; cbn [batchLoop].
  - destruct (r >? 0)%Z; [discriminate|]. intros [= <-]. exact Hacc.
  - destruct (r >? 0)%Z; [|intros [= <-]; exact Hacc]. cbv zeta.
    destruct (predictBatch w m rp eventID (py_slice picks s e) acc)
      as [acc'| |] eqn:Hb; [|discriminate|discriminate].
    apply IH.
    exact (predictBatch_keys _ _ _ (py_slice_incl picks s e) Hacc Hb).
Qed.

End Invariant.

Lemma mlPredict_predictionsFor (w : Waveforms) (m : Model)
  (rp : Repicker) (fuel : nat) (batchSize : Z) (adhoc_picks : list Pick)
  (eventID : string) (d : Dict) :
  mlPredict w m rp fuel batchSize adhoc_picks eventID
  = Some (Predictions d) ->
  predictionsFor w m rp eventID adhoc_picks d.
Proof.
  unfold mlPredict. cbv zeta. intros H.
  apply (batchLoop_keys w m rp eventID adhoc_picks _ _ _ _ _ _ _
           (predictionsFor_nil w m rp eventID adhoc_picks) H).
Qed.

(** The dictionary [_ml_predict] returns, whatever the batch size: no
    key occurs twice, no key comes without a peak, and every key is the
    [publicID] of one of the picks given whose three component files
    exist, were read and are long enough. *)
Theorem ml_predict_keys (w : Waveforms) (m : Model) (rp : Repicker)
  (fuel : nat) (batchSize : Z) (adhoc_picks : list Pick)
  (eventID : string) (d : Dict) :
  mlPredict w m rp fuel batchSize adhoc_picks eventID
  = Some (Predictions d) ->
  List.NoDup (map fst d)
  /\ forall id peaks, In (id, peaks) d ->
       peaks <> []
       /\ exists p, In p adhoc_picks /\ publicID p = id
                    /\ usable w (expected_input_length_sec m) rp eventID p
                       = true.
Proof.
  intros H. exact (mlPredict_predictionsFor _ _ _ _ _ _ _ _ H).
Qed.

Lemma ml_predict_keys_witness :
  List.NoDup (map fst [("pick/1", [(0%Q, 9 # 10)])])
  /\ exists p, In p threeRecords /\ publicID p = "pick/1".
Proof.
  destruct (ml_predict_keys allThere (modelWith [(0%Q, 9 # 10)])
              (repickerOf false) 3 2 threeRecords "ev1"
              [("pick/1", [(0%Q, 9 # 10)])] eq_refl) as [Hnd Hall].
  split; [exact Hnd|].
  destruct (Hall "pick/1" [(0%Q, 9 # 10)] (or_introl eq_refl))
    as (_ & p & Hp & Hid & _).
  exists p. split; assumption.
Defined.

(** [_process] with the [_ml_predict] of the code behind it: the
    lookups [workspace.picks[pick_id]] of lines 287 and 309 never raise
    [KeyError], for every key of the dictionary that [_ml_predict]
    returns for the picks [_process] gives it is a key of
    [workspace.picks].  (What else may raise in the loop over the
    predictions is not the subject here.) *)
Theorem process_lookup_succeeds (w : Waveforms) (m : Model) (fuel : nat)
  (batchSize : Z) (env : Env) (rp : Repicker) (adhoc : list Pick)
  (eventID : string) (predictions : Dict) :
  let pr := process env rp adhoc eventID in
  let submitted := concat (p_submitted pr) in
  mlPredict w m rp fuel batchSize submitted eventID
  = Some (ml_predict env submitted eventID) ->
  ml_predict env submitted eventID = Predictions predictions ->
  forall pick_id, In pick_id (map fst predictions) ->
    is_Some (seenFor (p_repicker pr) eventID !! pick_id).
Proof.
  cbv zeta. intros Hml Hp pick_id Hin.
  rewrite Hp in Hml. apply mlPredict_predictionsFor in Hml.
  destruct Hml as [_ Hml].
  apply in_map_iff in Hin. destruct Hin as ([id peaks] & <- & Hin).
  destruct (Hml id peaks Hin) as (_ & q & Hq & Hid & _).
  cbn [fst].
  destruct (ProcessPicksFacts.process_spec env rp adhoc eventID)
    as (Hsub & Hseen & _).
  cbv zeta in Hsub, Hseen. rewrite Hseen. rewrite Hsub in Hq.
  destruct (IdempotenceFacts.newAdhocPicks_Inv (seenFor rp eventID) adhoc)
    as (Hdom & _ & _).
  apply Hdom. right. unfold ids. apply in_map_iff.
  exists q. split; [exact Hid|exact Hq].
Qed.

(** Two picks, one of them with an onset: its key is looked up in the
    workspace. *)
Lemma process_lookup_succeeds_witness :
  is_Some
    (seenFor
       (p_repicker
          (process (envOf (modelWith [(0%Q, 9 # 10)])) (repickerOf false)
             twoPicks "ev1")) "ev1" !! "pick/1").
Proof.
  apply (process_lookup_succeeds allThere (modelWith [(0%Q, 9 # 10)]) 2 2
           (envOf (modelWith [(0%Q, 9 # 10)])) (repickerOf false) twoPicks
           "ev1" [("pick/1", [(0%Q, 9 # 10)])]).
  - vm_compute. reflexivity.
  - vm_compute. reflexivity.
  - left. reflexivity.
Defined.

End DictFacts.
